(** * Ultimate-Audiobooks: a shallow embedding of the decision logic

  The development follows the Python sources under [src/Main]:
  - [Main.py]       : mode dispatch and the process exit status,
  - [Util.py]       : the cached GET retry loop, name sanitising, the
                      match-confidence scorer and the audio-file lister,
  - [BookStatus.py] : the skip/fail ledgers and the existing-output probe,
  - [FileMerger.py] : chapter ordering and the chapter manifest.

  Python values are modelled as the code has them: an [int] is a [Z], a
  [float] is an IEEE-754 binary64 value (Rocq's primitive [float], the same
  arithmetic CPython uses), a [str] is a [string], a [dict] is a [gmap] and
  a [list] is a [list].  Text is modelled on the ASCII range: the character
  classes [\s], [\w], [\d] and [str.lower] are exact for code points below
  128. *)

From Stdlib Require Import ZArith String Ascii List Bool Lia.
From Stdlib Require Import PrimFloat Uint63 FloatOps SpecFloat.
From Stdlib Require Import DecimalString.
From stdpp Require Import gmap strings list sorting.

Local Open Scope Z_scope.

(** ** Python numbers *)

Module PyNum.

(** A Python number is an [int] or a [float]; arithmetic between the two
    converts the [int] operand to [float] first. *)
Inductive t : Type :=
| PInt (z : Z)
| PFloat (f : float).

(** [float(z)], exact for integers below 2^53 in magnitude, the only
    ones converted here. *)
Definition float_of_Z (z : Z) : float :=
  if z <? 0 then PrimFloat.opp (PrimFloat.of_uint63 (Uint63.of_Z (- z)))
  else PrimFloat.of_uint63 (Uint63.of_Z z).

Definition to_float (n : t) : float :=
  match n with
  | PInt z => float_of_Z z
  | PFloat f => f
  end.

(** [a + b] *)
Definition add (a b : t) : t :=
  match a, b with
  | PInt x, PInt y => PInt (x + y)
  | _, _ => PFloat (PrimFloat.add (to_float a) (to_float b))
  end.

(** [a * b] *)
Definition mul (a b : t) : t :=
  match a, b with
  | PInt x, PInt y => PInt (x * y)
  | _, _ => PFloat (PrimFloat.mul (to_float a) (to_float b))
  end.

(** [a == b] *)
Definition eqb (a b : t) : bool :=
  match a, b with
  | PInt x, PInt y => x =? y
  | _, _ => PrimFloat.eqb (to_float a) (to_float b)
  end.

(** [a >= b] *)
Definition geb (a b : t) : bool :=
  match a, b with
  | PInt x, PInt y => y <=? x
  | _, _ => PrimFloat.leb (to_float b) (to_float a)
  end.

(** The exact integer part of a finite float, truncated toward zero:
    Python's [int(x)]; [None] stands for the [OverflowError] or
    [ValueError] raised on infinities and NaN. *)
Definition trunc (f : float) : option Z :=
  match Prim2SF f with
  | S754_zero _ => Some 0
  | S754_finite s m e =>
      let mag := if 0 <=? e then Z.shiftl (Zpos m) e
                 else Z.shiftr (Zpos m) (- e) in
      Some (if s then - mag else mag)
  | S754_infinity _ => None
  | S754_nan => None
  end.

(** A number is integral when it is an [int], or a finite [float] with no
    fractional part. *)
Definition is_integral (n : t) : bool :=
  match n with
  | PInt _ => true
  | PFloat f =>
      match trunc f with
      | Some z => PrimFloat.eqb (float_of_Z z) f
      | None => false
      end
  end.

End PyNum.

(** ** Main.py: mode dispatch *)

Module Main.

(** The fields of [Settings] that [main] and [processBooks] read. *)
Record Settings : Type := mkSettings {
  input : string;
  output : string;
  recurseFetch : bool;
  recurseCombine : bool;
  recursePreserve : bool;
  fixSeparators : bool;
  plexRefresh : bool
}.

Inductive LogLevel : Type := DEBUG | INFO | WARNING | ERROR | CRITICAL.

Inductive Batch : Type :=
| recursivelyFetchBatch
| recursivelyCombineBatch
| recursivelyPreserveBatch
| singleLevelBatch.

(** What a run does, in order. *)
Inductive Event : Type :=
| Log (lvl : LogLevel) (msg : string)
| FixAuthorSeparators (folder : string)
| MakeOutputDir (folder : string)
| Run (b : Batch)
| PrintSummary
| RefreshLibrary.

(** How a call ends: it returns, or [sys.exit(arg)] raised [SystemExit]
    carrying [arg] ([None] for a bare [sys.exit()]). *)
Inductive Outcome : Type :=
| Returned
| SystemExit (code : option Z).

Definition incompatible_msg : string :=
  "Incompatible processing modes selected. Enable only one processing mode. Exiting...".

Definition processBooks (settings : Settings) : list Event * Outcome :=
  if (recurseFetch settings && recurseCombine settings)
     || (recurseFetch settings && recursePreserve settings)
     || (recurseCombine settings && recursePreserve settings)
  then ([Log CRITICAL incompatible_msg], SystemExit None)
  else if recurseFetch settings then
    ([Run recursivelyFetchBatch; PrintSummary], Returned)
  else if recurseCombine settings then
    ([Run recursivelyCombineBatch; PrintSummary], Returned)
  else if recursePreserve settings then
    ([Run recursivelyPreserveBatch; PrintSummary], Returned)
  else
    ([Run singleLevelBatch; PrintSummary], Returned).

(** [main], from the settings already built. *)
Definition main (settings : Settings) : list Event * Outcome :=
  if fixSeparators settings then
    ([Log INFO ("Running author separator fix on: " ++ input settings);
      FixAuthorSeparators (input settings)], Returned)
  else
    let start :=
      [Log DEBUG ("Creating output directory if not exists: "
                  ++ output settings);
       MakeOutputDir (output settings)] in
    match processBooks settings with
    | (events, Returned) =>
        (start ++ events
         ++ (if plexRefresh settings then [RefreshLibrary] else []),
         Returned)
    | (events, SystemExit code) => (start ++ events, SystemExit code)
    end.

(** The status the interpreter exits with: a [SystemExit] without argument
    (or with [None]) is status 0, one with an integer is that status, and
    a normal end is status 0. *)
Definition exit_status (o : Outcome) : Z :=
  match o with
  | Returned => 0
  | SystemExit None => 0
  | SystemExit (Some n) => n
  end.

(** The [__main__] block around [main]: it logs the final message and
    re-raises a caught [SystemExit] unchanged; the result is what happened
    and the exit status of the process. *)
Definition entry_point (settings : Settings) : list Event * Z :=
  match main settings with
  | (events, Returned) =>
      (events ++ [Log INFO "Processing complete."], exit_status Returned)
  | (events, SystemExit code) =>
      (events ++ [Log INFO "Exited."], exit_status (SystemExit code))
  end.

(** More than one of the three recursive modes is selected. *)
Definition modes_conflict (settings : Settings) : Prop :=
  (recurseFetch settings = true /\ recurseCombine settings = true)
  \/ (recurseFetch settings = true /\ recursePreserve settings = true)
  \/ (recurseCombine settings = true /\ recursePreserve settings = true).

End Main.

(** ** Util.py: the cached GET *)

Module GET.

Record Response : Type := mkResponse {
  status_code : Z;
  text : string
}.

(** One call of [requests.get(url)]: it raises, or it returns a response. *)
Inductive Attempt : Type :=
| Raises
| Responds (page : Response).

(** The network, as the loop sees it: the outcome of the n-th call. *)
Definition Network : Type := nat -> Attempt.

Record LoopState : Type := mkLoop {
  timer : PyNum.t;
  calls : nat;                (* calls of requests.get made so far *)
  sleeps : list PyNum.t       (* arguments of time.sleep, oldest first *)
}.

Inductive LoopStep : Type :=
| Again (s : LoopState)               (* next iteration of [while True] *)
| Break (page : Response) (s : LoopState)
| Abort (s : LoopState).              (* [return None] from the handler *)

(** One iteration of the [while True] loop of [GETpage]. *)
Definition iteration (net : Network) (s : LoopState) : LoopStep :=
  match net (calls s) with
  | Responds page => Break page (mkLoop (timer s) (S (calls s)) (sleeps s))
  | Raises =>
      if PyNum.eqb (timer s) (PyNum.PInt 2) then
        Again (mkLoop (PyNum.mul (timer s) (PyNum.PFloat 1.5%float))
                      (S (calls s))
                      (sleeps s ++ [timer s]))
      else if PyNum.geb (timer s) (PyNum.PInt 10) then
        Abort (mkLoop (timer s) (S (calls s)) (sleeps s))
      else
        Again (mkLoop (timer s) (S (calls s)) (sleeps s))
  end.

(** The loop, run for at most [fuel] iterations; [None] means it is still
    running when the fuel is spent. *)
Fixpoint loop (fuel : nat) (net : Network) (s : LoopState)
  : option (option Response * LoopState) :=
  match fuel with
  | O => None
  | S fuel' =>
      match iteration net s with
      | Again s' => loop fuel' net s'
      | Break page s' => Some (Some page, s')
      | Abort s' => Some (None, s')
      end
  end.

Definition initial : LoopState := mkLoop (PyNum.PInt 2) 0 [].

(** [GETpage(url, use_cache)] for a URL with cache entry [cached] (the
    result of [_get_cached(url)]).  The result is [None] while the loop is
    still running, else the returned value ([None] or a response) paired
    with the body written to the cache, if any. *)
Definition GETpage (fuel : nat) (net : Network) (cached : option string)
    (use_cache : bool) : option (option Response * option string) :=
  match (if use_cache then cached else None) with
  | Some content => Some (Some (mkResponse 200 content), None)
  | None =>
      match loop fuel net initial with
      | None => None
      | Some (None, _) => Some (None, None)
      | Some (Some page, _) =>
          if negb (status_code page =? 200) then Some (None, None)
          else Some (Some page, if use_cache then Some (text page) else None)
      end
  end.

(** A network on which every request raises. *)
Definition always_raises : Network := fun _ => Raises.

(** A network on which the first [n] requests raise and the next one is
    answered with status 200. *)
Definition raises_first (n : nat) (body : string) : Network :=
  fun k => if (k <? n)%nat then Raises else Responds (mkResponse 200 body).

End GET.

(** ** Python text primitives *)

Module Text.

Definition code (c : ascii) : N := N_of_ascii c.

(** [str.isspace], the class [\s] and the default [strip]/[split]
    separators: TAB, LF, VT, FF, CR, FS, GS, RS, US and the space. *)
Definition is_space (c : ascii) : bool :=
  let n := code c in
  ((9 <=? n) && (n <=? 13) || (28 <=? n) && (n <=? 32))%N.

Definition is_digit (c : ascii) : bool :=
  let n := code c in ((48 <=? n) && (n <=? 57))%N.

Definition is_upper (c : ascii) : bool :=
  let n := code c in ((65 <=? n) && (n <=? 90))%N.

Definition is_lower (c : ascii) : bool :=
  let n := code c in ((97 <=? n) && (n <=? 122))%N.

(** The class [\w]: letters, digits and the underscore. *)
Definition is_word (c : ascii) : bool :=
  is_upper c || is_lower c || is_digit c || (code c =? 95)%N.

Definition lower_char (c : ascii) : ascii :=
  if is_upper c then ascii_of_N (code c + 32) else c.

Definition upper_char (c : ascii) : ascii :=
  if is_lower c then ascii_of_N (code c - 32) else c.

Definition eqb_char (a b : ascii) : bool := (code a =? code b)%N.

(** Equality of characters under [re.IGNORECASE]. *)
Definition eqb_char_ci (a b : ascii) : bool :=
  eqb_char (lower_char a) (lower_char b).

Definition chars : Type := list ascii.

Definition of_string (s : string) : chars := list_ascii_of_string s.
Definition to_string (l : chars) : string := string_of_list_ascii l.

Fixpoint eqb_chars (a b : chars) : bool :=
  match a, b with
  | [], [] => true
  | x :: a', y :: b' => eqb_char x y && eqb_chars a' b'
  | _, _ => false
  end.

(** [s.lower()] *)
Definition lower (l : chars) : chars := map lower_char l.

(** [s.upper()] *)
Definition upper (l : chars) : chars := map upper_char l.

Fixpoint lstrip (l : chars) : chars :=
  match l with
  | [] => []
  | c :: r => if is_space c then lstrip r else l
  end.

Definition rstrip (l : chars) : chars := rev (lstrip (rev l)).

(** [s.strip()] *)
Definition strip (l : chars) : chars := rstrip (lstrip l).

(** [re.sub(r'\s+', ' ', s)]: every maximal run of whitespace becomes one
    space; [in_run] tells that the previous character was whitespace. *)
Fixpoint collapse_from (in_run : bool) (l : chars) : chars :=
  match l with
  | [] => []
  | c :: r =>
      if is_space c then
        if in_run then collapse_from true r
        else " "%char :: collapse_from true r
      else c :: collapse_from false r
  end.

Definition collapse_ws (l : chars) : chars := collapse_from false l.

(** [re.sub('[...]', '', s)] for a character class. *)
Definition remove_class (cls : ascii -> bool) (l : chars) : chars :=
  List.filter (fun c => negb (cls c)) l.

(** [re.sub('[...]', ' ', s)] for a character class. *)
Definition blank_class (cls : ascii -> bool) (l : chars) : chars :=
  map (fun c => if cls c then " "%char else c) l.

Fixpoint starts_with (p l : chars) : bool :=
  match p, l with
  | [], _ => true
  | _ :: _, [] => false
  | x :: p', y :: l' => eqb_char x y && starts_with p' l'
  end.

(** [needle in hay] *)
Fixpoint contains (needle hay : chars) : bool :=
  starts_with needle hay
  || match hay with
     | [] => false
     | _ :: r => contains needle r
     end.

(** [s.split(sep)[0]] for a non-empty [sep]: the text before the first
    occurrence of [sep], the whole text when there is none. *)
Fixpoint before (sep l : chars) : chars :=
  match l with
  | [] => []
  | c :: r => if starts_with sep l then [] else c :: before sep r
  end.

(** [s.split()]: the maximal runs of non-whitespace; [cur] is the word
    being read, reversed. *)
Fixpoint split_from (cur : chars) (l : chars) : list chars :=
  match l with
  | [] => match cur with [] => [] | _ => [rev cur] end
  | c :: r =>
      if is_space c then
        match cur with
        | [] => split_from [] r
        | _ => rev cur :: split_from [] r
        end
      else split_from (c :: cur) r
  end.

Definition split_ws (l : chars) : list chars := split_from [] l.

(** [s.endswith(suffix)] *)
Definition ends_with (suffix l : chars) : bool :=
  starts_with (rev suffix) (rev l).

End Text.

(** ** A matcher for the regular expressions of the sources *)

Module Regex.

(** Patterns over characters; [Cls] is a character class or a literal. *)
Inductive t : Type :=
| Void
| Eps
| Cls (p : ascii -> bool)
| Cat (a b : t)
| Alt (a b : t)
| Star (a : t).

Definition Opt (a : t) : t := Alt a Eps.
Definition Plus (a : t) : t := Cat a (Star a).

Fixpoint nullable (r : t) : bool :=
  match r with
  | Void => false
  | Eps => true
  | Cls _ => false
  | Cat a b => nullable a && nullable b
  | Alt a b => nullable a || nullable b
  | Star _ => true
  end.

Definition cat (a b : t) : t :=
  match a, b with
  | Void, _ => Void
  | _, Void => Void
  | Eps, _ => b
  | _, _ => Cat a b
  end.

Definition alt (a b : t) : t :=
  match a, b with
  | Void, _ => b
  | _, Void => a
  | _, _ => Alt a b
  end.

(** The derivative of a pattern by a character. *)
Fixpoint deriv (c : ascii) (r : t) : t :=
  match r with
  | Void => Void
  | Eps => Void
  | Cls p => if p c then Eps else Void
  | Cat a b =>
      if nullable a then alt (cat (deriv c a) b) (deriv c b)
      else cat (deriv c a) b
  | Alt a b => alt (deriv c a) (deriv c b)
  | Star a => cat (deriv c a) (Star a)
  end.

(** The whole text is in the language of the pattern (the pattern followed
    by the end anchor). *)
Fixpoint full (r : t) (l : Text.chars) : bool :=
  match l with
  | [] => nullable r
  | c :: l' => full (deriv c r) l'
  end.

(** [re.match(r, s)]: some prefix of the text is in the language. *)
Fixpoint at_start (r : t) (l : Text.chars) : bool :=
  nullable r
  || match l with
     | [] => false
     | c :: l' => at_start (deriv c r) l'
     end.

(** [re.search(r + '$', s)]: some suffix of the text is in the language. *)
Fixpoint search_to_end (r : t) (l : Text.chars) : bool :=
  full r l
  || match l with
     | [] => false
     | _ :: l' => search_to_end r l'
     end.

(** [re.sub(r + '$', '', s)] for a pattern that matches no empty text and
    closes with [\s*]: the leftmost suffix in the language is removed. *)
Fixpoint sub_to_end (r : t) (l : Text.chars) : Text.chars :=
  if full r l then []
  else match l with
       | [] => []
       | c :: l' => c :: sub_to_end r l'
       end.

(** A literal character, compared as under [re.IGNORECASE]. *)
Definition chr_ci (c : ascii) : t := Cls (Text.eqb_char_ci c).

(** A literal character, compared exactly. *)
Definition chr (c : ascii) : t := Cls (Text.eqb_char c).

(** A literal word under [re.IGNORECASE]. *)
Definition word_ci (s : string) : t :=
  fold_right (fun c r => cat (chr_ci c) r) Eps (Text.of_string s).

Definition space : t := Cls Text.is_space.

(** An alternation [(a|b|...)]. *)
Definition any_of (rs : list t) : t := fold_right alt Void rs.

(** Letter groups each followed by an optional period, as in [Ph\.?D\.?]. *)
Definition dotted (parts : list string) : t :=
  fold_right (fun s r => cat (word_ci s) (cat (Opt (chr "."%char)) r))
             Eps parts.

End Regex.

(** ** Util.py: names for paths *)

Module PathNames.

Import Regex.

(** [(foreword|forward|introduction|preface|afterword|epilogue|read|narrated|translated|edited)\s+by\s+],
    used with [re.match] and [re.IGNORECASE]. *)
Definition credit_prefixes : Regex.t :=
  cat (any_of (map word_ci
         ["foreword"; "forward"; "introduction"; "preface"; "afterword";
          "epilogue"; "read"; "narrated"; "translated"; "edited"]%string))
      (cat (Plus space) (cat (word_ci "by") (Plus space))).

(** [\s+-\s*(foreword|forward|contributor|editor|introduction|afterword|translator|narrator|preface|epilogue)\s*]
    before the end anchor. *)
Definition credit_suffixes : Regex.t :=
  cat (Plus space)
      (cat (chr "-"%char)
           (cat (Star space)
                (cat (any_of (map word_ci
                        ["foreword"; "forward"; "contributor"; "editor";
                         "introduction"; "afterword"; "translator";
                         "narrator"; "preface"; "epilogue"]%string))
                     (Star space)))).

(** [\s+-\s+(foreword|forward|contributor|editor|introduction|afterword|translator|narrator|preface)\s*]
    before the end anchor. *)
Definition credit_role_suffix : Regex.t :=
  cat (Plus space)
      (cat (chr "-"%char)
           (cat (Plus space)
                (cat (any_of (map word_ci
                        ["foreword"; "forward"; "contributor"; "editor";
                         "introduction"; "afterword"; "translator";
                         "narrator"; "preface"]%string))
                     (Star space)))).

(** The alternatives of the credentials pattern, in source order. *)
Definition credential_names : list Regex.t :=
  [ dotted ["M"; "D"]; dotted ["Ph"; "D"]; dotted ["D"; "O"];
    dotted ["J"; "D"]; dotted ["Ed"; "D"]; dotted ["Psy"; "D"];
    dotted ["D"; "Min"]; dotted ["D"; "D"; "S"]; dotted ["R"; "N"];
    dotted ["L"; "M"; "F"; "T"]; dotted ["L"; "C"; "S"; "W"];
    dotted ["M"; "F"; "T"]; dotted ["L"; "P"; "C"];
    dotted ["L"; "M"; "H"; "C"]; dotted ["L"; "P"; "C"; "C"];
    dotted ["M"; "A"]; dotted ["M"; "S"]; dotted ["M"; "B"; "A"];
    dotted ["M"; "S"; "W"]; dotted ["B"; "A"]; dotted ["B"; "S"];
    dotted ["C"; "P"; "A"]; dotted ["Jr"]; dotted ["Sr"];
    word_ci "III"; word_ci "II"; word_ci "IV" ]%string.

(** [,?\s*(M\.?D\.?|Ph\.?D\.?|...|III|II|IV)\s*] before the end anchor. *)
Definition credentials : Regex.t :=
  cat (Opt (chr ","%char))
      (cat (Star space) (cat (any_of credential_names) (Star space))).

Definition is_author_separator (c : ascii) : bool :=
  Text.eqb_char c ","%char || Text.eqb_char c ";"%char
  || Text.eqb_char c "/"%char || Text.eqb_char c "&"%char.

(** [re.split(r'\s*[,;/&]\s*', author)].  [cur] is the segment being read
    and [pend] the whitespace read after it (both reversed): that whitespace
    belongs to the next match when a separator follows, to the segment
    otherwise.  [after_sep] holds while the [\s*] that trails a separator is
    being consumed. *)
Fixpoint split_authors (cur pend : Text.chars) (after_sep : bool)
    (l : Text.chars) : list Text.chars :=
  match l with
  | [] => [rev (pend ++ cur)]
  | c :: r =>
      if is_author_separator c then
        rev cur :: split_authors [] [] true r
      else if Text.is_space c then
        if after_sep then split_authors cur pend true r
        else split_authors cur (c :: pend) false r
      else split_authors (c :: pend ++ cur) [] false r
  end.

(** The loop over the segments: the first one that is no credit
    attribution, stripped. *)
Fixpoint first_author (segments : list Text.chars) : option Text.chars :=
  match segments with
  | [] => None
  | segment :: rest =>
      let seg := Text.strip segment in
      if at_start credit_prefixes seg then first_author rest
      else if search_to_end credit_suffixes seg then first_author rest
      else Some seg
  end.

(** One pass of the credentials loop:
    [re.sub(credentials, '', cleaned, flags=re.IGNORECASE).strip()]. *)
Definition strip_credential (cleaned : Text.chars) : Text.chars :=
  Text.strip (sub_to_end credentials cleaned).

(** [while prev_cleaned != cleaned: ...], for at most [fuel] passes. *)
Fixpoint strip_credentials (fuel : nat) (cleaned : Text.chars)
    : Text.chars :=
  match fuel with
  | O => cleaned
  | S fuel' =>
      let next := strip_credential cleaned in
      if Text.eqb_chars next cleaned then next
      else strip_credentials fuel' next
  end.

(** The class of [<], [>], the double quote, [|], [?], [:] and [*]. *)
Definition is_invalid_path_char (c : ascii) : bool :=
  let n := Text.code c in
  ((n =? 60) || (n =? 62) || (n =? 34) || (n =? 124) || (n =? 63)
   || (n =? 58) || (n =? 42))%N.

(** The same class with TAB, LF and CR added. *)
Definition is_invalid_title_char (c : ascii) : bool :=
  let n := Text.code c in
  (is_invalid_path_char c || (n =? 9) || (n =? 10) || (n =? 13))%N.

Definition cleanAuthorForPath (author : string) : string :=
  let a := Text.of_string author in
  match a with
  | [] => author
  | _ =>
      let segments := split_authors [] [] false a in
      let cleaned :=
        match first_author segments with
        | Some seg => seg
        | None => match segments with
                  | s0 :: _ => Text.strip s0
                  | [] => []
                  end
        end in
      match cleaned with
      | [] => author
      | _ =>
          let cleaned := sub_to_end credit_role_suffix cleaned in
          let cleaned := strip_credentials (S (length cleaned)) cleaned in
          let cleaned := Text.remove_class is_invalid_path_char cleaned in
          Text.to_string (Text.strip (Text.collapse_ws cleaned))
      end
  end.

Definition cleanTitleForPath (title : string) : string :=
  match Text.of_string title with
  | [] => title
  | t =>
      let cleaned := Text.remove_class is_invalid_title_char t in
      Text.to_string (Text.strip (Text.collapse_ws cleaned))
  end.

End PathNames.

(** ** pathlib, for POSIX paths *)

Module PyPath.

(** [Path(p).parts]: the components between slashes; [cur] is the
    component being read, reversed. *)
Fixpoint parts_from (cur : Text.chars) (l : Text.chars) : list string :=
  match l with
  | [] => match cur with [] => [] | _ => [Text.to_string (rev cur)] end
  | c :: r =>
      if Text.eqb_char c "/"%char then
        match cur with
        | [] => parts_from [] r
        | _ => Text.to_string (rev cur) :: parts_from [] r
        end
      else parts_from (c :: cur) r
  end.

Definition parts (p : string) : list string :=
  parts_from [] (Text.of_string p).

(** [Path(p).name]: the last component. *)
Definition name (p : string) : Text.chars :=
  Text.of_string (List.last (parts p) ""%string).

(** The position of the last period of a name, if any. *)
Fixpoint rfind_dot (i : nat) (l : Text.chars) : option nat :=
  match l with
  | [] => None
  | c :: r =>
      match rfind_dot (S i) r with
      | Some j => Some j
      | None => if Text.eqb_char c "."%char then Some i else None
      end
  end.

(** [Path(p).stem]: the name without its last suffix; a period that
    opens or closes the name starts no suffix. *)
Definition stem (p : string) : Text.chars :=
  let n := name p in
  match rfind_dot 0 n with
  | Some i => if (0 <? i)%nat && (i <? length n - 1)%nat then take i n else n
  | None => n
  end.

End PyPath.

(** ** A stable sort *)

Module StableSort.

Section Sort.

Context {A : Type}.
Variable leb : A -> A -> bool.

(** An element goes before the first one that is not smaller, so that
    elements that compare equal keep their order, as in [sorted] and
    [list.sort]. *)
Fixpoint insert (x : A) (l : list A) : list A :=
  match l with
  | [] => [x]
  | y :: r => if leb x y then x :: l else y :: insert x r
  end.

Definition sort (l : list A) : list A := fold_right insert [] l.

End Sort.

End StableSort.

(** ** BookStatus.py: the skip and fail ledgers *)

Module BookStatus.

Definition TEMP_FOLDER_NAME : string := "Ultimate temp".

Definition _isInTempFolder (item : string) : bool :=
  bool_decide (TEMP_FOLDER_NAME ∈ PyPath.parts item).

Inductive Destination : Type := SkipDir | FailDir.

(** What the bookkeeping does besides updating the lists. *)
Inductive Action : Type :=
| LogAlreadySkipped (item : string)
| LogAlreadyFailed (original : string)
| LogSkipping (original : string) (reason : option string)
| LogFailed (original : string) (reason : option string)
| CreateFailMarker (original : string) (reason : option string)
    (files : option (list string))
| DeleteTempFile (item : string)
| MoveItem (item : string) (dest : Destination).

(** The module-level state: [_skips], [_fails], [_originalPaths], and the
    actions performed so far. *)
Record Ledger : Type := mkLedger {
  _skips : list string;
  _fails : list string;
  _originalPaths : gmap string string;
  actions : list Action
}.

Definition empty : Ledger := mkLedger [] [] ∅ [].

Section Operations.

(** [Path.resolve], which depends on the file system, and the truth of
    [settings and settings.move]. *)
Variable resolve : string -> string.
Variable move : bool.

Definition setOriginalPath (currentPath originalPath : string)
    (st : Ledger) : Ledger :=
  mkLedger (_skips st) (_fails st)
    (<[resolve currentPath := resolve originalPath]> (_originalPaths st))
    (actions st).

(** [_originalPaths.get(item.resolve(), item)] *)
Definition originalItem (st : Ledger) (item : string) : string :=
  default item (_originalPaths st !! resolve item).

Definition skipBook (item : string) (reason : option string)
    (st : Ledger) : Ledger :=
  if bool_decide (item ∈ _skips st) then
    mkLedger (_skips st) (_fails st) (_originalPaths st)
      (actions st ++ [LogAlreadySkipped item])
  else
    let original := originalItem st item in
    mkLedger (_skips st ++ [original]) (_fails st) (_originalPaths st)
      (actions st
       ++ [LogSkipping original reason]
       ++ (if _isInTempFolder item then [DeleteTempFile item] else [])
       ++ (if move && negb (_isInTempFolder item)
           then [MoveItem item SkipDir] else [])).

Definition failBook (item : string) (reason : option string)
    (files : option (list string)) (st : Ledger) : Ledger :=
  let original := originalItem st item in
  if bool_decide (original ∈ _fails st) then
    mkLedger (_skips st) (_fails st) (_originalPaths st)
      (actions st ++ [LogAlreadyFailed original])
  else
    mkLedger (_skips st) (_fails st ++ [original]) (_originalPaths st)
      (actions st
       ++ [LogFailed original reason; CreateFailMarker original reason files]
       ++ (if _isInTempFolder item then [DeleteTempFile item] else [])
       ++ (if move && negb (_isInTempFolder item)
           then [MoveItem original FailDir] else [])).

Definition clearSkips (st : Ledger) : Ledger :=
  mkLedger [] (_fails st) (_originalPaths st) (actions st).

Definition clearFails (st : Ledger) : Ledger :=
  mkLedger (_skips st) [] (_originalPaths st) (actions st).

(** The calls a run makes into the ledger. *)
Inductive Call : Type :=
| CallSetOriginalPath (currentPath originalPath : string)
| CallSkipBook (item : string) (reason : option string)
| CallFailBook (item : string) (reason : option string)
    (files : option (list string)).

Definition call (c : Call) (st : Ledger) : Ledger :=
  match c with
  | CallSetOriginalPath cur orig => setOriginalPath cur orig st
  | CallSkipBook item reason => skipBook item reason st
  | CallFailBook item reason files => failBook item reason files st
  end.

(** A run: the calls in order, from a given ledger. *)
Definition run (calls : list Call) (st : Ledger) : Ledger :=
  fold_left (fun st c => call c st) calls st.

(** No call of the run records an original path that the other ledger
    holds at that moment. *)
Fixpoint no_cross_call (calls : list Call) (st : Ledger) : Prop :=
  match calls with
  | [] => True
  | c :: rest =>
      match c with
      | CallSetOriginalPath _ _ => True
      | CallSkipBook item _ => originalItem st item ∉ _fails st
      | CallFailBook item _ _ => originalItem st item ∉ _skips st
      end
      /\ no_cross_call rest (call c st)
  end.

End Operations.

(** No path is in both ledgers. *)
Definition exclusive (st : Ledger) : Prop :=
  forall p : string, p ∈ _skips st -> p ∈ _fails st -> False.

(** *** The existing-output probe *)

(** A candidate output folder: whether it exists, the names of the entries
    directly in it in the order [glob] yields them, and [exists()] for a
    path given relative to it. *)
Record Folder : Type := mkFolder {
  folder_exists : bool;
  entries : list string;
  path_exists : string -> bool
}.

(** A folder holding exactly the given entries. *)
Definition flat_folder (names : list string) : Folder :=
  mkFolder true names (fun p => bool_decide (p ∈ names)).

Definition has_extension (ext name : string) : bool :=
  Text.ends_with (Text.of_string ext) (Text.of_string name).

(** [for audioFile in outputFolder.glob(f"*{ext}"): return audioFile] *)
Fixpoint first_glob (ext : string) (names : list string) : option string :=
  match names with
  | [] => None
  | name :: rest =>
      if has_extension ext name then Some name else first_glob ext rest
  end.

(** The body of the loop over the extensions, for one extension. *)
Definition probe (d : Folder) (cleanTitle : option string) (ext : string)
    : option string :=
  match cleanTitle with
  | Some t =>
      if negb (String.eqb t "") && path_exists d (t ++ ext)
      then Some (t ++ ext)%string
      else first_glob ext (entries d)
  | None => first_glob ext (entries d)
  end.

Fixpoint check_extensions (d : Folder) (cleanTitle : option string)
    (extensions : list string) : option string :=
  match extensions with
  | [] => None
  | ext :: rest =>
      match probe d cleanTitle ext with
      | Some found => Some found
      | None => check_extensions d cleanTitle rest
      end
  end.

Definition all_extensions : list string :=
  [".m4b"; ".mp3"; ".m4a"; ".flac"; ".wav"]%string.

(** [cleanTitleForPath(title) if title else None] *)
Definition clean_title (title : option string) : option string :=
  match title with
  | Some t => if String.eqb t "" then None
              else Some (PathNames.cleanTitleForPath t)
  | None => None
  end.

(** The result is the found path relative to the folder. *)
Definition checkOutputExists (outputFolder : Folder) (title : option string)
    (requireM4B : bool) : option string :=
  if negb (folder_exists outputFolder) then None
  else
    let cleanTitle := clean_title title in
    let extensions :=
      if requireM4B then [".m4b"%string] else all_extensions in
    check_extensions outputFolder cleanTitle extensions.


End BookStatus.

(** ** Util.py: the match-confidence scorer *)

Module Confidence.

(** The class [[^\w\s]]. *)
Definition is_punctuation (c : ascii) : bool :=
  negb (Text.is_word c) && negb (Text.is_space c).

(** The subtitle separators, in source order: colon-space, spaced hyphen,
    spaced en dash (the latter as its UTF-8 bytes). *)
Definition subtitle_separators : list Text.chars :=
  map Text.of_string [": "; " - "; " – "]%string.

(** [for sep in ...: if sep in text: text = text.split(sep)[0]] *)
Definition cut_subtitle (text : Text.chars) : Text.chars :=
  fold_left (fun text sep =>
               if Text.contains sep text then Text.before sep text else text)
            subtitle_separators text.

Definition normalizeForComparison (text : string) : Text.chars :=
  match Text.of_string text with
  | [] => []
  | t =>
      let t := Text.lower t in
      let t := cut_subtitle t in
      let t := Text.blank_class is_punctuation t in
      Text.strip (Text.collapse_ws t)
  end.

(** [set(norm.split())] *)
Definition words (norm : Text.chars) : gset string :=
  list_to_set (map Text.to_string (Text.split_ws norm)).

(** [norm.split()[-1] if norm else ""] *)
Definition last_word (norm : Text.chars) : Text.chars :=
  List.last (Text.split_ws norm) [].

(** [int((overlap / total) * 100)] in binary64 arithmetic; an uncomputable
    [int] (infinity or NaN) does not arise for [total > 0] and is given the
    value 0. *)
Definition percent (overlap total : nat) : Z :=
  default 0
    (PyNum.trunc
       (PrimFloat.mul
          (PrimFloat.div (PyNum.float_of_Z (Z.of_nat overlap))
                         (PyNum.float_of_Z (Z.of_nat total)))
          100%float)).

(** The word-overlap branch shared by the two scores. *)
Definition overlap_score (fileNorm audibleNorm : Text.chars) : Z :=
  let fileWords := words fileNorm in
  let audibleWords := words audibleNorm in
  if bool_decide (fileWords ≠ ∅) && bool_decide (audibleWords ≠ ∅) then
    let overlap := size (fileWords ∩ audibleWords) in
    let total := size (fileWords ∪ audibleWords) in
    if (0 <? total)%nat then percent overlap total else 0
  else 0.

Definition is_empty (l : Text.chars) : bool :=
  match l with [] => true | _ => false end.

Definition titleScore (fileTitleNorm audibleTitleNorm : Text.chars) : Z :=
  if negb (is_empty fileTitleNorm) && negb (is_empty audibleTitleNorm) then
    if Text.eqb_chars fileTitleNorm audibleTitleNorm then 100
    else if Text.contains fileTitleNorm audibleTitleNorm
            || Text.contains audibleTitleNorm fileTitleNorm then 85
    else overlap_score fileTitleNorm audibleTitleNorm
  else 0.

Definition authorScore (fileAuthorNorm audibleAuthorNorm : Text.chars) : Z :=
  if negb (is_empty fileAuthorNorm) && negb (is_empty audibleAuthorNorm) then
    if Text.eqb_chars fileAuthorNorm audibleAuthorNorm then 100
    else if Text.contains fileAuthorNorm audibleAuthorNorm
            || Text.contains audibleAuthorNorm fileAuthorNorm then 90
    else
      let fileLastName := last_word fileAuthorNorm in
      let audibleLastName := last_word audibleAuthorNorm in
      if negb (is_empty fileLastName) && negb (is_empty audibleLastName)
         && Text.eqb_chars fileLastName audibleLastName then 70
      else overlap_score fileAuthorNorm audibleAuthorNorm
  else 0.

(** The literals [0.6] and [0.4]: the binary64 values nearest to them. *)
Definition weight_title : float := 0x1.3333333333333p-1%float.
Definition weight_author : float := 0x1.999999999999ap-2%float.

(** [titleScore * 0.6 + authorScore * 0.4] in binary64 arithmetic. *)
Definition weighted (title author : Z) : float :=
  PrimFloat.add (PrimFloat.mul (PyNum.float_of_Z title) weight_title)
                (PrimFloat.mul (PyNum.float_of_Z author) weight_author).

(** [int(titleScore * 0.6 + authorScore * 0.4)] *)
Definition blend (title author : Z) : Z :=
  default 0 (PyNum.trunc (weighted title author)).

(** [round(x)] for a float: the nearest integer, ties to the even one. *)
Definition round (f : float) : option Z :=
  match Prim2SF f with
  | S754_zero _ => Some 0
  | S754_finite s m e =>
      let mag :=
        if 0 <=? e then Z.shiftl (Zpos m) e
        else
          let unit := Z.shiftl 1 (- e) in
          let q := Zpos m / unit in
          let r := Zpos m mod unit in
          if 2 * r <? unit then q
          else if unit <? 2 * r then q + 1
          else if Z.even q then q else q + 1 in
      Some (if s then - mag else mag)
  | S754_infinity _ => None
  | S754_nan => None
  end.

(** The score of normalized texts: the combined score and the two parts
    that the source formats into the details string. *)
Definition combine (fileAuthorNorm fileTitleNorm : Text.chars)
    (title author : Z) : Z :=
  if is_empty fileAuthorNorm && is_empty fileTitleNorm then 0
  else if is_empty fileAuthorNorm then title
  else if is_empty fileTitleNorm then author
  else blend title author.

Record Score : Type := mkScore {
  combinedScore : Z;
  detailTitle : Z;
  detailAuthor : Z
}.

Definition calculateMatchConfidence
    (fileAuthor fileTitle audibleAuthor audibleTitle : string) : Score :=
  let fileAuthorNorm := normalizeForComparison fileAuthor in
  let fileTitleNorm := normalizeForComparison fileTitle in
  let audibleAuthorNorm := normalizeForComparison audibleAuthor in
  let audibleTitleNorm := normalizeForComparison audibleTitle in
  let title := titleScore fileTitleNorm audibleTitleNorm in
  let author := authorScore fileAuthorNorm audibleAuthorNorm in
  mkScore (combine fileAuthorNorm fileTitleNorm title author) title author.

End Confidence.

(** ** FileMerger.py: chapter ordering and the chapter manifest *)

Module FileMerger.

(** What the code reads from a [mutagen] track object: its file name, the
    easy tags [tracknumber] and [discnumber] (a list of strings when the
    key is present) and [info.length], the duration in seconds. *)
Record Track : Type := mkTrack {
  filename : string;
  tracknumber : option (list string);
  discnumber : option (list string);
  info_length : float
}.

(** The digits of [int(s)]: decimal digits, single underscores allowed
    between two digits; [prev] tells that the previous character was a
    digit. *)
Fixpoint digits_value (acc : Z) (prev : bool) (l : Text.chars) : option Z :=
  match l with
  | [] => if prev then Some acc else None
  | c :: r =>
      if Text.is_digit c then
        digits_value (10 * acc + (Z.of_N (Text.code c) - 48)) true r
      else if Text.eqb_char c "_"%char then
        if prev then digits_value acc false r else None
      else None
  end.

(** [int(s)] for a string; [None] is the [ValueError]. *)
Definition py_int (s : Text.chars) : option Z :=
  match Text.strip s with
  | c :: r =>
      if Text.eqb_char c "-"%char then Z.opp <$> digits_value 0 false r
      else if Text.eqb_char c "+"%char then digits_value 0 false r
      else digits_value 0 false (c :: r)
  | [] => None
  end.

(** Why a tag could not be read as a number. *)
Inductive TagError : Type := KeyError | IndexError | ValueError.

(** [int(track['tracknumber'][0].split('/')[0])] *)
Definition track_number (track : Track) : TagError + Z :=
  match tracknumber track with
  | None => inl KeyError
  | Some [] => inl IndexError
  | Some (v :: _) =>
      match py_int (Text.before (Text.of_string "/") (Text.of_string v)) with
      | Some n => inr n
      | None => inl ValueError
      end
  end.

(** [int(track['discnumber'][0])] *)
Definition disc_number (track : Track) : TagError + Z :=
  match discnumber track with
  | None => inl KeyError
  | Some [] => inl IndexError
  | Some (v :: _) =>
      match py_int (Text.of_string v) with
      | Some n => inr n
      | None => inl ValueError
      end
  end.

(** The position that index [i] denotes in a list of length [len]:
    negative indices count from the end; [None] is the [IndexError]. *)
Definition py_index (len : nat) (i : Z) : option nat :=
  if (0 <=? i) && (i <? Z.of_nat len) then Some (Z.to_nat i)
  else if (- Z.of_nat len <=? i) && (i <? 0) then
    Some (Z.to_nat (Z.of_nat len + i))
  else None.

Abbreviation Chapters := (list (option Track)).

(** The single-disc loop; [None] is one of its [return []] exits (missing
    tag, unreadable number, index out of range, slot already taken). *)
Fixpoint place_single (tracks : list Track) (chapters : Chapters)
    : option Chapters :=
  match tracks with
  | [] => Some chapters
  | track :: rest =>
      match tracknumber track with
      | None => None
      | Some _ =>
          match track_number track with
          | inl _ => None
          | inr trackNumber =>
              match py_index (length chapters) trackNumber with
              | None => None
              | Some k =>
                  match chapters !! k with
                  | Some None =>
                      place_single rest (<[k := Some track]> chapters)
                  | _ => None
                  end
              end
          end
      end
  end.

(** The [for track in tracks] pass for one disc; the result carries the
    updated [tracksDone]. *)
Fixpoint place_disc (disk : Z) (offset : Z) (tracks : list Track)
    (chapters : Chapters) (tracksDone : Z) : option (Chapters * Z) :=
  match tracks with
  | [] => Some (chapters, tracksDone)
  | track :: rest =>
      match disc_number track, track_number track with
      | inr diskNumber, inr trackNumber =>
          if diskNumber =? disk then
            match py_index (length chapters) (trackNumber + offset) with
            | None => None
            | Some k =>
                place_disc disk offset rest (<[k := Some track]> chapters)
                           (tracksDone + 1)
            end
          else place_disc disk offset rest chapters tracksDone
      | _, _ => None
      end
  end.

Definition maxDisk : Z := 10.

(** [while tracksDone < len(tracks) and disk <= maxDisk], with [left] the
    number of discs not yet tried; the result carries the final [disk]. *)
Fixpoint place_discs (left : nat) (disk : Z) (tracks : list Track)
    (chapters : Chapters) (tracksDone : Z) : option (Chapters * Z) :=
  match left with
  | O => Some (chapters, disk)
  | S left' =>
      if (tracksDone <? Z.of_nat (length tracks)) && (disk <=? maxDisk) then
        match place_disc disk tracksDone tracks chapters tracksDone with
        | None => None
        | Some (chapters', tracksDone') =>
            place_discs left' (disk + 1) tracks chapters' tracksDone'
        end
      else Some (chapters, disk)
  end.

(** The two trimming steps after the loops; [None] is the [IndexError] on
    an empty list. *)
Definition trim (chapters : Chapters) : option Chapters :=
  match chapters !! 0%nat with
  | None => None
  | Some first =>
      let chapters :=
        match first with None => drop 1 chapters | Some _ => chapters end in
      match last chapters with
      | None => None
      | Some final =>
          Some (match final with
                | None => take (length chapters - 1) chapters
                | Some _ => chapters
                end)
      end
  end.

Definition orderByTrackNumber (tracks : list Track) (hasMultipleDisks : bool)
    : Chapters :=
  let chapters : Chapters := replicate (length tracks + 1) None in
  let placed :=
    if hasMultipleDisks then
      match place_discs 11 1 tracks chapters 0 with
      | Some (chapters', disk) =>
          if maxDisk <? disk then None else Some chapters'
      | None => None
      end
    else place_single tracks chapters in
  match placed with
  | None => []
  | Some chapters' => default [] (trim chapters')
  end.

(** What [mutagen.File(file, easy=True)] does for one file. *)
Inductive Read : Type :=
| ReadTrack (track : Track)
| ReadNone
| HeaderNotFoundError
| OtherError (msg : string).

(** [int(track['discnumber'][0]) != 1], where a missing or unreadable tag
    counts as a single disc; [None] is the [IndexError] of an empty tag
    list, which that [try] does not catch. *)
Definition declares_other_disc (track : Track) : option bool :=
  match disc_number track with
  | inr n => Some (negb (n =? 1))
  | inl IndexError => None
  | inl _ => Some false
  end.

(** How [orderFiles] ends: with the ordered pieces, or with the uncaught
    exception. *)
Inductive Ordered : Type :=
| Pieces (pieces : Chapters)
| Uncaught (e : TagError).

(** The reading loop of [orderFiles]: the tracks read so far (reversed) and
    the flag, or the reason to fail the folder. *)
Fixpoint read_tracks (files : list (string * Read)) (tracks : list Track)
    (hasMultipleDisks : bool)
    : (list Track * bool) + (string + TagError) :=
  match files with
  | [] => inl (rev tracks, hasMultipleDisks)
  | (file, r) :: rest =>
      match r with
      | HeaderNotFoundError => inr (inl "Corrupt or unreadable audio file"%string)
      | OtherError msg => inr (inl ("Error reading chapter file: " ++ msg)%string)
      | ReadNone => inr (inl ("Cannot read audio file: " ++ file)%string)
      | ReadTrack track =>
          match declares_other_disc track with
          | None => inr (inr IndexError)
          | Some other =>
              read_tracks rest (track :: tracks) (hasMultipleDisks || other)
          end
      end
  end.

(** *** Ordering by title *)

(** [re.findall(r'\d+', title)]: the maximal runs of digits; [cur] is the
    run being read, reversed. *)
Fixpoint digit_runs (cur : Text.chars) (l : Text.chars) : list Text.chars :=
  match l with
  | [] => match cur with [] => [] | _ => [rev cur] end
  | c :: r =>
      if Text.is_digit c then digit_runs (c :: cur) r
      else match cur with
           | [] => digit_runs [] r
           | _ => rev cur :: digit_runs [] r
           end
  end.

(** [re.findall(r'(\d+)([A-Z])?', title)]: each run of digits with the
    capital letter that follows it, if one does. *)
Fixpoint keyed_runs (cur : Text.chars) (l : Text.chars)
    : list (Text.chars * Text.chars) :=
  match l with
  | [] => match cur with [] => [] | _ => [(rev cur, [])] end
  | c :: r =>
      if Text.is_digit c then keyed_runs (c :: cur) r
      else match cur with
           | [] => keyed_runs [] r
           | _ => (rev cur, if Text.is_upper c then [c] else [])
                  :: keyed_runs [] r
           end
  end.

(** [int(run)] for a run of digits. *)
Definition run_value (run : Text.chars) : Z :=
  default 0 (digits_value 0 false run).

(** [any(word in title for word in words)] *)
Definition has_any (words : list string) (title : Text.chars) : bool :=
  existsb (fun w => Text.contains (Text.of_string w) title) words.

Definition opening_words : list string := ["INTRO"; "PROLOGUE"]%string.
Definition closing_words : list string :=
  ["OUTRO"; "EPILOGUE"; "CREDITS"]%string.

Definition findTitleNum (title : Text.chars) (whichNum : nat) : Z :=
  let title := Text.upper title in
  match digit_runs [] title !! whichNum with
  | Some run => run_value run
  | None =>
      if has_any opening_words title then 0
      else if has_any closing_words title then 999
      else -1
  end.

Definition findAlphanumericKey (title : Text.chars) (whichNum : nat)
    : option (Z * string) :=
  let title := Text.upper title in
  match keyed_runs [] title !! whichNum with
  | Some (num_str, letter) => Some (run_value num_str, Text.to_string letter)
  | None =>
      if has_any opening_words title then Some (0, ""%string)
      else if has_any closing_words title then Some (999, "ZZZ"%string)
      else None
  end.

(** The order of the tuples [(number, letter)]. *)
Definition tuple_leb (a b : Z * string) : bool :=
  (a.1 <? b.1) || ((a.1 =? b.1) && String.leb a.2 b.2).

(** The loop that fills [trackMap] for one position, the dictionary kept
    as the list of its items in insertion order; [None] is the exit with
    [allFound = False]. *)
Fixpoint alphanumeric_map (whichNum : nat) (tracks : list Track)
    (trackMap : list ((Z * string) * Track))
    : option (list ((Z * string) * Track)) :=
  match tracks with
  | [] => Some trackMap
  | track :: rest =>
      match findAlphanumericKey (PyPath.stem (filename track)) whichNum with
      | None => None
      | Some key =>
          if bool_decide (key ∈ trackMap.*1) then None
          else alphanumeric_map whichNum rest (trackMap ++ [(key, track)])
      end
  end.

(** The [while] loop of [orderByTitleAlphanumeric] over the positions
    still to try. *)
Fixpoint alphanumeric_attempts (positions : list nat) (tracks : list Track)
    : list Track :=
  match positions with
  | [] => []
  | whichNum :: later =>
      match alphanumeric_map whichNum tracks [] with
      | Some (item :: items) =>
          let ordered :=
            StableSort.sort (fun a b => tuple_leb a.1 b.1) (item :: items) in
          match ordered with
          | (first, _) :: _ =>
              if (first.1 =? 0) || (first.1 =? 1) then map snd ordered
              else alphanumeric_attempts later tracks
          | [] => alphanumeric_attempts later tracks
          end
      | _ => alphanumeric_attempts later tracks
      end
  end.

Definition positions : list nat := [0; 1; 2; 3; 4]%nat.

Definition orderByTitleAlphanumeric (tracks : list Track) : list Track :=
  alphanumeric_attempts positions tracks.

(** [trackMap[key] = track] on the list of items. *)
Fixpoint set_item (key : Z) (track : Track) (trackMap : list (Z * Track))
    : list (Z * Track) :=
  match trackMap with
  | [] => [(key, track)]
  | (k, v) :: rest =>
      if k =? key then (k, track) :: rest
      else (k, v) :: set_item key track rest
  end.

(** [trackMap] after the loop of the numeric ordering: the tracks by
    number, or the dictionary [{999: "error"}] that replaces it when a
    number repeats. *)
Inductive NumericMap : Type :=
| ErrorMap
| TrackMap (items : list (Z * Track)).

Fixpoint numeric_map (whichNum : nat) (tracks : list Track)
    (trackMap : list (Z * Track)) : NumericMap :=
  match tracks with
  | [] => TrackMap trackMap
  | track :: rest =>
      let key := findTitleNum (PyPath.stem (filename track)) whichNum in
      if bool_decide (key ∈ trackMap.*1) && negb (key =? -1) then ErrorMap
      else numeric_map whichNum rest (set_item key track trackMap)
  end.

(** How the numeric loop ends: with an order, with the exit to the
    alphabetical sort ([break], or no position left), or with the
    [IndexError] of [ordered[0]] on an empty list. *)
Inductive Numeric : Type :=
| NumericOrder (tracksOut : list Track)
| NumericGiveUp
| NumericIndexError.

Fixpoint numeric_attempts (positions : list nat) (tracks : list Track)
    : Numeric :=
  match positions with
  | [] => NumericGiveUp
  | whichNum :: later =>
      match numeric_map whichNum tracks [] with
      | ErrorMap => numeric_attempts later tracks
      | TrackMap items =>
          let ordered := StableSort.sort (fun a b => a.1 <=? b.1) items in
          if bool_decide (-1 ∈ items.*1) then NumericGiveUp
          else match ordered with
               | [] => NumericIndexError
               | (first, _) :: _ =>
                   if (first =? 0) || (first =? 1) then
                     NumericOrder (map snd ordered)
                   else numeric_attempts later tracks
               end
      end
  end.

(** [Path(t.filename).name.lower()] *)
Definition name_key (t : Track) : string :=
  Text.to_string (Text.lower (PyPath.name (filename t))).

(** [sorted(tracks, key=lambda t: Path(t.filename).name.lower())] *)
Definition alphabetical (tracks : list Track) : list Track :=
  StableSort.sort (fun a b => String.leb (name_key a) (name_key b)) tracks.

(** [None] is the uncaught [IndexError]. *)
Definition orderByTitle (tracks : list Track) : option (list Track) :=
  match orderByTitleAlphanumeric tracks with
  | (_ :: _) as result => Some result
  | [] =>
      match numeric_attempts positions tracks with
      | NumericOrder tracksOut => Some tracksOut
      | NumericGiveUp => Some (alphabetical tracks)
      | NumericIndexError => None
      end
  end.

Section OrderFiles.

(** [Path.resolve] and the move setting, for the ledger. *)
Variable resolve : string -> string.
Variable move : bool.

Definition orderFiles (files : list (string * Read)) (folderPath : string)
    (st : BookStatus.Ledger) : Ordered * BookStatus.Ledger :=
  match read_tracks files [] false with
  | inr (inl reason) =>
      (Pieces [],
       BookStatus.failBook resolve move folderPath (Some reason) None st)
  | inr (inr e) => (Uncaught e, st)
  | inl (tracks, hasMultipleDisks) =>
      match orderByTrackNumber tracks hasMultipleDisks with
      | (_ :: _) as pieces => (Pieces pieces, st)
      | [] =>
          match orderByTitle tracks with
          | None => (Uncaught IndexError, st)
          | Some [] =>
              (Pieces [],
               BookStatus.failBook resolve move folderPath
                 (Some "Failed to order files"%string)
                 (Some (map fst files)) st)
          | Some pieces => (Pieces (map Some pieces), st)
          end
      end
  end.

End OrderFiles.

(** *** The chapter manifest *)

(** One [write] on the chapter-metadata file; each line is written with
    its newline, the title line with two. *)
Inductive Write : Type :=
| Header                       (* ;FFMETADATA1 *)
| ChapterTag                   (* [CHAPTER] *)
| Timebase                     (* TIMEBASE=1/1000 *)
| Start (runningTime : PyNum.t)   (* START={runningTime} *)
| End_ (runningTime : PyNum.t)    (* END={runningTime} *)
| Title (chapCount : Z).       (* title=Chapter {chapCount} *)

(** [p.filename.replace("'", "'\\''")] *)
Fixpoint escape_apostrophes (l : Text.chars) : Text.chars :=
  match l with
  | [] => []
  | c :: r =>
      if Text.eqb_char c "'"%char
      then Text.of_string "'\''" ++ escape_apostrophes r
      else c :: escape_apostrophes r
  end.

(** The line written to the concatenation file for one piece. *)
Definition concat_line (p : Track) : string :=
  ("file '"
   ++ Text.to_string (escape_apostrophes (Text.of_string (filename p)))
   ++ "'")%string.

(** [runningTime += p.info.length * 1000] *)
Definition advance (runningTime : PyNum.t) (p : Track) : PyNum.t :=
  PyNum.add runningTime
            (PyNum.mul (PyNum.PFloat (info_length p)) (PyNum.PInt 1000)).

(** The loop over the pieces: the lines of the concatenation file and the
    writes on the chapter file. *)
Fixpoint write_pieces (pieces : Chapters) (runningTime : PyNum.t)
    (chapCount : Z) : list string * list Write :=
  match pieces with
  | [] => ([], [])
  | None :: rest => write_pieces rest runningTime chapCount
  | Some p :: rest =>
      let finish := advance runningTime p in
      let '(files, writes) := write_pieces rest finish (chapCount + 1) in
      (concat_line p :: files,
       [ChapterTag; Timebase; Start runningTime; End_ finish; Title chapCount]
       ++ writes)
  end.

(** The contents of the two temporary files. *)
Definition createTempFiles (pieces : Chapters) : list string * list Write :=
  let '(files, writes) := write_pieces pieces (PyNum.PInt 0) 1 in
  (files, Header :: writes).

(** The running time before chapter [k] (counted from 0) of a list of
    tracks: 0, then the durations added up in order. *)
Definition offset (tracks : list Track) (k : nat) : PyNum.t :=
  fold_left advance (take k tracks) (PyNum.PInt 0).

(** The block of chapter [k] (counted from 0). *)
Definition block (tracks : list Track) (k : nat) : list Write :=
  [ChapterTag; Timebase; Start (offset tracks k); End_ (offset tracks (S k));
   Title (Z.of_nat k + 1)].

End FileMerger.

(** ** Util.py: the audio files of a folder *)

Module AudioFiles.

(** A folder as the two iterations see it: the paths directly in it
    ([glob]) and the paths anywhere below it ([rglob]), in the order the
    file system yields them. *)
Record Tree : Type := mkTree {
  children : list string;
  descendants : list string
}.

(** The four patterns, on the name of a path. *)
Definition is_m4 (n : Text.chars) : bool := Text.contains (Text.of_string ".m4") n.
Definition is_mp (n : Text.chars) : bool := Text.contains (Text.of_string ".mp") n.
Definition is_flac (n : Text.chars) : bool := Text.ends_with (Text.of_string ".flac") n.
Definition is_wav (n : Text.chars) : bool := Text.ends_with (Text.of_string ".wav") n.

(** [list(folderPath.glob(pattern))] or [list(folderPath.rglob(pattern))] *)
Definition glob (recurse : bool) (t : Tree) (pattern : Text.chars -> bool)
    : list string :=
  List.filter (fun p => pattern (PyPath.name p))
              (if recurse then descendants t else children t).

(** The list after the four [extend] calls. *)
Definition candidates (recurse : bool) (t : Tree) : list string :=
  glob recurse t is_m4 ++ glob recurse t is_mp
  ++ glob recurse t is_flac ++ glob recurse t is_wav.

(** [str(f).lower()] *)
Definition key (f : string) : string :=
  Text.to_string (Text.lower (Text.of_string f)).

Definition key_leb (a b : string) : bool := String.leb (key a) (key b).

(** [files.sort(key=lambda f: str(f).lower())] *)
Definition sort_by_key (l : list string) : list string :=
  StableSort.sort key_leb l.

(** [files[offset:]] under the guard [offset > 0] *)
Definition skip (offset : Z) (files : list string) : list string :=
  if 0 <? offset then drop (Z.to_nat offset) files else files.

(** [files[:batch]]; a negative bound counts from the end. *)
Definition slice_to (batch : Z) (files : list string) : list string :=
  if 0 <=? batch then take (Z.to_nat batch) files
  else take (Z.to_nat (Z.of_nat (length files) + batch)) files.

(** The value returned: the integer -1 or a list. *)
Inductive Result : Type :=
| MinusOne
| Files (files : list string).

Definition getAudioFiles (t : Tree) (batch : Z) (recurse : bool) (offset : Z)
    : Result :=
  let files := sort_by_key (candidates recurse t) in
  if (length files =? 0)%nat then MinusOne
  else
    let files := skip offset files in
    if (batch =? -1) || (Z.of_nat (length files) <=? batch)
    then Files files
    else Files (slice_to batch files).


End AudioFiles.

(** ** Util.py: the URL cache *)

Module Cache.

(** An entry of [_url_cache]: a dictionary read with
    [entry.get('content')] and [entry.get('time', 0)]. *)
Record Entry : Type := mkEntry {
  content : option string;
  time : option float
}.

(** [_cache_ttl = 3600 * 24] *)
Definition _cache_ttl : float := 86400%float.

(** [_get_cached(url)] when [time.time()] is [now]. *)
Definition _get_cached (cache : gmap string Entry) (now : float)
    (url : string) : option string :=
  match cache !! url with
  | Some entry =>
      if PrimFloat.ltb (PrimFloat.sub now (default 0%float (time entry)))
                       _cache_ttl
      then content entry
      else None
  | None => None
  end.

(** [_set_cached(url, content)] when [time.time()] is [now]. *)
Definition _set_cached (cache : gmap string Entry) (now : float)
    (url content : string) : gmap string Entry :=
  <[url := mkEntry (Some content) (Some now)]> cache.

(** [GETpage(url, use_cache)] on the cache: [looked] and [stored] are the
    clock readings of the lookup and of the store.  The result is [None]
    while the retry loop is still running. *)
Definition GETpage (fuel : nat) (net : GET.Network)
    (cache : gmap string Entry) (looked stored : float) (url : string)
    (use_cache : bool)
    : option (option GET.Response * gmap string Entry) :=
  match GET.GETpage fuel net (_get_cached cache looked url) use_cache with
  | None => None
  | Some (result, Some body) => Some (result, _set_cached cache stored url body)
  | Some (result, None) => Some (result, cache)
  end.

End Cache.

(** ** BookStatus.py: the registries *)

Module Registry.

Section Registry.

Variable resolve : string -> string.

(** [getOriginalPath(currentPath)] *)
Definition getOriginalPath (currentPath : string) (st : BookStatus.Ledger)
    : option string :=
  BookStatus._originalPaths st !! resolve currentPath.

(** [setMergedFromChapters(filePath)] on the set [_mergedFromChapters]. *)
Definition setMergedFromChapters (filePath : string) (merged : gset string)
    : gset string :=
  {[resolve filePath]} ∪ merged.

(** [isMergedFromChapters(filePath)] *)
Definition isMergedFromChapters (filePath : string) (merged : gset string)
    : bool :=
  bool_decide (resolve filePath ∈ merged).

End Registry.

(** The action moves an item. *)
Definition is_move (a : BookStatus.Action) : bool :=
  match a with
  | BookStatus.MoveItem _ _ => true
  | _ => false
  end.

End Registry.

(** ** Util.py and BookStatus.py: names that are not taken *)

Module UniquePath.

(** [Path(p).suffix]: the last suffix of the name, period included; a
    period that opens or closes the name starts no suffix. *)
Definition suffix (p : string) : Text.chars :=
  let n := PyPath.name p in
  match PyPath.rfind_dot 0 n with
  | Some i => if (0 <? i)%nat && (i <? length n - 1)%nat then drop i n else []
  | None => []
  end.

(** [str(counter)] for a counter that is never negative. *)
Definition str (counter : nat) : Text.chars :=
  Text.of_string (NilZero.string_of_uint (Nat.to_uint counter)).

(** [stem + " - " + str(counter) + suffix] *)
Definition numbered (stem : Text.chars) (counter : nat) (suffix : Text.chars)
    : string :=
  Text.to_string (stem ++ Text.of_string " - " ++ str counter ++ suffix).

Section Loop.

(** The file system as the loops see it: whether a path exists, whether it
    is a directory, and the path that [/] builds from a directory and a
    name. *)
Variable exists_ : string -> bool.
Variable is_dir : string -> bool.
Variable join : string -> string -> string.

(** [while exists(currPath): currPath = numbered(counter); counter += 1],
    for at most [fuel] tests; [None] when the loop is still running. *)
Fixpoint free_path (fuel : nat) (numbered : nat -> string) (counter : nat)
    (currPath : string) : option string :=
  match fuel with
  | O => None
  | S fuel' =>
      if exists_ currPath
      then free_path fuel' numbered (S counter) (numbered counter)
      else Some currPath
  end.

Definition getUniquePath (fuel : nat) (fileName outpath : string)
    : option string :=
  let type := suffix fileName in
  free_path fuel
    (fun counter =>
       join outpath (numbered (PyPath.stem fileName) counter type))
    1%nat (join outpath fileName).

(** What [_moveItem] does. *)
Inductive Move : Type :=
| NoLongerExists
| MoveTo (dest : string).

(** [_moveItem(item, destDir)] up to the move itself: the destination
    chosen; [None] when the loop is still running. *)
Definition _moveItem (fuel : nat) (item destDir : string) : option Move :=
  if negb (exists_ item) then Some NoLongerExists
  else
    let name := Text.to_string (PyPath.name item) in
    MoveTo <$>
      free_path fuel
        (fun counter =>
           if is_dir item
           then join destDir (numbered (PyPath.name item) counter [])
           else join destDir
                  (numbered (PyPath.stem item) counter (suffix item)))
        1%nat (join destDir name).

End Loop.

End UniquePath.

(** ** BookStatus.py: the fail marker *)

Module FailMarker.

Definition FAIL_MARKER_FILE : string := ".fail".

Definition LF : ascii := "010"%char.
Definition CR : ascii := "013"%char.

Definition is_LF (c : ascii) : bool := Text.eqb_char c LF.
Definition is_CR (c : ascii) : bool := Text.eqb_char c CR.

(** [f.write(text + "\n")] *)
Definition line (text : Text.chars) : Text.chars := text ++ [LF].

(** [if reason:] *)
Definition stated (reason : option string) : option Text.chars :=
  match reason with
  | Some r => match Text.of_string r with [] => None | t => Some t end
  | None => None
  end.

(** What [_createFailMarker] writes, when [datetime.now().strftime(...)]
    is [stamp]. *)
Definition marker_text (reason : option string)
    (files : option (list string)) (stamp : string) : Text.chars :=
  line (Text.of_string "ULTIMATE AUDIOBOOKS - MANUAL REVIEW REQUIRED")
  ++ line (repeat "="%char 44) ++ line []
  ++ match stated reason with
     | Some r => line (Text.of_string "Reason: " ++ r) ++ line []
     | None => []
     end
  ++ match files with
     | Some ((_ :: _) as found) =>
         line (Text.of_string "Found files:")
         ++ concat (map (fun file =>
                           line (Text.of_string "  - " ++ PyPath.name file))
                        found)
         ++ line []
     | _ => []
     end
  ++ line (Text.of_string "Suggested fix:")
  ++ line (Text.of_string "  - Review the files in this folder")
  ++ line (Text.of_string
             "  - Fix any issues (remove duplicates, rename files, etc.)")
  ++ line (Text.of_string "  - Delete this .fail file to retry processing")
  ++ line []
  ++ line (Text.of_string "Detected: " ++ Text.of_string stamp).

(** Reading in text mode: a carriage return, alone or before a line feed,
    is read as one line feed. *)
Fixpoint universal_newlines (l : Text.chars) : Text.chars :=
  match l with
  | [] => []
  | c :: r =>
      if is_CR c then
        LF :: match r with
              | d :: r' =>
                  if is_LF d then universal_newlines r'
                  else universal_newlines r
              | [] => []
              end
      else c :: universal_newlines r
  end.

(** [for line in f]: the lines with their line feeds; [cur] is the line
    being read, reversed. *)
Fixpoint lines_from (cur : Text.chars) (l : Text.chars) : list Text.chars :=
  match l with
  | [] => match cur with [] => [] | _ => [rev cur] end
  | c :: r =>
      if is_LF c then rev (c :: cur) :: lines_from [] r
      else lines_from (c :: cur) r
  end.

(** The loop of [getFailMarkerReason] over the lines. *)
Fixpoint first_reason (lines : list Text.chars) : option Text.chars :=
  match lines with
  | [] => None
  | l :: rest =>
      if Text.starts_with (Text.of_string "Reason:") l
      then Some (Text.strip (drop 7 l))
      else first_reason rest
  end.

Section Disk.

(** The file system: the directories, the parent of a path, the path that
    [/] builds, and whether a path can be opened for writing. *)
Variable is_dir : string -> bool.
Variable parent : string -> string.
Variable join : string -> string -> string.
Variable writable : string -> bool.

(** The text files, by path. *)
Definition Disk : Type := gmap string Text.chars.

Definition exists_ (disk : Disk) (p : string) : bool :=
  bool_decide (is_Some (disk !! p)) || is_dir p.

Definition markerPath (folderPath : string) : string :=
  join (if is_dir folderPath then folderPath else parent folderPath)
       FAIL_MARKER_FILE.

(** [_createFailMarker]: an exception of [open] is logged and the file
    system is left as it is. *)
Definition _createFailMarker (disk : Disk) (folderPath : string)
    (reason : option string) (files : option (list string))
    (stamp : string) : Disk :=
  if writable (markerPath folderPath)
  then <[markerPath folderPath := marker_text reason files stamp]> disk
  else disk.

Definition hasFailMarker (disk : Disk) (folderPath : string) : bool :=
  exists_ disk (markerPath folderPath).

Definition unknown : string := "Unknown (fail marker exists)".

(** [getFailMarkerReason]: [None] is Python's [None]. *)
Definition getFailMarkerReason (disk : Disk) (folderPath : string)
    : option string :=
  if negb (exists_ disk (markerPath folderPath)) then None
  else
    match disk !! markerPath folderPath with
    | Some text =>
        match first_reason (lines_from [] (universal_newlines text)) with
        | Some r => Some (Text.to_string r)
        | None => Some unknown
        end
    | None => Some unknown
    end.

End Disk.

End FailMarker.

(** ** Settings.py: the construction of the settings *)

Module SettingsInit.

(** The parsed arguments that [__init__] reads; the other attributes are
    copied as they are. *)
Record Args : Type := mkArgs {
  input : string;
  output : option string;
  inPlace : bool;
  quick : bool;
  save : bool
}.

(** The attributes after [__init__]. *)
Record Built : Type := mkBuilt {
  built_input : string;
  built_output : string;
  built_inPlace : bool
}.

(** How [__init__] ends: with the settings, with [sys.exit] (its argument,
    if any), or with the [EOFError] of [input] when the answers run out. *)
Inductive Outcome : Type :=
| Constructed (s : Built)
| SystemExit (code : option Z)
| EOFError.

(** The class of [inputSpecials]: [<], [>], the double quote, [|], [?],
    [*] and the codes 0 to 31. *)
Definition inputSpecials (c : ascii) : bool :=
  let n := Text.code c in
  ((n =? 60) || (n =? 62) || (n =? 34) || (n =? 124) || (n =? 63)
   || (n =? 42) || (n <=? 31))%N.

(** The class of [outputSpecials]: the same with the comma. *)
Definition outputSpecials (c : ascii) : bool :=
  let n := Text.code c in
  ((n =? 60) || (n =? 44) || (n =? 62) || (n =? 34) || (n =? 124)
   || (n =? 63) || (n =? 42) || (n <=? 31))%N.

(** [s.split(os.sep)] for the separator [/]: the pieces between
    separators, empty ones included; [cur] is the piece being read,
    reversed. *)
Fixpoint split_sep (cur : Text.chars) (l : Text.chars) : list Text.chars :=
  match l with
  | [] => [rev cur]
  | c :: r =>
      if Text.eqb_char c "/"%char then rev cur :: split_sep [] r
      else split_sep (c :: cur) r
  end.

(** [pattern.search(folder)] for a pattern that is one character class. *)
Definition search (cls : ascii -> bool) (folder : Text.chars) : bool :=
  existsb cls folder.

(** [checkFolders]: [Some 1] is [sys.exit(1)]. *)
Definition checkFolders (input output : string) : option Z :=
  let inDirs := split_sep [] (Text.of_string input) in
  let outDirs := split_sep [] (Text.of_string output) in
  if existsb (search inputSpecials) inDirs then Some 1
  else if existsb (search outputSpecials) outDirs then Some 1
  else None.

(** The loop of [confirm] over the answers typed: [Some true] is the
    [break], [Some false] the bare [sys.exit()], [None] the end of the
    answers. *)
Fixpoint confirm (answers : list string) : option bool :=
  match answers with
  | [] => None
  | answer :: later =>
      let userInput := Text.lower (Text.of_string answer) in
      if Text.eqb_chars userInput (Text.of_string "y") then Some true
      else if Text.eqb_chars userInput (Text.of_string "n") then Some false
      else confirm later
  end.

Section Init.

(** [Path.resolve], [Path.parent] and [/], on the strings of paths. *)
Variable resolve : string -> string.
Variable parent : string -> string.
Variable join : string -> string -> string.

(** [self.output] after the in-place and the default steps. *)
Definition settled_output (args : Args) : string :=
  if inPlace args then input args
  else match output args with
       | Some (String c o) => String c o
       | _ => join (parent (input args)) "Ultimate Output"
       end.

(** [__init__(args)], when the user types [answers].  Writing the save
    file, which comes first, changes no attribute. *)
Definition init (args : Args) (answers : list string) : Outcome :=
  let output := settled_output args in
  let inPlace :=
    if bool_decide (resolve output = resolve (input args)) then true
    else inPlace args in
  match (if quick args then Some true else confirm answers) with
  | None => EOFError
  | Some false => SystemExit None
  | Some true =>
      match checkFolders (input args) output with
      | Some code => SystemExit (Some code)
      | None => Constructed (mkBuilt (input args) output inPlace)
      end
  end.

End Init.

End SettingsInit.

(** ** Processing.py and FileMerger.py: duplicate versions *)

Module Versions.

Import Regex.

(** A file as [selectBestVersion] reads it: its path and
    [stat().st_size], [None] when [stat] raises. *)
Record File : Type := mkFile {
  path : string;
  st_size : option Z
}.

(** [f.suffix.lower() == ext] *)
Definition has_suffix (ext : string) (p : string) : bool :=
  Text.eqb_chars (Text.lower (UniquePath.suffix p)) (Text.of_string ext).

(** [priority.get(f.suffix.lower(), 99)] *)
Definition ext_priority (p : string) : Z :=
  if has_suffix ".m4b" p then 1
  else if has_suffix ".m4a" p then 2
  else if has_suffix ".flac" p then 3
  else if has_suffix ".wav" p then 4
  else if has_suffix ".mp3" p then 5
  else 99.

Definition size (f : File) : Z := default 0 (st_size f).

(** [sort_key(f)]: the tuple [(ext_priority, -size)]. *)
Definition sort_key (f : File) : Z * Z := (ext_priority (path f), - size f).

(** The order of the tuples. *)
Definition key_leb (a b : Z * Z) : bool :=
  (a.1 <? b.1) || ((a.1 =? b.1) && (a.2 <=? b.2)).

(** [sorted(files, key=sort_key)[0]]; [None] is the [IndexError]. *)
Definition selectBestVersion (files : list File) : option File :=
  head (StableSort.sort (fun a b => key_leb (sort_key a) (sort_key b)) files).

(** [re.search(r, s)]: some text that starts somewhere in [s] is in the
    language. *)
Fixpoint search (r : Regex.t) (l : Text.chars) : bool :=
  at_start r l
  || match l with
     | [] => false
     | _ :: l' => search r l'
     end.

Definition digit : Regex.t := Cls Text.is_digit.

(** [\(\d+\s*of\s*\d+\)] *)
Definition n_of_m_pattern : Regex.t :=
  cat (chr "("%char)
      (cat (Plus digit)
           (cat (Star space)
                (cat (word_ci "of")
                     (cat (Star space) (cat (Plus digit) (chr ")"%char)))))).

(** [-Part\d+] *)
Definition part_suffix_pattern : Regex.t :=
  cat (chr "-"%char) (cat (word_ci "Part") (Plus digit)).

(** [\sPart\s*\d+] *)
Definition part_word_pattern : Regex.t :=
  cat space (cat (word_ci "Part") (cat (Star space) (Plus digit))).

(** [\d+\s*-\s*] *)
Definition dash_pattern : Regex.t :=
  cat (Plus digit) (cat (Star space) (cat (chr "-"%char) (Star space))).

(** [^\d+\s] *)
Definition numbered_pattern : Regex.t := cat (Plus digit) space.

Inductive Pattern : Type :=
| n_of_m
| part_suffix
| part_word
| dash_separator
| numbered_prefix
| other.

#[global] Instance Pattern_eq_dec : EqDecision Pattern.
Proof. solve_decision. Defined.

(** The [pattern_key] of a stem. *)
Definition pattern_key (name : Text.chars) : Pattern :=
  if search n_of_m_pattern name then n_of_m
  else if search part_suffix_pattern name then part_suffix
  else if search part_word_pattern name then part_word
  else if Text.contains (Text.of_string " - ") name
          && search dash_pattern name then dash_separator
  else if at_start numbered_pattern name then numbered_prefix
  else other.

Definition pattern_of (f : string) : Pattern := pattern_key (PyPath.stem f).

(** [patterns[pattern_key].append(f)], the dictionary kept as the list of
    its items in insertion order. *)
Fixpoint add_to (k : Pattern) (f : string)
    (patterns : list (Pattern * list string)) : list (Pattern * list string) :=
  match patterns with
  | [] => [(k, [f])]
  | (k', fs) :: rest =>
      if decide (k' = k) then (k', fs ++ [f]) :: rest
      else (k', fs) :: add_to k f rest
  end.

Definition group (files : list string) : list (Pattern * list string) :=
  fold_left (fun patterns f => add_to (pattern_of f) f patterns) files [].

(** [max(patterns.keys(), key=lambda k: len(patterns[k]))]: the first item
    that no other one exceeds, from the item [cur] on. *)
Definition most_files (cur : Pattern * list string)
    (rest : list (Pattern * list string)) : Pattern * list string :=
  fold_left (fun cur kv => if (length cur.2 <? length kv.2)%nat then kv else cur)
            rest cur.

Inductive Selected : Type :=
| single_m4b
| single_m4a
| most_chapters (best_pattern : Pattern).

(** The entries of the info dictionary that the selection fixes. *)
Record Info : Type := mkInfo {
  selected : Selected;
  skipped_count : nat
}.

(** [[f for f in files if f not in chosen]] *)
Definition not_in (chosen files : list string) : list string :=
  List.filter (fun f => negb (bool_decide (f ∈ chosen))) files.

Definition detectDuplicateVersions (files : list string)
    : list string * option Info :=
  if (length files <=? 1)%nat then (files, None)
  else
    match group files with
    | [] | [_] => (files, None)
    | first :: later =>
        let m4b_files := List.filter (has_suffix ".m4b") files in
        if (length m4b_files =? 1)%nat then
          (m4b_files,
           Some (mkInfo single_m4b (length (not_in m4b_files files))))
        else
          let m4a_files := List.filter (has_suffix ".m4a") files in
          if (length m4a_files =? 1)%nat then
            (m4a_files,
             Some (mkInfo single_m4a (length (not_in m4a_files files))))
          else
            let (best_pattern, best_files) := most_files first later in
            (best_files,
             Some (mkInfo (most_chapters best_pattern)
                          (length (not_in best_files files))))
    end.

End Versions.

(** ** Util.py: author separators *)

Module Separators.

Definition is_comma (c : ascii) : bool := Text.eqb_char c ","%char.
Definition is_semicolon (c : ascii) : bool := Text.eqb_char c ";"%char.

(** [value.replace(', ', '; ')] *)
Fixpoint replace_comma_space (l : Text.chars) : Text.chars :=
  match l with
  | [] => []
  | c :: r =>
      if is_comma c then
        match r with
        | d :: r' =>
            if Text.eqb_char d " "%char
            then ";"%char :: " "%char :: replace_comma_space r'
            else c :: replace_comma_space r
        | [] => [c]
        end
      else c :: replace_comma_space r
  end.

(** [value.replace(',', '; ')] *)
Fixpoint replace_comma (l : Text.chars) : Text.chars :=
  match l with
  | [] => []
  | c :: r =>
      if is_comma c then ";"%char :: " "%char :: replace_comma r
      else c :: replace_comma r
  end.

(** [',' in value and ';' not in value] *)
Definition needs_fix (value : Text.chars) : bool :=
  existsb is_comma value && negb (existsb is_semicolon value).

Definition new_value (value : Text.chars) : Text.chars :=
  replace_comma (replace_comma_space value).

(** [value[0] if value else ''], for the list that a tag holds. *)
Definition first_value (value : list string) : Text.chars :=
  match value with
  | v :: _ => Text.of_string v
  | [] => []
  end.

(** A track: its tags, each a list of texts. *)
Abbreviation Track := (gmap string (list string)).

(** The body of [for tag in ...] on the track and the [modified] flag;
    the tag is left holding the one new value. *)
Definition fix_tag (st : Track * bool) (tag : string) : Track * bool :=
  match st.1 !! tag with
  | Some value =>
      let value := first_value value in
      if needs_fix value
      then (<[tag := [Text.to_string (new_value value)]]> st.1, true)
      else st
  | None => st
  end.

(** The loop over the tags of one file, from [modified = False]. *)
Definition fix_track (tags : list string) (track : Track) : Track * bool :=
  fold_left fix_tag tags (track, false).

(** The tags of the MP3 branch. *)
Definition mp3_tags : list string := ["artist"; "albumartist"; "composer"].

End Separators.

(** ** Processing.py: the conversion queue *)

Module Conversions.

(** A [Conversion], with the fields that the queue functions read:
    [file.name] and [md.bookPath]. *)
Record Conversion : Type := mkConversion {
  file_name : string;
  bookPath : string
}.

(** [isConversionQueued(bookPath)] on the list [conversions]. *)
Fixpoint isConversionQueued (conversions : list Conversion)
    (path : string) : option string :=
  match conversions with
  | [] => None
  | c :: rest =>
      if String.eqb (bookPath c) path then Some (file_name c)
      else isConversionQueued rest path
  end.

(** The global list [conversions] and the calls
    [controller.submit(processConversion, c, settings)] made so far. *)
Record Queue : Type := mkQueue {
  conversions : list Conversion;
  submitted : list Conversion
}.

(** What a run does to the queue: [conversions.append(c)] in the
    processing of a file, and [processConversions()]. *)
Inductive Step : Type :=
| Append (c : Conversion)
| ProcessConversions.

(** [processConversions()]: one [submit] per element of [conversions]. *)
Definition processConversions (q : Queue) : Queue :=
  mkQueue (conversions q) (submitted q ++ conversions q).

Definition step (q : Queue) (s : Step) : Queue :=
  match s with
  | Append c => mkQueue (conversions q ++ [c]) (submitted q)
  | ProcessConversions => processConversions q
  end.

Definition run (steps : list Step) (q : Queue) : Queue :=
  fold_left step steps q.

End Conversions.

(** ** Processing.py: duplicate single files *)

Module SingleFiles.

Import Regex.

(** What [mutagen.File(file, easy=True)] gives for the grouping: nothing
    or an exception, or a track with the texts that [getAuthor] and
    [getTitle] return for it. *)
Inductive Read : Type :=
| Unreadable
| Meta (author title : string).

Record Entry : Type := mkEntry {
  file : Versions.File;
  read : Read
}.

(** [text or "Unknown"] *)
Definition or_unknown (text : string) : Text.chars :=
  match Text.of_string text with
  | [] => Text.of_string "Unknown"
  | t => t
  end.

(** The key of a track: author, a bar and title, in lower case. *)
Definition key (author title : string) : string :=
  Text.to_string
    (Text.lower (or_unknown author ++ Text.of_string "|" ++ or_unknown title)).

(** The dictionary [groups], as the list of its items in insertion order. *)
Abbreviation Groups := (list (string * list Versions.File)).

(** [groups[k] = v] *)
Fixpoint set_group (k : string) (v : list Versions.File) (groups : Groups)
    : Groups :=
  match groups with
  | [] => [(k, v)]
  | (k', v') :: rest =>
      if String.eqb k' k then (k', v) :: rest
      else (k', v') :: set_group k v rest
  end.

(** [if key not in groups: groups[key] = []] and
    [groups[key].append(file)] *)
Fixpoint append_group (k : string) (f : Versions.File) (groups : Groups)
    : Groups :=
  match groups with
  | [] => [(k, [f])]
  | (k', v') :: rest =>
      if String.eqb k' k then (k', v' ++ [f]) :: rest
      else (k', v') :: append_group k f rest
  end.

(** The body of the grouping loop. *)
Definition group_step (groups : Groups) (e : Entry) : Groups :=
  match read e with
  | Unreadable => set_group (Versions.path (file e)) [file e] groups
  | Meta author title => append_group (key author title) (file e) groups
  end.

(** The stem starts like a numbered chapter: digits and one of [-], [_]
    or whitespace, or one of the words track, chapter, part and digits. *)
Definition chapter_pattern : Regex.t :=
  any_of
    [ cat (Plus Versions.digit)
          (Cls (fun c => Text.eqb_char c "-"%char || Text.eqb_char c "_"%char
                         || Text.is_space c));
      cat (word_ci "track") (cat (Star space) (Plus Versions.digit));
      cat (word_ci "chapter") (cat (Star space) (Plus Versions.digit));
      cat (word_ci "part") (cat (Star space) (Plus Versions.digit)) ].

Definition looks_numbered (f : Versions.File) : bool :=
  at_start chapter_pattern (PyPath.stem (Versions.path f)).

(** The body of the selection loop: what one group adds to [result];
    [None] is the [IndexError] of [selectBestVersion]. *)
Definition select (group_files : list Versions.File)
    : option (list Versions.File) :=
  match group_files with
  | [f] => Some [f]
  | _ =>
      let numbered_files := List.filter looks_numbered group_files in
      if PyNum.geb
           (PyNum.PInt (Z.of_nat (length numbered_files)))
           (PyNum.mul (PyNum.PInt (Z.of_nat (length group_files)))
                      (PyNum.PFloat Confidence.weight_title))
      then Some group_files
      else (fun selected => [selected])
             <$> Versions.selectBestVersion group_files
  end.

(** The selection loop over the groups. *)
Fixpoint select_all (groups : Groups) : option (list Versions.File) :=
  match groups with
  | [] => Some []
  | (_, group_files) :: rest =>
      match select group_files, select_all rest with
      | Some chosen, Some later => Some (chosen ++ later)
      | _, _ => None
      end
  end.

Definition detectDuplicateSingleFiles (files : list Entry)
    : option (list Versions.File) :=
  if (length files <=? 1)%nat then Some (map file files)
  else select_all (fold_left group_step files []).

End SingleFiles.

(** ** Vocabulary of the statements *)

(** A text [a] is carved out of [b]: it is no longer, and as long only when
    it is [b] itself. *)
Definition carved (a b : Text.chars) : Prop :=
  (length a <= length b)%nat /\ (length a = length b -> a = b).

(** A staged copy is skipped under its original path and another book
    fails. *)
Definition C4_sample_calls : list BookStatus.Call :=
  [ BookStatus.CallSetOriginalPath "/out/Ultimate temp/a.mp3" "/in/a.mp3";
    BookStatus.CallSkipBook "/out/Ultimate temp/a.mp3" None;
    BookStatus.CallFailBook "/in/b" (Some "Failed to order files") None ]%string.



(** The blend of two scores lies in [0, 100], is the exact floor of the
    weighted sum or one less, and is the truncation of a finite float. *)
Definition blend_ok (t a : nat) : bool :=
  let b := Confidence.blend (Z.of_nat t) (Z.of_nat a) in
  let exact := (6 * Z.of_nat t + 4 * Z.of_nat a) / 10 in
  (0 <=? b) && (b <=? 100) && (exact - 1 <=? b) && (b <=? exact)
  && match PyNum.trunc (Confidence.weighted (Z.of_nat t) (Z.of_nat a)) with
     | Some z => z =? b
     | None => false
     end.


(** A table of rows [first .. first + rows - 1], row [i] having the columns
    [0 .. width i - 1]. *)
Definition table_ok (f : nat -> nat -> bool) (width : nat -> nat)
    (first rows : nat) : bool :=
  forallb (fun i => forallb (f i) (seq 0 (width i))) (seq first rows).


(** The slot that track number [n] denotes already holds a track. *)
Definition occupied (chapters : FileMerger.Chapters) (n : Z) : Prop :=
  exists k t,
    FileMerger.py_index (length chapters) n = Some k
    /\ chapters !! k = Some (Some t).

(** Two files, both tagged track number 1, with no disc tag. *)
Definition C9_sample_files : list (string * FileMerger.Read) :=
  [ ("Beta.mp3", FileMerger.ReadTrack
       (FileMerger.mkTrack "Beta.mp3" (Some ["1"]) None 60%float));
    ("Alpha.mp3", FileMerger.ReadTrack
       (FileMerger.mkTrack "Alpha.mp3" (Some ["1/2"]) None 30%float)) ]%string.

(** The writes for a list of tracks, from a running time and a count. *)
Fixpoint blocks_from (tracks : list FileMerger.Track)
    (runningTime : PyNum.t) (chapCount : Z) : list FileMerger.Write :=
  match tracks with
  | [] => []
  | p :: rest =>
      [FileMerger.ChapterTag; FileMerger.Timebase;
       FileMerger.Start runningTime;
       FileMerger.End_ (FileMerger.advance runningTime p);
       FileMerger.Title chapCount]
      ++ blocks_from rest (FileMerger.advance runningTime p) (chapCount + 1)
  end.

(** A folder with three audio files and a cover image, read from the
    second match on, two at a time. *)
Definition C10_sample_tree : AudioFiles.Tree :=
  AudioFiles.mkTree
    ["/in/b.mp3"; "/in/cover.jpg"; "/in/A.m4b"; "/in/c.flac"]%string
    ["/in/b.mp3"; "/in/cover.jpg"; "/in/A.m4b"; "/in/c.flac"]%string.

(** The tracks of [tracks] whose disc number lies in [lo, hi). *)
Definition on_discs (lo hi : Z) (tracks : list FileMerger.Track)
    : list FileMerger.Track :=
  List.filter
    (fun t => match FileMerger.disc_number t with
              | inr d => (lo <=? d) && (d <? hi)
              | inl _ => false
              end) tracks.

(** Every track of [chapters] sits in the slot that its number denotes,
    counted from [shift]. *)
Definition in_own_slot (slots : nat) (shift : nat)
    (chapters : FileMerger.Chapters) : Prop :=
  forall i t, chapters !! i = Some (Some t) ->
    exists n, FileMerger.track_number t = inr n
              /\ FileMerger.py_index slots n = Some (shift + i)%nat.

(** The whitespace of [l] is single spaces, none of them followed by
    whitespace. *)
Fixpoint spaced (l : Text.chars) : bool :=
  match l with
  | [] => true
  | c :: r =>
      (if Text.is_space c then
         Text.eqb_char c " "%char
         && match r with d :: _ => negb (Text.is_space d) | [] => true end
       else true)
      && spaced r
  end.

(** The same, and no space ends the text. *)
Fixpoint single_spaced (l : Text.chars) : bool :=
  match l with
  | [] => true
  | c :: r =>
      (if Text.is_space c then
         Text.eqb_char c " "%char
         && match r with d :: _ => negb (Text.is_space d) | [] => false end
       else true)
      && single_spaced r
  end.

(** The text starts with no whitespace. *)
Definition starts_solid (l : Text.chars) : bool :=
  match l with c :: _ => negb (Text.is_space c) | [] => true end.

(** A text without leading, trailing or repeated whitespace, whose only
    whitespace is the space character. *)
Definition tidy (l : Text.chars) : bool := starts_solid l && single_spaced l.

(** The characters that are no whitespace. *)
Definition solid (l : Text.chars) : Text.chars :=
  List.filter (fun c => negb (Text.is_space c)) l.

(** The files of a result; the value -1 holds none. *)
Definition files_of (r : AudioFiles.Result) : list string :=
  match r with
  | AudioFiles.MinusOne => []
  | AudioFiles.Files files => files
  end.

(** The paths the loop tries, in order: the path it starts from, then the
    numbered ones from [counter] on. *)
Definition tried (numbered : nat -> string) (counter : nat)
    (currPath : string) (k : nat) : string :=
  match k with
  | O => currPath
  | S j => numbered (counter + j)%nat
  end.

(** The text holds a line break. *)
Definition has_break (l : Text.chars) : bool :=
  existsb (fun c => FailMarker.is_LF c || FailMarker.is_CR c) l.

(** The text before its first line break. *)
Fixpoint before_break (l : Text.chars) : Text.chars :=
  match l with
  | [] => []
  | c :: r =>
      if FailMarker.is_LF c || FailMarker.is_CR c then []
      else c :: before_break r
  end.

(** [a] sorts strictly before [b]: a better extension, or the same and a
    larger size. *)
Definition better (a b : Versions.File) : Prop :=
  Versions.ext_priority (Versions.path a)
  < Versions.ext_priority (Versions.path b)
  \/ (Versions.ext_priority (Versions.path a)
      = Versions.ext_priority (Versions.path b)
      /\ Versions.size b < Versions.size a).

(** The first value of the tag needs no fix. *)
Definition settled (track : Separators.Track) (tag : string) : Prop :=
  forall value, track !! tag = Some value ->
    Separators.needs_fix (Separators.first_value value) = false.

(** The event runs a batch. *)
Definition is_run (e : Main.Event) : bool :=
  match e with Main.Run _ => true | _ => false end.

(** The conversions that the steps append, in order. *)
Definition appended (steps : list Conversions.Step)
    : list Conversions.Conversion :=
  omap (fun s => match s with
                 | Conversions.Append c => Some c
                 | Conversions.ProcessConversions => None
                 end) steps.

(** How often [f] occurs in [l]. *)
Definition occurrences (f : string) (l : list string) : nat :=
  count_occ string_dec l f.

(** The number of the four patterns that the name matches. *)
Definition matching_patterns (n : Text.chars) : nat :=
  (Nat.b2n (AudioFiles.is_m4 n) + Nat.b2n (AudioFiles.is_mp n)
   + Nat.b2n (AudioFiles.is_flac n) + Nat.b2n (AudioFiles.is_wav n))%nat.

(** No file that cannot be read has for its path the key of a track. *)
Definition keys_apart (files : list SingleFiles.Entry) : Prop :=
  forall e e' author title,
    e ∈ files -> e' ∈ files ->
    SingleFiles.read e = SingleFiles.Unreadable ->
    SingleFiles.read e' = SingleFiles.Meta author title ->
    SingleFiles.key author title <> Versions.path (SingleFiles.file e).

(** The index that the multi-disc loop writes a track to: its track number
    plus the number of tracks on the discs before its own. *)
Definition multi_disc_slot (tracks : list FileMerger.Track)
    (t : FileMerger.Track) : option Z :=
  match FileMerger.disc_number t, FileMerger.track_number t with
  | inr d, inr n => Some (n + Z.of_nat (length (on_discs 1 d tracks)))
  | _, _ => None
  end.

(** Every track of [chapters] is one of [tracks] and sits at the index it
    was written to, counted from [shift]. *)
Definition in_disc_slot (tracks : list FileMerger.Track) (slots shift : nat)
    (chapters : FileMerger.Chapters) : Prop :=
  forall i t, chapters !! i = Some (Some t) ->
    t ∈ tracks
    /\ exists z, multi_disc_slot tracks t = Some z
                 /\ FileMerger.py_index slots z = Some (shift + i)%nat.

(** ** Results *)

(** After the first failed request the timer is 3.0 and exactly one sleep of
    2 seconds has happened; every later failure leaves the state unchanged
    apart from the call count. *)
Lemma GET_loop_stuck (fuel n : nat) (sl : list PyNum.t) :
  GET.loop fuel GET.always_raises
    (GET.mkLoop (PyNum.PFloat 3%float) n sl) = None.
Proof.
  revert n. induction fuel as [|fuel IH]; intros n; [reflexivity|].
  cbn [GET.loop]. unfold GET.iteration, GET.always_raises.
  cbn [GET.timer GET.calls GET.sleeps].
  replace (PyNum.eqb (PyNum.PFloat 3) (PyNum.PInt 2)) with false
    by (vm_compute; reflexivity).
  replace (PyNum.geb (PyNum.PFloat 3) (PyNum.PInt 10)) with false
    by (vm_compute; reflexivity).
  apply IH.
Qed.

(** C2 (the code at the failing input): when every request for an uncached
    URL raises, the retry loop of the cached GET never returns, whatever the
    number of iterations allowed: the timer goes from 2 to 3.0 after the
    first failure and neither branch of the handler applies any more. *)
Theorem C2_GETpage_retries_forever (fuel : nat) (use_cache : bool) :
  GET.GETpage fuel GET.always_raises None use_cache = None.
Proof.
  unfold GET.GETpage.
  assert (GET.loop fuel GET.always_raises GET.initial = None) as ->.
  { destruct fuel as [|fuel]; [reflexivity|].
    cbn [GET.loop]. unfold GET.iteration, GET.always_raises, GET.initial.
    cbn [GET.timer GET.calls GET.sleeps].
    replace (PyNum.eqb (PyNum.PInt 2) (PyNum.PInt 2)) with true
      by reflexivity.
    replace (PyNum.mul (PyNum.PInt 2) (PyNum.PFloat 1.5))
      with (PyNum.PFloat 3%float) by (vm_compute; reflexivity).
    apply GET_loop_stuck. }
  destruct use_cache; reflexivity.
Qed.

(** One failure costs one sleep of 2 seconds; after two failures the page
    is still fetched, the second retry coming without any sleep. *)
Example GETpage_samples :
  GET.loop 5 (GET.raises_first 1 "ok") GET.initial
  = Some (Some (GET.mkResponse 200 "ok"),
          GET.mkLoop (PyNum.PFloat 3%float) 2 [PyNum.PInt 2])
  /\ GET.loop 5 (GET.raises_first 2 "ok") GET.initial
     = Some (Some (GET.mkResponse 200 "ok"),
             GET.mkLoop (PyNum.PFloat 3%float) 3 [PyNum.PInt 2])
  /\ GET.GETpage 5 GET.always_raises (Some "body"%string) true
     = Some (Some (GET.mkResponse 200 "body"), None).
Proof. repeat split; vm_compute; reflexivity. Qed.

(** C3 (the code at the failing input): with more than one recursive mode
    selected, [processBooks] logs the conflict at CRITICAL level and leaves
    through a bare [sys.exit()]; the run logs nothing else but its final
    message, and the process exit status is 0. *)
Theorem C3_conflicting_modes_exit_status_zero (settings : Main.Settings) :
  Main.modes_conflict settings ->
  Main.fixSeparators settings = false ->
  Main.processBooks settings
    = ([Main.Log Main.CRITICAL Main.incompatible_msg], Main.SystemExit None)
  /\ Main.entry_point settings
     = ([Main.Log Main.DEBUG ("Creating output directory if not exists: "
                              ++ Main.output settings);
         Main.MakeOutputDir (Main.output settings);
         Main.Log Main.CRITICAL Main.incompatible_msg;
         Main.Log Main.INFO "Exited."], 0).
Proof.
  intros Hc Hfix.
  assert (Main.processBooks settings
          = ([Main.Log Main.CRITICAL Main.incompatible_msg],
             Main.SystemExit None)) as Hp.
  { unfold Main.processBooks.
    assert ((Main.recurseFetch settings && Main.recurseCombine settings)
            || (Main.recurseFetch settings && Main.recursePreserve settings)
            || (Main.recurseCombine settings && Main.recursePreserve settings)
            = true) as ->; [|reflexivity].
    destruct Hc as [[-> ->]|[[-> ->]|[-> ->]]];
      destruct (Main.recurseFetch settings), (Main.recurseCombine settings),
        (Main.recursePreserve settings); reflexivity. }
  split; [exact Hp|].
  unfold Main.entry_point, Main.main. now rewrite Hfix, Hp.
Qed.

(** The command line [-I /in -O /out -Q -RF -RC]. *)
Lemma C3_conflicting_modes_witness :
  snd (Main.entry_point
         (Main.mkSettings "/in" "/out" true true false false false)) = 0.
Proof.
  rewrite (proj2 (C3_conflicting_modes_exit_status_zero
             (Main.mkSettings "/in" "/out" true true false false false)
             (or_introl (conj eq_refl eq_refl)) eq_refl)).
  reflexivity.
Defined.

(** *** Text lemmas *)

Lemma eqb_char_true (a b : ascii) : Text.eqb_char a b = true <-> a = b.
Proof.
  unfold Text.eqb_char, Text.code. rewrite N.eqb_eq. split.
  - intros H. rewrite <- (ascii_N_embedding a), <- (ascii_N_embedding b).
    now rewrite H.
  - now intros ->.
Qed.

Lemma eqb_chars_true (a b : Text.chars) : Text.eqb_chars a b = true <-> a = b.
Proof.
  revert b. induction a as [|x a IH]; intros [|y b]; cbn; try easy.
  rewrite andb_true_iff, eqb_char_true, IH. split.
  - now intros [-> ->].
  - intros [= -> ->]. easy.
Qed.

Lemma carved_refl (a : Text.chars) : carved a a.
Proof. split; auto. Qed.

Lemma carved_trans (a b c : Text.chars) : carved a b -> carved b c -> carved a c.
Proof.
  intros [Hab Eab] [Hbc Ebc]. split; [lia|].
  intros E. assert (a = b) as -> by (apply Eab; lia). apply Ebc, E.
Qed.

Lemma carved_lstrip (l : Text.chars) : carved (Text.lstrip l) l.
Proof.
  induction l as [|c l [IH1 IH2]]; [apply carved_refl|].
  cbn. destruct (Text.is_space c); [|apply carved_refl].
  split; cbn; lia.
Qed.

Lemma carved_rev (a b : Text.chars) : carved a b -> carved (rev a) (rev b).
Proof.
  intros [H1 H2]. split; rewrite !length_rev; [easy|].
  intros E. now rewrite (H2 E).
Qed.

Lemma carved_strip (l : Text.chars) : carved (Text.strip l) l.
Proof.
  unfold Text.strip, Text.rstrip.
  apply carved_trans with (b := Text.lstrip l); [|apply carved_lstrip].
  rewrite <- (rev_involutive (Text.lstrip l)) at 2.
  apply carved_rev, carved_lstrip.
Qed.

Lemma carved_sub_to_end (r : Regex.t) (l : Text.chars) :
  carved (Regex.sub_to_end r l) l.
Proof.
  induction l as [|c l [IH1 IH2]]; cbn.
  - destruct (Regex.nullable r); apply carved_refl.
  - destruct (Regex.full (Regex.deriv c r) l).
    + split; cbn; lia.
    + split; cbn; [lia|]. intros [= E]. now rewrite (IH2 E).
Qed.

Lemma carved_strip_credential (l : Text.chars) :
  carved (PathNames.strip_credential l) l.
Proof.
  unfold PathNames.strip_credential.
  eapply carved_trans; [apply carved_strip|apply carved_sub_to_end].
Qed.

(** With more passes allowed than the text has characters, the credentials
    loop ends on a text that one more pass leaves unchanged. *)
Lemma strip_credentials_stable (fuel : nat) (l : Text.chars) :
  (length l < fuel)%nat ->
  PathNames.strip_credential (PathNames.strip_credentials fuel l)
  = PathNames.strip_credentials fuel l.
Proof.
  revert l. induction fuel as [|fuel IH]; intros l Hlen; [lia|].
  cbn [PathNames.strip_credentials].
  destruct (Text.eqb_chars (PathNames.strip_credential l) l) eqn:E.
  - apply eqb_chars_true in E. now rewrite !E.
  - apply IH.
    destruct (carved_strip_credential l) as [Hle Heq].
    destruct (Nat.eq_dec (length (PathNames.strip_credential l)) (length l))
      as [El|Nl]; [|lia].
    apply Heq in El. apply eqb_chars_true in El. congruence.
Qed.

(** C8: the three documented author names lose their trailing credentials,
    including stacked ones, and for every text the credentials loop of
    [cleanAuthorForPath] stops only on a text that a further pass leaves
    unchanged. *)
Theorem C8_cleanAuthorForPath_credentials :
  PathNames.cleanAuthorForPath "Daniel J. Siegel MD" = "Daniel J. Siegel"%string
  /\ PathNames.cleanAuthorForPath "Daniel J. Siegel M.D." = "Daniel J. Siegel"%string
  /\ PathNames.cleanAuthorForPath "Jane Doe MA MFT" = "Jane Doe"%string
  /\ forall cleaned : Text.chars,
       PathNames.strip_credential
         (PathNames.strip_credentials (S (length cleaned)) cleaned)
       = PathNames.strip_credentials (S (length cleaned)) cleaned.
Proof.
  split; [vm_compute; reflexivity|].
  split; [vm_compute; reflexivity|].
  split; [vm_compute; reflexivity|].
  intros cleaned. apply strip_credentials_stable. lia.
Qed.

(** *** The stable sort *)

Section StableSortFacts.

Context {A : Type}.
Variable leb : A -> A -> bool.
Hypothesis leb_total : forall a b, leb a b = true \/ leb b a = true.

Lemma insert_Permutation (x : A) (l : list A) :
  StableSort.insert leb x l ≡ₚ x :: l.
Proof.
  induction l as [|y l IH]; cbn; [reflexivity|].
  destruct (leb x y); [reflexivity|].
  rewrite IH. apply Permutation_swap.
Qed.

Lemma sort_Permutation (l : list A) : StableSort.sort leb l ≡ₚ l.
Proof.
  induction l as [|x l IH]; cbn; [reflexivity|].
  now rewrite insert_Permutation, IH.
Qed.



End StableSortFacts.

(** *** The ledgers *)

Section LedgerFacts.

Variable resolve : string -> string.
Variable move : bool.

Lemma skipBook_fails (item : string) (reason : option string)
    (st : BookStatus.Ledger) :
  BookStatus._fails (BookStatus.skipBook resolve move item reason st)
  = BookStatus._fails st.
Proof. unfold BookStatus.skipBook. now case_bool_decide. Qed.

Lemma failBook_skips (item : string) (reason : option string)
    (files : option (list string)) (st : BookStatus.Ledger) :
  BookStatus._skips (BookStatus.failBook resolve move item reason files st)
  = BookStatus._skips st.
Proof. unfold BookStatus.failBook. now case_bool_decide. Qed.

Lemma skipBook_skips (item : string) (reason : option string)
    (st : BookStatus.Ledger) (p : string) :
  p ∈ BookStatus._skips (BookStatus.skipBook resolve move item reason st) ->
  p ∈ BookStatus._skips st \/ p = BookStatus.originalItem resolve st item.
Proof.
  unfold BookStatus.skipBook. case_bool_decide; cbn; [now left|].
  rewrite elem_of_app, list_elem_of_singleton. tauto.
Qed.

Lemma failBook_fails (item : string) (reason : option string)
    (files : option (list string)) (st : BookStatus.Ledger) (p : string) :
  p ∈ BookStatus._fails (BookStatus.failBook resolve move item reason files st) ->
  p ∈ BookStatus._fails st \/ p = BookStatus.originalItem resolve st item.
Proof.
  unfold BookStatus.failBook. case_bool_decide; cbn; [now left|].
  rewrite elem_of_app, list_elem_of_singleton. tauto.
Qed.

(** One call keeps the ledgers exclusive when it does not record a path
    that the other ledger holds. *)
Lemma call_exclusive (c : BookStatus.Call) (st : BookStatus.Ledger) :
  BookStatus.exclusive st ->
  match c with
  | BookStatus.CallSetOriginalPath _ _ => True
  | BookStatus.CallSkipBook item _ =>
      BookStatus.originalItem resolve st item ∉ BookStatus._fails st
  | BookStatus.CallFailBook item _ _ =>
      BookStatus.originalItem resolve st item ∉ BookStatus._skips st
  end ->
  BookStatus.exclusive (BookStatus.call resolve move c st).
Proof.
  intros Hex Hc p. destruct c as [cur orig|item reason|item reason files];
    cbn [BookStatus.call].
  - apply Hex.
  - rewrite skipBook_fails. intros Hs Hf.
    apply skipBook_skips in Hs as [Hs| ->]; [exact (Hex p Hs Hf)|].
    exact (Hc Hf).
  - rewrite failBook_skips. intros Hs Hf.
    apply failBook_fails in Hf as [Hf| ->]; [exact (Hex p Hs Hf)|].
    exact (Hc Hs).
Qed.

Lemma run_exclusive (calls : list BookStatus.Call) (st : BookStatus.Ledger) :
  BookStatus.exclusive st ->
  BookStatus.no_cross_call resolve move calls st ->
  BookStatus.exclusive (BookStatus.run resolve move calls st).
Proof.
  revert st. induction calls as [|c calls IH]; intros st Hex Hn; [exact Hex|].
  destruct Hn as [Hc Hn]. cbn [BookStatus.run fold_left].
  apply IH; [|exact Hn]. now apply call_exclusive.
Qed.

End LedgerFacts.

(** C4 (as the code has it): the skip and the fail ledger stay free of a
    common path through every run, started from the empty ledgers, in which
    no call records an original path that the other ledger already holds;
    a skip never changes the fail ledger and a fail never changes the skip
    ledger. *)
Theorem C4_ledgers_exclusive_without_cross_calls
    (resolve : string -> string) (move : bool)
    (calls : list BookStatus.Call) :
  BookStatus.no_cross_call resolve move calls BookStatus.empty ->
  BookStatus.exclusive (BookStatus.run resolve move calls BookStatus.empty)
  /\ (forall item reason st,
        BookStatus._fails (BookStatus.skipBook resolve move item reason st)
        = BookStatus._fails st)
  /\ (forall item reason files st,
        BookStatus._skips (BookStatus.failBook resolve move item reason files st)
        = BookStatus._skips st).
Proof.
  intros Hn. split; [|split].
  - apply run_exclusive; [|exact Hn].
    intros p Hp. cbn in Hp. now apply not_elem_of_nil in Hp.
  - intros. apply skipBook_fails.
  - intros. apply failBook_skips.
Qed.

Lemma C4_ledgers_exclusive_witness :
  BookStatus.exclusive
    (BookStatus.run (fun p => p) false C4_sample_calls BookStatus.empty).
Proof.
  apply (C4_ledgers_exclusive_without_cross_calls (fun p => p) false
           C4_sample_calls).
  cbn. repeat split;
    intros Hin; apply (bool_decide_pack _) in Hin; vm_compute in Hin;
    exact Hin.
Defined.

(** C4 (counterexample): a folder that fails and is then skipped, as
    happens when a merge meets the fail marker it wrote earlier in the run,
    is in both ledgers. *)
Lemma C4_failed_then_skipped :
  ~ BookStatus.exclusive
      (BookStatus.run (fun p => p) false
         [ BookStatus.CallFailBook "/in/b" (Some "Failed to order files") None;
           BookStatus.CallSkipBook "/in/b" (Some "Previously failed") ]%string
         BookStatus.empty).
Proof.
  intros H. apply (H "/in/b"%string);
    apply (bool_decide_unpack _); vm_compute; exact I.
Qed.

(** *** The existing-output probe *)









(** The same folder gives [Title.mp3] without the flag, and once
    [Title.m4b] is there too the .m4b wins with or without it. *)
Example checkOutputExists_samples :
  BookStatus.checkOutputExists
    (BookStatus.flat_folder ["Title.mp3"%string]) (Some "Title"%string) false
  = Some "Title.mp3"%string
  /\ BookStatus.checkOutputExists
       (BookStatus.flat_folder ["Title.mp3"; "Title.m4b"]%string)
       (Some "Title"%string) true
     = Some "Title.m4b"%string
  /\ BookStatus.checkOutputExists
       (BookStatus.flat_folder ["Other.mp3"; "Title.mp3"; "Other.m4b"]%string)
       (Some "Title"%string) false
     = Some "Other.m4b"%string.
Proof. repeat split; vm_compute; reflexivity. Qed.

(** *** The match-confidence scorer *)

Lemma table_lookup (f : nat -> nat -> bool) (width : nat -> nat)
    (first rows i j : nat) :
  table_ok f width first rows = true ->
  (first <= i < first + rows)%nat -> (j < width i)%nat ->
  f i j = true.
Proof.
  unfold table_ok. intros T Hi Hj.
  rewrite forallb_forall in T.
  assert (In i (seq first rows)) as Hin by (apply in_seq; lia).
  apply T in Hin. rewrite forallb_forall in Hin.
  apply Hin, in_seq. lia.
Qed.


Lemma blend_table : table_ok blend_ok (fun _ => 101%nat) 0 101 = true.
Proof. vm_compute. reflexivity. Qed.


Lemma blend_range (t a : Z) :
  0 <= t <= 100 -> 0 <= a <= 100 ->
  0 <= Confidence.blend t a <= 100
  /\ (6 * t + 4 * a) / 10 - 1 <= Confidence.blend t a <= (6 * t + 4 * a) / 10
  /\ PyNum.trunc (Confidence.weighted t a) = Some (Confidence.blend t a).
Proof.
  intros Ht Ha.
  assert (blend_ok (Z.to_nat t) (Z.to_nat a) = true) as T.
  { apply (table_lookup blend_ok (fun _ => 101%nat) 0 101
             (Z.to_nat t) (Z.to_nat a) blend_table); lia. }
  unfold blend_ok in T. cbv zeta in T.
  rewrite !Z2Nat.id in T by lia.
  rewrite !andb_true_iff in T. destruct T as [[[[H0 H100] Hlo] Hhi] Htr].
  apply Z.leb_le in H0, H100, Hlo, Hhi.
  split; [lia|]. split; [lia|].
  destruct (PyNum.trunc (Confidence.weighted t a)) as [z|]; [|easy].
  apply Z.eqb_eq in Htr. now subst z.
Qed.












Lemma is_empty_false (a : Text.chars) :
  Confidence.is_empty a = false <-> a <> [].
Proof. destruct a; cbn; split; congruence. Qed.




(** C7 (as the code has it): when the file-side author and title both
    normalize to non-empty text, the combined score is
    [int(titleScore * 0.6 + authorScore * 0.4)]: the binary64 sum truncated
    toward zero, which for scores in [0, 100] is the exact floor of the
    weighted sum or one less, never above it. *)
Theorem C7_combined_score_is_truncated
    (fileAuthor fileTitle audibleAuthor audibleTitle : string) :
  let fileAuthorNorm := Confidence.normalizeForComparison fileAuthor in
  let fileTitleNorm := Confidence.normalizeForComparison fileTitle in
  let audibleAuthorNorm := Confidence.normalizeForComparison audibleAuthor in
  let audibleTitleNorm := Confidence.normalizeForComparison audibleTitle in
  let title := Confidence.titleScore fileTitleNorm audibleTitleNorm in
  let author := Confidence.authorScore fileAuthorNorm audibleAuthorNorm in
  fileAuthorNorm <> [] -> fileTitleNorm <> [] ->
  Confidence.combinedScore
    (Confidence.calculateMatchConfidence
       fileAuthor fileTitle audibleAuthor audibleTitle)
  = Confidence.blend title author
  /\ (0 <= title <= 100 -> 0 <= author <= 100 ->
      PyNum.trunc (Confidence.weighted title author)
      = Some (Confidence.blend title author)
      /\ (6 * title + 4 * author) / 10 - 1
         <= Confidence.blend title author
         <= (6 * title + 4 * author) / 10).
Proof.
  intros fA fT aA aT title author HA HT.
  unfold Confidence.calculateMatchConfidence. cbn [Confidence.combinedScore].
  fold fA fT aA aT. fold title author. split.
  - unfold Confidence.combine.
    apply is_empty_false in HA, HT. now rewrite HA, HT.
  - intros Ht Ha. destruct (blend_range title author Ht Ha) as (_ & Hb & Htr).
    split; [exact Htr|exact Hb].
Qed.

Lemma C7_combined_score_witness :
  Confidence.combinedScore
    (Confidence.calculateMatchConfidence "x" "a b" "x" "a c")
  = Confidence.blend 33 100.
Proof.
  apply (C7_combined_score_is_truncated "x" "a b" "x" "a c");
    vm_compute; discriminate.
Defined.

(** C7 (counterexample): the titles "a b" and "a c" share one word of
    three (score 33) and the authors agree (score 100); the weighted sum is
    59.8, which rounds to 60, and the combined score is 59. *)
Lemma C7_truncated_not_rounded :
  let s := Confidence.calculateMatchConfidence "x" "a b" "x" "a c" in
  Confidence.normalizeForComparison "x" <> []
  /\ Confidence.normalizeForComparison "a b" <> []
  /\ Confidence.detailTitle s = 33 /\ Confidence.detailAuthor s = 100
  /\ Confidence.round
       (Confidence.weighted (Confidence.detailTitle s)
                            (Confidence.detailAuthor s)) = Some 60
  /\ Confidence.combinedScore s = 59.
Proof.
  cbv zeta. repeat split; try (vm_compute; discriminate);
    vm_compute; reflexivity.
Qed.

(** *** Ordering by track number *)

Lemma py_index_lt (len : nat) (i : Z) (k : nat) :
  FileMerger.py_index len i = Some k -> (k < len)%nat.
Proof.
  unfold FileMerger.py_index.
  destruct ((0 <=? i) && (i <? Z.of_nat len)) eqn:E1.
  - intros [= <-]. apply andb_true_iff in E1 as [H1 H2]. lia.
  - destruct ((- Z.of_nat len <=? i) && (i <? 0)) eqn:E2; [|easy].
    intros [= <-]. apply andb_true_iff in E2 as [H1 H2]. lia.
Qed.

Lemma occupied_insert (chapters : FileMerger.Chapters) (n : Z) (k : nat)
    (track : FileMerger.Track) :
  occupied chapters n -> occupied (<[k := Some track]> chapters) n.
Proof.
  intros (k' & t & Hk & Ht).
  destruct (decide (k = k')) as [->|Hne].
  - exists k', track. rewrite length_insert. split; [exact Hk|].
    apply list_lookup_insert_eq. eapply py_index_lt, Hk.
  - exists k', t. rewrite length_insert. split; [exact Hk|].
    now rewrite list_lookup_insert_ne.
Qed.

Lemma track_number_has_tag (track : FileMerger.Track) (n : Z) :
  FileMerger.track_number track = inr n ->
  exists tag, FileMerger.tracknumber track = Some tag.
Proof.
  unfold FileMerger.track_number.
  destruct (FileMerger.tracknumber track) as [tag|]; [eauto|easy].
Qed.

(** Once the slot of a number is taken, a later track with that number
    ends the single-disc loop. *)
Lemma place_single_occupied (tracks : list FileMerger.Track)
    (chapters : FileMerger.Chapters) (n : Z) (track : FileMerger.Track) :
  occupied chapters n -> track ∈ tracks ->
  FileMerger.track_number track = inr n ->
  FileMerger.place_single tracks chapters = None.
Proof.
  revert chapters. induction tracks as [|h rest IH]; intros chapters Hocc Hin Hn.
  - now apply not_elem_of_nil in Hin.
  - cbn [FileMerger.place_single].
    destruct (FileMerger.tracknumber h) as [tag|] eqn:Etag; [|reflexivity].
    destruct (FileMerger.track_number h) as [e|m] eqn:Em; [reflexivity|].
    destruct (FileMerger.py_index (length chapters) m) as [k|] eqn:Ek;
      [|reflexivity].
    destruct (chapters !! k) as [[t|]|] eqn:Et; try reflexivity.
    apply elem_of_cons in Hin as [->|Hin].
    + exfalso. destruct Hocc as (k' & t & Hk' & Ht).
      rewrite Hn in Em. injection Em as <-. congruence.
    + apply (IH _ (occupied_insert _ _ _ _ Hocc) Hin Hn).
Qed.

Lemma place_single_duplicate (pre rest : list FileMerger.Track)
    (a b : FileMerger.Track) (n : Z) (chapters : FileMerger.Chapters) :
  FileMerger.track_number a = inr n -> b ∈ rest ->
  FileMerger.track_number b = inr n ->
  FileMerger.place_single (pre ++ a :: rest) chapters = None.
Proof.
  intros Ha Hb Hn. revert chapters.
  induction pre as [|h pre IH]; intros chapters; cbn [app FileMerger.place_single].
  - destruct (FileMerger.tracknumber a) as [tag|]; [|reflexivity].
    rewrite Ha.
    destruct (FileMerger.py_index (length chapters) n) as [k|] eqn:Ek;
      [|reflexivity].
    destruct (chapters !! k) as [[t|]|] eqn:Et; try reflexivity.
    apply (place_single_occupied rest _ n b); [|exact Hb|exact Hn].
    exists k, a. rewrite length_insert. split; [exact Ek|].
    apply list_lookup_insert_eq. eapply py_index_lt, Ek.
  - destruct (FileMerger.tracknumber h) as [tag|]; [|reflexivity].
    destruct (FileMerger.track_number h) as [e|m]; [reflexivity|].
    destruct (FileMerger.py_index (length chapters) m) as [k|];
      [|reflexivity].
    destruct (chapters !! k) as [[t|]|]; try reflexivity. apply IH.
Qed.

Lemma place_single_same_number (tracks : list FileMerger.Track) (i j : nat)
    (a b : FileMerger.Track) (n : Z) (chapters : FileMerger.Chapters) :
  (i < j)%nat -> tracks !! i = Some a -> tracks !! j = Some b ->
  FileMerger.track_number a = inr n -> FileMerger.track_number b = inr n ->
  FileMerger.place_single tracks chapters = None.
Proof.
  intros Hij Hi Hj Ha Hb.
  rewrite <- (take_drop_middle tracks i a Hi).
  apply (place_single_duplicate _ _ a b n); [exact Ha| |exact Hb].
  apply list_elem_of_lookup. exists (j - S i)%nat.
  rewrite lookup_drop. rewrite <- Hj. f_equal. lia.
Qed.

Lemma set_item_not_nil (key : Z) (track : FileMerger.Track)
    (trackMap : list (Z * FileMerger.Track)) :
  FileMerger.set_item key track trackMap <> [].
Proof.
  destruct trackMap as [|[k v] rest]; cbn; [easy|].
  now destruct (k =? key).
Qed.

Lemma numeric_map_not_nil (whichNum : nat) (tracks : list FileMerger.Track)
    (trackMap items : list (Z * FileMerger.Track)) :
  FileMerger.numeric_map whichNum tracks trackMap = FileMerger.TrackMap items ->
  tracks <> [] \/ trackMap <> [] -> items <> [].
Proof.
  revert trackMap. induction tracks as [|t tracks IH]; intros trackMap; cbn.
  - intros [= <-] [H|H]; [now elim H|exact H].
  - destruct (bool_decide _ && _); [easy|].
    intros Hm _. apply (IH _ Hm). right. apply set_item_not_nil.
Qed.

Lemma sort_not_nil {A : Type} (leb : A -> A -> bool) (l : list A) :
  l <> [] -> StableSort.sort leb l <> [].
Proof.
  intros Hne Hs. apply Hne.
  pose proof (sort_Permutation leb l) as P. rewrite Hs in P.
  now apply Permutation_nil_l in P.
Qed.

Lemma numeric_attempts_no_error (positions : list nat)
    (tracks : list FileMerger.Track) :
  tracks <> [] ->
  match FileMerger.numeric_attempts positions tracks with
  | FileMerger.NumericOrder tracksOut => tracksOut <> []
  | FileMerger.NumericGiveUp => True
  | FileMerger.NumericIndexError => False
  end.
Proof.
  intros Hne. induction positions as [|w later IH]; cbn; [exact I|].
  destruct (FileMerger.numeric_map w tracks []) as [|items] eqn:Em;
    [exact IH|].
  destruct (bool_decide (-1 ∈ items.*1)); [exact I|].
  assert (items <> []) as Hitems
    by (eapply numeric_map_not_nil; [exact Em|now left]).
  pose proof (sort_not_nil (fun a b => a.1 <=? b.1) items Hitems) as Hs.
  destruct (StableSort.sort (fun a b => a.1 <=? b.1) items)
    as [|[first v] rest]; [now elim Hs|].
  destruct ((first =? 0) || (first =? 1)); [easy|exact IH].
Qed.

(** The title-based ordering of a non-empty list of tracks gives a
    non-empty order. *)
Lemma orderByTitle_not_nil (tracks : list FileMerger.Track) :
  tracks <> [] ->
  exists pieces, FileMerger.orderByTitle tracks = Some pieces /\ pieces <> [].
Proof.
  intros Hne. unfold FileMerger.orderByTitle.
  destruct (FileMerger.orderByTitleAlphanumeric tracks) as [|t ts];
    [|exists (t :: ts); split; [reflexivity|discriminate]].
  pose proof (numeric_attempts_no_error FileMerger.positions tracks Hne) as H.
  destruct (FileMerger.numeric_attempts FileMerger.positions tracks)
    as [out| |]; [now exists out| |now elim H].
  eexists. split; [reflexivity|]. now apply sort_not_nil.
Qed.

(** C9: in single-disc mode (every file is read and none declares a disc
    other than 1), two files that declare the same track number make the
    ordering by track number return the empty list, and [orderFiles] then
    returns the non-empty order that the title-based ordering gives,
    without failing the folder. *)
Theorem C9_duplicate_track_number_falls_back
    (resolve : string -> string) (move : bool)
    (files : list (string * FileMerger.Read)) (folderPath : string)
    (st : BookStatus.Ledger)
    (tracks : list FileMerger.Track) (i j : nat)
    (a b : FileMerger.Track) (n : Z) :
  FileMerger.read_tracks files [] false = inl (tracks, false) ->
  i <> j -> tracks !! i = Some a -> tracks !! j = Some b ->
  FileMerger.track_number a = inr n -> FileMerger.track_number b = inr n ->
  FileMerger.orderByTrackNumber tracks false = []
  /\ exists pieces,
       FileMerger.orderByTitle tracks = Some pieces /\ pieces <> []
       /\ FileMerger.orderFiles resolve move files folderPath st
          = (FileMerger.Pieces (map Some pieces), st).
Proof.
  intros Hread Hij Hi Hj Ha Hb.
  assert (FileMerger.orderByTrackNumber tracks false = []) as Hempty.
  { unfold FileMerger.orderByTrackNumber.
    assert (FileMerger.place_single tracks
              (replicate (length tracks + 1) None) = None) as ->; [|reflexivity].
    destruct (Nat.lt_total i j) as [Hlt|[Heq|Hgt]]; [|contradiction|].
    - now apply (place_single_same_number tracks i j a b n).
    - now apply (place_single_same_number tracks j i b a n). }
  split; [exact Hempty|].
  assert (tracks <> []) as Hne by (intros ->; discriminate Hi).
  destruct (orderByTitle_not_nil tracks Hne) as (pieces & Ht & Hp).
  exists pieces. split; [exact Ht|]. split; [exact Hp|].
  unfold FileMerger.orderFiles. rewrite Hread, Hempty, Ht.
  destruct pieces; [now elim Hp|reflexivity].
Qed.

Lemma C9_duplicate_track_number_witness :
  FileMerger.orderByTrackNumber
    [ FileMerger.mkTrack "Beta.mp3" (Some ["1"%string]) None 60%float;
      FileMerger.mkTrack "Alpha.mp3" (Some ["1/2"%string]) None 30%float ]
    false = [].
Proof.
  apply (C9_duplicate_track_number_falls_back
           (fun p => p) false C9_sample_files "/in/book"
           BookStatus.empty _ 0%nat 1%nat
           (FileMerger.mkTrack "Beta.mp3" (Some ["1"%string]) None 60%float)
           (FileMerger.mkTrack "Alpha.mp3" (Some ["1/2"%string]) None 30%float)
           1);
    try reflexivity. lia.
Defined.

(** The two files above come out in alphabetical order, and the chapters
    01a, 01b, 02 in that order whatever the order they are read in. *)
Example orderFiles_samples :
  fst (FileMerger.orderFiles (fun p => p) false C9_sample_files "/in/book"
         BookStatus.empty)
  = FileMerger.Pieces
      [ Some (FileMerger.mkTrack "Alpha.mp3" (Some ["1/2"%string]) None 30%float);
        Some (FileMerger.mkTrack "Beta.mp3" (Some ["1"%string]) None 60%float) ]
  /\ map FileMerger.filename
       (default []
          (FileMerger.orderByTitle
             [ FileMerger.mkTrack "Chapter 02.mp3" None None 1%float;
               FileMerger.mkTrack "Chapter 01b.mp3" None None 1%float;
               FileMerger.mkTrack "Chapter 01a.mp3" None None 1%float ]))
     = ["Chapter 01a.mp3"; "Chapter 01b.mp3"; "Chapter 02.mp3"]%string.
Proof. split; vm_compute; reflexivity. Qed.

(** *** The chapter manifest *)

Lemma write_pieces_blocks (pieces : FileMerger.Chapters)
    (runningTime : PyNum.t) (chapCount : Z) :
  snd (FileMerger.write_pieces pieces runningTime chapCount)
  = blocks_from (omap id pieces) runningTime chapCount.
Proof.
  revert runningTime chapCount.
  induction pieces as [|[p|] pieces IH]; intros rt cc; cbn.
  - reflexivity.
  - specialize (IH (FileMerger.advance rt p) (cc + 1)).
    destruct (FileMerger.write_pieces pieces (FileMerger.advance rt p) (cc + 1))
      as [fs ws]. cbn in *. now rewrite IH.
  - apply IH.
Qed.

Lemma offset_prefix (pre suf : list FileMerger.Track) :
  FileMerger.offset (pre ++ suf) (length pre)
  = fold_left FileMerger.advance pre (PyNum.PInt 0).
Proof. unfold FileMerger.offset. now rewrite take_app_length. Qed.

Lemma blocks_from_offsets (pre suf : list FileMerger.Track) :
  blocks_from suf (fold_left FileMerger.advance pre (PyNum.PInt 0))
              (Z.of_nat (length pre) + 1)
  = flat_map (FileMerger.block (pre ++ suf)) (seq (length pre) (length suf)).
Proof.
  revert pre. induction suf as [|p suf IH]; intros pre; [reflexivity|].
  cbn [blocks_from length seq flat_map].
  pose proof (IH (pre ++ [p])) as IH'.
  rewrite fold_left_app, length_app, <- app_assoc in IH'. cbn in IH'.
  replace (Z.of_nat (length pre + 1) + 1) with (Z.of_nat (length pre) + 1 + 1)
    in IH' by lia.
  replace (length pre + 1)%nat with (S (length pre)) in IH' by lia.
  rewrite IH'. f_equal.
  unfold FileMerger.block. rewrite offset_prefix.
  replace (FileMerger.offset (pre ++ p :: suf) (S (length pre)))
    with (FileMerger.advance
            (fold_left FileMerger.advance pre (PyNum.PInt 0)) p);
    [reflexivity|].
  pose proof (offset_prefix (pre ++ [p]) suf) as E.
  rewrite <- app_assoc, length_app, fold_left_app in E. cbn in E.
  replace (length pre + 1)%nat with (S (length pre)) in E by lia.
  now rewrite E.
Qed.

Lemma advance_is_float (runningTime : PyNum.t) (p : FileMerger.Track) :
  exists f, FileMerger.advance runningTime p = PyNum.PFloat f.
Proof. destruct runningTime; cbn; eauto. Qed.

(** C5 (as the code has it): the chapter manifest is the ;FFMETADATA1
    header followed by one block per track of the list ([None] entries
    give no block), block k (from 0) holding [CHAPTER], TIMEBASE=1/1000,
    START, END and title=Chapter k+1; the first START is the integer 0 and
    every END, hence every later START, is the running binary64 sum of
    duration times 1000, END being START plus the chapter's duration times
    1000, written as computed and not rounded to an integer. *)
Theorem C5_chapter_manifest (pieces : FileMerger.Chapters) :
  let tracks := omap id pieces in
  snd (FileMerger.createTempFiles pieces)
  = FileMerger.Header
    :: flat_map (FileMerger.block tracks) (seq 0 (length tracks))
  /\ FileMerger.offset tracks 0 = PyNum.PInt 0
  /\ forall (k : nat) (p : FileMerger.Track),
       tracks !! k = Some p ->
       FileMerger.offset tracks (S k)
       = PyNum.add (FileMerger.offset tracks k)
           (PyNum.mul (PyNum.PFloat (FileMerger.info_length p))
                      (PyNum.PInt 1000))
       /\ exists f, FileMerger.offset tracks (S k) = PyNum.PFloat f.
Proof.
  intros tracks. split; [|split].
  - unfold FileMerger.createTempFiles.
    pose proof (write_pieces_blocks pieces (PyNum.PInt 0) 1) as E.
    destruct (FileMerger.write_pieces pieces (PyNum.PInt 0) 1) as [fs ws].
    cbn in E. cbn [snd]. f_equal. rewrite E.
    apply (blocks_from_offsets [] tracks).
  - unfold FileMerger.offset. now rewrite take_0.
  - intros k p Hk.
    assert (FileMerger.offset tracks (S k)
            = FileMerger.advance (FileMerger.offset tracks k) p) as E.
    { unfold FileMerger.offset. rewrite (take_S_r _ _ _ Hk).
      now rewrite fold_left_app. }
    rewrite E. split; [reflexivity|]. apply advance_is_float.
Qed.

(** Two chapters of 60 and 30 seconds: the second one starts at 60000.0. *)
Lemma C5_chapter_manifest_witness :
  let tracks :=
    [ FileMerger.mkTrack "01.mp3" (Some ["1"%string]) None 60%float;
      FileMerger.mkTrack "02.mp3" (Some ["2"%string]) None 30%float ] in
  FileMerger.offset tracks 1
  = PyNum.add (FileMerger.offset tracks 0)
      (PyNum.mul (PyNum.PFloat 60%float) (PyNum.PInt 1000))
  /\ exists f, FileMerger.offset tracks 1 = PyNum.PFloat f.
Proof.
  exact (proj2 (proj2 (C5_chapter_manifest
           [ Some (FileMerger.mkTrack "01.mp3" (Some ["1"%string]) None 60%float);
             None;
             Some (FileMerger.mkTrack "02.mp3" (Some ["2"%string]) None 30%float) ]))
         0%nat
         (FileMerger.mkTrack "01.mp3" (Some ["1"%string]) None 60%float)
         eq_refl).
Defined.

(** C5 (counterexample): after a first chapter of 90.0625 seconds the
    second chapter starts at 90062.5, which is no integer number of
    milliseconds. *)
Lemma C5_start_not_an_integer :
  let pieces :=
    [ Some (FileMerger.mkTrack "01.mp3" (Some ["1"%string]) None 90.0625%float);
      Some (FileMerger.mkTrack "02.mp3" (Some ["2"%string]) None 10%float) ] in
  snd (FileMerger.createTempFiles pieces) !! 8%nat
  = Some (FileMerger.Start (PyNum.PFloat 90062.5%float))
  /\ PyNum.is_integral (PyNum.PFloat 90062.5%float) = false.
Proof. split; vm_compute; reflexivity. Qed.

(** *** The audio files of a folder *)

Lemma sort_by_key_Permutation (l : list string) :
  AudioFiles.sort_by_key l ≡ₚ l.
Proof. apply sort_Permutation. Qed.









Example getAudioFiles_samples :
  AudioFiles.getAudioFiles C10_sample_tree (-1) false 0
  = AudioFiles.Files ["/in/A.m4b"; "/in/b.mp3"; "/in/c.flac"]%string
  /\ AudioFiles.getAudioFiles C10_sample_tree 2 false 1
     = AudioFiles.Files ["/in/b.mp3"; "/in/c.flac"]%string
  /\ AudioFiles.getAudioFiles
       (AudioFiles.mkTree ["/in/cover.jpg"%string] []) (-1) false 0
     = AudioFiles.MinusOne.
Proof. repeat split; vm_compute; reflexivity. Qed.

(** ** Further properties *)

(** *** The cached GET *)

(** While the requests fail, the loop is in one of two states: it has made
    no call yet, or the timer is 3.0 and it has slept once for 2 seconds. *)
Lemma GET_loop_after_failures (net : GET.Network) (n : nat) (fuel : nat)
    (page : GET.Response) :
  (forall k, (k < n)%nat -> net k = GET.Raises) ->
  net n = GET.Responds page ->
  forall done : nat,
    (done <= n)%nat -> (n < done + fuel)%nat ->
    GET.loop fuel net
      (GET.mkLoop (if (done =? 0)%nat then PyNum.PInt 2 else PyNum.PFloat 3%float)
                  done
                  (if (done =? 0)%nat then [] else [PyNum.PInt 2]))
    = Some (Some page,
            GET.mkLoop (if (n =? 0)%nat then PyNum.PInt 2 else PyNum.PFloat 3%float)
                       (S n)
                       (if (n =? 0)%nat then [] else [PyNum.PInt 2])).
Proof.
  intros Hfail Hok. induction fuel as [|fuel IH]; intros done Hle Hlt; [lia|].
  cbn [GET.loop]. unfold GET.iteration. cbn [GET.timer GET.calls GET.sleeps].
  destruct (Nat.eq_dec done n) as [->|Hne].
  - rewrite Hok. reflexivity.
  - rewrite Hfail by lia.
    destruct done as [|done]; cbn [Nat.eqb].
    + replace (PyNum.eqb (PyNum.PInt 2) (PyNum.PInt 2)) with true
        by reflexivity.
      replace (PyNum.mul (PyNum.PInt 2) (PyNum.PFloat 1.5))
        with (PyNum.PFloat 3%float) by (vm_compute; reflexivity).
      apply (IH 1%nat); lia.
    + replace (PyNum.eqb (PyNum.PFloat 3) (PyNum.PInt 2)) with false
        by (vm_compute; reflexivity).
      replace (PyNum.geb (PyNum.PFloat 3) (PyNum.PInt 10)) with false
        by (vm_compute; reflexivity).
      apply (IH (S (S done))); lia.
Qed.

(** X1: when the first [n] requests raise and the next one is answered, the
    cached GET returns on that answer, having slept at most once (2
    seconds, after the first failure) however many requests failed; it
    returns the page and hands its body to the cache when the status is
    200, and returns nothing and caches nothing otherwise. *)
Theorem X1_GETpage_returns_on_first_answer
    (net : GET.Network) (n : nat) (page : GET.Response) (use_cache : bool) :
  (forall k, (k < n)%nat -> net k = GET.Raises) ->
  net n = GET.Responds page ->
  GET.loop (S n) net GET.initial
  = Some (Some page,
          GET.mkLoop (if (n =? 0)%nat then PyNum.PInt 2 else PyNum.PFloat 3%float)
                     (S n)
                     (if (n =? 0)%nat then [] else [PyNum.PInt 2]))
  /\ GET.GETpage (S n) net None use_cache
     = Some (if GET.status_code page =? 200
             then (Some page, if use_cache then Some (GET.text page) else None)
             else (None, None)).
Proof.
  intros Hfail Hok.
  pose proof (GET_loop_after_failures net n (S n) page Hfail Hok 0%nat) as H.
  cbn [Nat.eqb] in H. specialize (H ltac:(lia) ltac:(lia)).
  split; [exact H|].
  unfold GET.GETpage. replace (if use_cache then None else None)
    with (@None string) by now destruct use_cache.
  fold GET.initial in H. unfold GET.initial in *. rewrite H.
  now destruct (GET.status_code page =? 200).
Qed.

Lemma X1_GETpage_returns_on_first_answer_witness :
  GET.loop 4 (GET.raises_first 3 "body") GET.initial
  = Some (Some (GET.mkResponse 200 "body"),
          GET.mkLoop (PyNum.PFloat 3%float) 4 [PyNum.PInt 2]).
Proof.
  apply (X1_GETpage_returns_on_first_answer
           (GET.raises_first 3 "body") 3 (GET.mkResponse 200 "body") true).
  - intros k Hk. unfold GET.raises_first.
    now apply Nat.ltb_lt in Hk as ->.
  - reflexivity.
Defined.

(** X2: a page fetched on a cache miss is served from the cache afterwards:
    as long as less than 86400 seconds have passed since it was stored, a
    later call for the same URL returns the stored body with status 200
    without any request and without touching the cache; the entries of
    other URLs are as they were. *)
Theorem X2_fetched_page_is_served_from_cache
    (fuel : nat) (net : GET.Network) (cache cache' : gmap string Cache.Entry)
    (looked stored : float) (url : string) (page : GET.Response) :
  Cache._get_cached cache looked url = None ->
  Cache.GETpage fuel net cache looked stored url true
  = Some (Some page, cache') ->
  GET.status_code page = 200
  /\ (forall (later stored' : float) (fuel' : nat) (net' : GET.Network),
        PrimFloat.ltb (PrimFloat.sub later stored) Cache._cache_ttl = true ->
        Cache.GETpage fuel' net' cache' later stored' url true
        = Some (Some (GET.mkResponse 200 (GET.text page)), cache'))
  /\ (forall other, other <> url -> cache' !! other = cache !! other).
Proof.
  intros Hmiss Hget. unfold Cache.GETpage in Hget. rewrite Hmiss in Hget.
  unfold GET.GETpage in Hget. cbn [negb] in Hget.
  destruct (GET.loop fuel net GET.initial) as [[[p|] s]|]; try discriminate.
  destruct (Z.eqb_spec (GET.status_code p) 200) as [E|E]; cbn in Hget;
    [|discriminate].
  injection Hget as <- <-. split; [exact E|]. split.
  - intros later stored' fuel' net' Hfresh.
    unfold Cache.GETpage, Cache._get_cached, Cache._set_cached.
    rewrite lookup_insert_eq. cbn -[PrimFloat.ltb PrimFloat.sub].
    rewrite Hfresh. reflexivity.
  - intros other Hne. unfold Cache._set_cached.
    now rewrite lookup_insert_ne.
Qed.

Lemma X2_fetched_page_is_served_from_cache_witness :
  GET.status_code (GET.mkResponse 200 "body") = 200.
Proof.
  apply (X2_fetched_page_is_served_from_cache 1 (GET.raises_first 0 "body")
           ∅ (Cache._set_cached ∅ 1001%float "http://x" "body")
           1000%float 1001%float "http://x"
           (GET.mkResponse 200 "body")).
  - reflexivity.
  - reflexivity.
Defined.

(** *** The ledgers and the registries *)

Section RegistryFacts.

Variable resolve : string -> string.
Variable move : bool.

Lemma originalItem_skipBook (item x : string) (reason : option string)
    (st : BookStatus.Ledger) :
  BookStatus.originalItem resolve
    (BookStatus.skipBook resolve move item reason st) x
  = BookStatus.originalItem resolve st x.
Proof. unfold BookStatus.skipBook. now case_bool_decide. Qed.

Lemma originalItem_failBook (item x : string) (reason : option string)
    (files : option (list string)) (st : BookStatus.Ledger) :
  BookStatus.originalItem resolve
    (BookStatus.failBook resolve move item reason files st) x
  = BookStatus.originalItem resolve st x.
Proof. unfold BookStatus.failBook. now case_bool_decide. Qed.

Lemma failBook_NoDup (item : string) (reason : option string)
    (files : option (list string)) (st : BookStatus.Ledger) :
  NoDup (BookStatus._fails st) ->
  NoDup (BookStatus._fails
           (BookStatus.failBook resolve move item reason files st)).
Proof.
  intros Hnd. unfold BookStatus.failBook. case_bool_decide; cbn; [exact Hnd|].
  apply NoDup_app. split; [exact Hnd|]. split.
  - intros x Hx Hx'. apply list_elem_of_singleton in Hx'. now subst x.
  - apply NoDup_singleton.
Qed.

Lemma run_fails_NoDup (calls : list BookStatus.Call) (st : BookStatus.Ledger) :
  NoDup (BookStatus._fails st) ->
  NoDup (BookStatus._fails (BookStatus.run resolve move calls st)).
Proof.
  revert st. induction calls as [|c calls IH]; intros st Hnd; [exact Hnd|].
  cbn [BookStatus.run fold_left]. apply IH.
  destruct c as [cur orig|item reason|item reason files]; cbn [BookStatus.call].
  - exact Hnd.
  - now rewrite skipBook_fails.
  - now apply failBook_NoDup.
Qed.

Lemma run_app (calls calls' : list BookStatus.Call) (st : BookStatus.Ledger) :
  BookStatus.run resolve move (calls ++ calls') st
  = BookStatus.run resolve move calls'
      (BookStatus.run resolve move calls st).
Proof. unfold BookStatus.run. apply fold_left_app. Qed.

End RegistryFacts.

(** X3: an item registered as the staged copy of an original is recorded
    under the original: the registry returns the resolved original for the
    staged path and leaves other paths alone, and a skip or a fail of the
    staged path appends the resolved original, not the staged path, to the
    ledger. *)
Theorem X3_staged_item_recorded_under_original
    (resolve : string -> string) (move : bool)
    (st : BookStatus.Ledger) (staged original : string)
    (reason : option string) (files : option (list string)) :
  let st' := BookStatus.setOriginalPath resolve staged original st in
  staged ∉ BookStatus._skips st ->
  resolve original ∉ BookStatus._fails st ->
  Registry.getOriginalPath resolve staged st' = Some (resolve original)
  /\ (forall other, resolve other <> resolve staged ->
        Registry.getOriginalPath resolve other st'
        = Registry.getOriginalPath resolve other st)
  /\ BookStatus._skips (BookStatus.skipBook resolve move staged reason st')
     = BookStatus._skips st ++ [resolve original]
  /\ BookStatus._fails
       (BookStatus.failBook resolve move staged reason files st')
     = BookStatus._fails st ++ [resolve original].
Proof.
  intros st' Hs Hf.
  assert (BookStatus.originalItem resolve st' staged = resolve original) as Ho.
  { unfold BookStatus.originalItem, st', BookStatus.setOriginalPath. cbn.
    now rewrite lookup_insert_eq. }
  split; [|split; [|split]].
  - unfold Registry.getOriginalPath, st', BookStatus.setOriginalPath. cbn.
    apply lookup_insert_eq.
  - intros other Hne.
    unfold Registry.getOriginalPath, st', BookStatus.setOriginalPath. cbn.
    apply lookup_insert_ne. congruence.
  - unfold BookStatus.skipBook. rewrite Ho.
    change (BookStatus._skips st') with (BookStatus._skips st).
    now rewrite bool_decide_eq_false_2.
  - unfold BookStatus.failBook. rewrite Ho.
    change (BookStatus._fails st') with (BookStatus._fails st).
    now rewrite bool_decide_eq_false_2.
Qed.

Lemma X3_staged_item_recorded_under_original_witness :
  Registry.getOriginalPath (fun p => p) "/out/Ultimate temp/a.mp3"
    (BookStatus.setOriginalPath (fun p => p)
       "/out/Ultimate temp/a.mp3" "/in/a.mp3" BookStatus.empty)
  = Some "/in/a.mp3"%string.
Proof.
  apply (X3_staged_item_recorded_under_original (fun p => p) false
           BookStatus.empty "/out/Ultimate temp/a.mp3" "/in/a.mp3" None None);
    cbn; apply not_elem_of_nil.
Defined.

Lemma failBook_again (resolve : string -> string) (move : bool)
    (item : string) (reason reason' : option string)
    (files files' : option (list string)) (st : BookStatus.Ledger) :
  BookStatus._fails
    (BookStatus.failBook resolve move item reason' files'
       (BookStatus.failBook resolve move item reason files st))
  = BookStatus._fails (BookStatus.failBook resolve move item reason files st).
Proof.
  assert (BookStatus.originalItem resolve st item
          ∈ BookStatus._fails
              (BookStatus.failBook resolve move item reason files st)) as Hin.
  { unfold BookStatus.failBook. case_bool_decide; cbn; [assumption|].
    apply elem_of_app. right. apply list_elem_of_singleton. reflexivity. }
  remember (BookStatus.failBook resolve move item reason files st) as once
    eqn:Honce.
  assert (BookStatus.originalItem resolve once item
          = BookStatus.originalItem resolve st item) as Ho.
  { subst once. apply originalItem_failBook. }
  unfold BookStatus.failBook. rewrite Ho.
  now rewrite bool_decide_eq_true_2.
Qed.

(** X4: the fail ledger never holds a path twice: no run of ledger calls
    from the empty ledgers produces a duplicate in it, and failing an item
    a second time, whatever the reason given, changes neither ledger. *)
Theorem X4_fail_ledger_has_no_duplicates
    (resolve : string -> string) (move : bool) :
  (forall calls,
     NoDup (BookStatus._fails
              (BookStatus.run resolve move calls BookStatus.empty)))
  /\ (forall st item reason files reason' files',
        let once := BookStatus.failBook resolve move item reason files st in
        let twice := BookStatus.failBook resolve move item reason' files' once in
        BookStatus._fails twice = BookStatus._fails once
        /\ BookStatus._skips twice = BookStatus._skips once).
Proof.
  split.
  - intros calls. apply run_fails_NoDup. constructor.
  - intros st item reason files reason' files' once twice. split.
    + unfold twice, once. apply failBook_again.
    + unfold twice. apply failBook_skips.
Qed.

Lemma skipBook_skips_fresh (resolve : string -> string) (move : bool)
    (item : string) (reason : option string) (st : BookStatus.Ledger) :
  item ∉ BookStatus._skips st ->
  BookStatus._skips (BookStatus.skipBook resolve move item reason st)
  = BookStatus._skips st ++ [BookStatus.originalItem resolve st item].
Proof.
  intros Hnot. unfold BookStatus.skipBook.
  now rewrite bool_decide_eq_false_2.
Qed.

Lemma skipBook_skips_present (resolve : string -> string) (move : bool)
    (item : string) (reason : option string) (st : BookStatus.Ledger) :
  item ∈ BookStatus._skips st ->
  BookStatus._skips (BookStatus.skipBook resolve move item reason st)
  = BookStatus._skips st.
Proof.
  intros Hin. unfold BookStatus.skipBook.
  now rewrite bool_decide_eq_true_2.
Qed.

(** X5: the skip ledger is guarded by the path given, not by the original
    it stands for: skipping an item that is not in the ledger twice adds
    it once when the item is its own original, and adds the original twice
    when the item is a staged copy of another path. *)
Theorem X5_skip_guard_uses_the_given_path
    (resolve : string -> string) (move : bool)
    (st : BookStatus.Ledger) (item : string) (reason reason' : option string) :
  item ∉ BookStatus._skips st ->
  let original := BookStatus.originalItem resolve st item in
  let twice :=
    BookStatus.skipBook resolve move item reason'
      (BookStatus.skipBook resolve move item reason st) in
  (original = item -> BookStatus._skips twice = BookStatus._skips st ++ [item])
  /\ (original <> item ->
      BookStatus._skips twice = BookStatus._skips st ++ [original; original]).
Proof.
  intros Hnot original twice.
  pose proof (skipBook_skips_fresh resolve move item reason st Hnot) as Hone.
  fold original in Hone.
  split; intros Ho.
  - unfold twice. rewrite skipBook_skips_present; [now rewrite Hone, Ho|].
    rewrite Hone. apply elem_of_app. right. apply list_elem_of_singleton.
    congruence.
  - unfold twice. rewrite skipBook_skips_fresh.
    + rewrite Hone, originalItem_skipBook. fold original.
      now rewrite <- app_assoc.
    + rewrite Hone.
      intros Hin. apply elem_of_app in Hin as [Hin|Hin]; [now apply Hnot|].
      apply list_elem_of_singleton in Hin. congruence.
Qed.

Lemma X5_skip_guard_uses_the_given_path_witness :
  let st := BookStatus.setOriginalPath (fun p => p)
              "/out/Ultimate temp/a.mp3" "/in/a.mp3" BookStatus.empty in
  BookStatus._skips
    (BookStatus.skipBook (fun p => p) false "/out/Ultimate temp/a.mp3" None
       (BookStatus.skipBook (fun p => p) false "/out/Ultimate temp/a.mp3" None
          st))
  = ["/in/a.mp3"; "/in/a.mp3"]%string.
Proof.
  intros st.
  refine (proj2 (X5_skip_guard_uses_the_given_path (fun p => p) false st
                   "/out/Ultimate temp/a.mp3" None None _) _).
  - cbn. apply not_elem_of_nil.
  - vm_compute. discriminate.
Defined.

Lemma skipBook_actions_not_moved (resolve : string -> string)
    (item : string) (reason : option string) (st : BookStatus.Ledger)
    (a : BookStatus.Action) :
  a ∈ BookStatus.actions (BookStatus.skipBook resolve false item reason st) ->
  Registry.is_move a = true -> a ∈ BookStatus.actions st.
Proof.
  unfold BookStatus.skipBook.
  case_bool_decide; destruct (BookStatus._isInTempFolder item); cbn;
    rewrite ?app_nil_r, elem_of_app, ?elem_of_cons, elem_of_nil;
    intros Ha Hm; destruct a; cbn in Hm; try discriminate Hm;
    intuition discriminate.
Qed.

Lemma failBook_actions_not_moved (resolve : string -> string)
    (item : string) (reason : option string) (files : option (list string))
    (st : BookStatus.Ledger) (a : BookStatus.Action) :
  a ∈ BookStatus.actions
        (BookStatus.failBook resolve false item reason files st) ->
  Registry.is_move a = true -> a ∈ BookStatus.actions st.
Proof.
  unfold BookStatus.failBook.
  case_bool_decide; destruct (BookStatus._isInTempFolder item); cbn;
    rewrite ?app_nil_r, elem_of_app, ?elem_of_cons, elem_of_nil;
    intros Ha Hm; destruct a; cbn in Hm; try discriminate Hm;
    intuition discriminate.
Qed.

Lemma run_actions_not_moved (resolve : string -> string)
    (calls : list BookStatus.Call) (st : BookStatus.Ledger)
    (a : BookStatus.Action) :
  a ∈ BookStatus.actions (BookStatus.run resolve false calls st) ->
  Registry.is_move a = true -> a ∈ BookStatus.actions st.
Proof.
  revert st. induction calls as [|c calls IH]; intros st Ha Hm; [exact Ha|].
  cbn [BookStatus.run fold_left] in Ha. apply IH in Ha; [|exact Hm].
  destruct c as [cur orig|item reason|item reason files];
    cbn [BookStatus.call] in Ha.
  - exact Ha.
  - now apply skipBook_actions_not_moved in Ha.
  - now apply failBook_actions_not_moved in Ha.
Qed.

(** X6: the bookkeeping relocates nothing unless the run is in move mode,
    and never an item of the temp folder: in copy mode no run of ledger
    calls contains a move, and in either mode the skip of a path with the
    segment "Ultimate temp" logs, deletes that path and does nothing
    else. *)
Theorem X6_copy_mode_and_temp_items_are_never_moved
    (resolve : string -> string) :
  (forall calls a,
     a ∈ BookStatus.actions
           (BookStatus.run resolve false calls BookStatus.empty) ->
     Registry.is_move a = false)
  /\ (forall move st item reason,
        BookStatus._isInTempFolder item = true ->
        item ∉ BookStatus._skips st ->
        BookStatus.actions (BookStatus.skipBook resolve move item reason st)
        = BookStatus.actions st
          ++ [BookStatus.LogSkipping
                (BookStatus.originalItem resolve st item) reason;
              BookStatus.DeleteTempFile item])
  /\ (forall move st item reason files,
        BookStatus._isInTempFolder item = true ->
        BookStatus.originalItem resolve st item ∉ BookStatus._fails st ->
        BookStatus.actions
          (BookStatus.failBook resolve move item reason files st)
        = BookStatus.actions st
          ++ [BookStatus.LogFailed
                (BookStatus.originalItem resolve st item) reason;
              BookStatus.CreateFailMarker
                (BookStatus.originalItem resolve st item) reason files;
              BookStatus.DeleteTempFile item]).
Proof.
  split; [|split].
  - intros calls a Ha. destruct (Registry.is_move a) eqn:E; [|reflexivity].
    apply run_actions_not_moved in Ha; [|exact E].
    now apply not_elem_of_nil in Ha.
  - intros move st item reason Ht Hs. unfold BookStatus.skipBook.
    rewrite bool_decide_eq_false_2 by exact Hs. cbn. rewrite Ht.
    now rewrite andb_false_r.
  - intros move st item reason files Ht Hf. unfold BookStatus.failBook.
    rewrite bool_decide_eq_false_2 by exact Hf. cbn. rewrite Ht.
    now rewrite andb_false_r.
Qed.

(** *** Ordering by track number, continued *)

Lemma omap_replicate_None {A : Type} (n : nat) :
  omap id (replicate n (@None A)) = [].
Proof. induction n as [|n IH]; [reflexivity|exact IH]. Qed.

Lemma omap_insert_free {A : Type} (l : list (option A)) (k : nat) (x : A) :
  l !! k = Some None -> omap id (<[k := Some x]> l) ≡ₚ x :: omap id l.
Proof.
  revert k. induction l as [|[y|] l IH]; intros [|k] Hk; try discriminate Hk.
  - cbn. rewrite (IH k Hk). apply Permutation_swap.
  - reflexivity.
  - cbn. exact (IH k Hk).
Qed.

Lemma place_single_slots (tracks : list FileMerger.Track)
    (chapters final : FileMerger.Chapters) :
  FileMerger.place_single tracks chapters = Some final ->
  in_own_slot (length chapters) 0 chapters ->
  length final = length chapters
  /\ omap id final ≡ₚ omap id chapters ++ tracks
  /\ in_own_slot (length chapters) 0 final.
Proof.
  revert chapters. induction tracks as [|h rest IH]; intros chapters.
  - cbn. intros [= <-] Hinv. rewrite app_nil_r. easy.
  - cbn [FileMerger.place_single].
    destruct (FileMerger.tracknumber h) as [tag|]; [|easy].
    destruct (FileMerger.track_number h) as [e|m] eqn:Em; [easy|].
    destruct (FileMerger.py_index (length chapters) m) as [k|] eqn:Ek; [|easy].
    destruct (chapters !! k) as [[t|]|] eqn:Et; try easy.
    intros Hp Hinv. apply IH in Hp.
    + rewrite length_insert in Hp. destruct Hp as (Hlen & Hperm & Hslot).
      split; [exact Hlen|]. split; [|exact Hslot].
      rewrite Hperm, (omap_insert_free _ _ _ Et).
      apply Permutation_middle.
    + rewrite length_insert. intros i t Hi.
      destruct (decide (k = i)) as [->|Hne].
      * rewrite list_lookup_insert_eq in Hi by (eapply lookup_lt_Some, Et).
        injection Hi as <-. exists m. split; [exact Em|exact Ek].
      * rewrite list_lookup_insert_ne in Hi by exact Hne. now apply Hinv.
Qed.

Lemma trim_slots (slots : nat) (chapters pieces : FileMerger.Chapters) :
  FileMerger.trim chapters = Some pieces ->
  in_own_slot slots 0 chapters ->
  omap id pieces = omap id chapters
  /\ exists shift, (shift <= 1)%nat /\ in_own_slot slots shift pieces.
Proof.
  unfold FileMerger.trim. intros Htrim Hinv.
  destruct (chapters !! 0%nat) as [first|] eqn:E0; [|discriminate Htrim].
  set (middle := match first with
                 | None => drop 1 chapters | Some _ => chapters end) in *.
  assert (omap id middle = omap id chapters
          /\ exists shift, (shift <= 1)%nat /\ in_own_slot slots shift middle)
    as (Hm & shift & Hshift & Hslot).
  { destruct first as [t|]; subst middle.
    - split; [reflexivity|]. exists 0%nat. split; [lia|exact Hinv].
    - split.
      + destruct chapters as [|c chapters]; [discriminate E0|].
        cbn in E0. injection E0 as ->. reflexivity.
      + exists 1%nat. split; [lia|]. intros i t Hi.
        rewrite lookup_drop in Hi. now apply Hinv. }
  destruct (last middle) as [final|] eqn:El; [|discriminate Htrim].
  injection Htrim as <-.
  destruct final as [t|].
  - split; [exact Hm|]. now exists shift.
  - apply last_Some in El as [l' El]. rewrite El.
    rewrite length_app, Nat.add_sub. cbn [length].
    rewrite take_app_length. split.
    + rewrite <- Hm, El, omap_app. cbn. now rewrite app_nil_r.
    + exists shift. split; [exact Hshift|]. intros i t Hi.
      apply Hslot. rewrite El. now apply lookup_app_l_Some.
Qed.

(** X7: when the single-disc ordering by track number succeeds, its result
    holds every track exactly once, and each track sits in the slot that its
    track number denotes (negative numbers count from the end), the slots
    counted from 0 or from 1. *)
Theorem X7_single_disc_order_places_every_track_in_its_slot
    (tracks : list FileMerger.Track) :
  FileMerger.orderByTrackNumber tracks false <> [] ->
  omap id (FileMerger.orderByTrackNumber tracks false) ≡ₚ tracks
  /\ exists shift : nat,
       (shift <= 1)%nat
       /\ forall (i : nat) (t : FileMerger.Track),
            FileMerger.orderByTrackNumber tracks false !! i = Some (Some t) ->
            exists n, FileMerger.track_number t = inr n
                      /\ FileMerger.py_index (length tracks + 1) n
                         = Some (shift + i)%nat.
Proof.
  unfold FileMerger.orderByTrackNumber.
  destruct (FileMerger.place_single tracks (replicate (length tracks + 1) None))
    as [final|] eqn:Ep; [|now intros H].
  destruct (FileMerger.trim final) as [pieces|] eqn:Et; [|now intros H].
  cbn [from_option id]. intros _.
  apply place_single_slots in Ep.
  - rewrite length_replicate in Ep. destruct Ep as (Hlen & Hperm & Hslot).
    destruct (trim_slots _ _ _ Et Hslot) as (Ho & shift & Hshift & Hs).
    split.
    + rewrite Ho, Hperm, omap_replicate_None. reflexivity.
    + exists shift. split; [exact Hshift|exact Hs].
  - intros i t Hi. apply lookup_replicate in Hi as [Hi _]. discriminate Hi.
Qed.

Lemma X7_single_disc_order_places_every_track_in_its_slot_witness :
  omap id
    (FileMerger.orderByTrackNumber
       [ FileMerger.mkTrack "b.mp3" (Some ["2/2"%string]) None 60%float;
         FileMerger.mkTrack "a.mp3" (Some ["1/2"%string]) None 30%float ]
       false)
  ≡ₚ [ FileMerger.mkTrack "b.mp3" (Some ["2/2"%string]) None 60%float;
       FileMerger.mkTrack "a.mp3" (Some ["1/2"%string]) None 30%float ].
Proof.
  refine (proj1 (X7_single_disc_order_places_every_track_in_its_slot
                   [ FileMerger.mkTrack "b.mp3" (Some ["2/2"%string]) None 60%float;
                     FileMerger.mkTrack "a.mp3" (Some ["1/2"%string]) None 30%float ]
                   _)).
  vm_compute. discriminate.
Defined.

(** *** The disc limit *)

Lemma on_discs_length_le (lo hi : Z) (tracks : list FileMerger.Track) :
  (length (on_discs lo hi tracks) <= length tracks)%nat.
Proof. apply List.filter_length_le. Qed.

Lemma on_discs_missing (lo hi : Z) (tracks : list FileMerger.Track)
    (t : FileMerger.Track) (d : Z) :
  t ∈ tracks -> FileMerger.disc_number t = inr d -> (d < lo \/ hi <= d) ->
  (length (on_discs lo hi tracks) < length tracks)%nat.
Proof.
  intros Hin Hd Hout. induction tracks as [|h rest IH].
  - now apply not_elem_of_nil in Hin.
  - apply elem_of_cons in Hin as [<-|Hin].
    + unfold on_discs. cbn [List.filter]. rewrite Hd.
      replace ((lo <=? d) && (d <? hi)) with false by lia.
      pose proof (on_discs_length_le lo hi rest). unfold on_discs in *.
      cbn [length]. lia.
    + specialize (IH Hin). unfold on_discs in *. cbn [List.filter].
      destruct (match FileMerger.disc_number h with
                | inr d0 => (lo <=? d0) && (d0 <? hi) | inl _ => false end);
        cbn [length]; lia.
Qed.

Lemma on_discs_next (disk : Z) (tracks : list FileMerger.Track) :
  1 <= disk ->
  Z.of_nat (length (on_discs 1 (disk + 1) tracks))
  = Z.of_nat (length (on_discs 1 disk tracks))
    + Z.of_nat (length (on_discs disk (disk + 1) tracks)).
Proof.
  intros Hd. induction tracks as [|h rest IH]; [reflexivity|].
  unfold on_discs in *. cbn [List.filter].
  destruct (FileMerger.disc_number h) as [e|d]; [exact IH|].
  destruct (Z_lt_ge_dec d 1); [|destruct (Z_lt_ge_dec d disk);
    [|destruct (Z.eq_dec d disk)]].
  - replace ((1 <=? d) && (d <? disk + 1)) with false by lia.
    replace ((1 <=? d) && (d <? disk)) with false by lia.
    replace ((disk <=? d) && (d <? disk + 1)) with false by lia. exact IH.
  - replace ((1 <=? d) && (d <? disk + 1)) with true by lia.
    replace ((1 <=? d) && (d <? disk)) with true by lia.
    replace ((disk <=? d) && (d <? disk + 1)) with false by lia.
    cbn [length]. lia.
  - replace ((1 <=? d) && (d <? disk + 1)) with true by lia.
    replace ((1 <=? d) && (d <? disk)) with false by lia.
    replace ((disk <=? d) && (d <? disk + 1)) with true by lia.
    cbn [length]. lia.
  - replace ((1 <=? d) && (d <? disk + 1)) with false by lia.
    replace ((1 <=? d) && (d <? disk)) with false by lia.
    replace ((disk <=? d) && (d <? disk + 1)) with false by lia. exact IH.
Qed.

(** One pass over the tracks counts the tracks of the disc. *)
Lemma place_disc_count (disk offset : Z) (tracks : list FileMerger.Track)
    (chapters chapters' : FileMerger.Chapters) (tracksDone tracksDone' : Z) :
  FileMerger.place_disc disk offset tracks chapters tracksDone
  = Some (chapters', tracksDone') ->
  tracksDone'
  = tracksDone + Z.of_nat (length (on_discs disk (disk + 1) tracks)).
Proof.
  revert chapters tracksDone.
  induction tracks as [|h rest IH]; intros chapters tracksDone.
  - cbn. intros [= _ <-]. lia.
  - cbn [FileMerger.place_disc]. unfold on_discs. cbn [List.filter].
    destruct (FileMerger.disc_number h) as [e|d]; [easy|].
    destruct (FileMerger.track_number h) as [e|n]; [easy|].
    destruct (d =? disk) eqn:Ed.
    + destruct (FileMerger.py_index _ _) as [k|]; [|easy].
      intros Hp. apply IH in Hp. unfold on_discs in Hp.
      replace ((disk <=? d) && (d <? disk + 1)) with true by lia.
      cbn [length]. lia.
    + intros Hp. apply IH in Hp. unfold on_discs in Hp.
      replace ((disk <=? d) && (d <? disk + 1)) with false by lia.
      exact Hp.
Qed.

Lemma place_discs_reaches_the_limit (tracks : list FileMerger.Track)
    (t : FileMerger.Track) (d : Z) :
  t ∈ tracks -> FileMerger.disc_number t = inr d -> (d < 1 \/ 10 <= d) ->
  forall (left : nat) (disk : Z) (chapters chapters' : FileMerger.Chapters)
         (tracksDone disk' : Z),
    1 <= disk -> disk + Z.of_nat left = 12 ->
    tracksDone = Z.of_nat (length (on_discs 1 disk tracks)) ->
    FileMerger.place_discs left disk tracks chapters tracksDone
    = Some (chapters', disk') ->
    FileMerger.maxDisk < disk'.
Proof.
  intros Hin Hd Hout. unfold FileMerger.maxDisk.
  induction left as [|left IH];
    intros disk chapters chapters' tracksDone disk' H1 Hfuel Hdone.
  - cbn. intros [= _ <-]. lia.
  - cbn [FileMerger.place_discs]. unfold FileMerger.maxDisk.
    destruct (Z_le_gt_dec disk 10) as [Hle|Hgt].
    + assert ((tracksDone <? Z.of_nat (length tracks)) = true) as ->.
      { apply Z.ltb_lt. subst tracksDone.
        pose proof (on_discs_missing 1 disk tracks t d Hin Hd). lia. }
      replace (disk <=? 10) with true by lia. cbn [andb].
      destruct (FileMerger.place_disc disk tracksDone tracks chapters tracksDone)
        as [[chapters1 tracksDone1]|] eqn:Ep; [|easy].
      apply place_disc_count in Ep.
      apply IH; [lia|lia|]. rewrite on_discs_next by exact H1. lia.
    + replace (disk <=? 10) with false by lia. rewrite andb_false_r.
      intros [= _ <-]. lia.
Qed.

(** X8: the multi-disc ordering gives up on any set that has a track whose
    disc number is below 1 or is 10 or more: the result is the empty list,
    whatever the other tracks are. *)
Theorem X8_multi_disc_order_rejects_disc_ten
    (tracks : list FileMerger.Track) (t : FileMerger.Track) (d : Z) :
  t ∈ tracks -> FileMerger.disc_number t = inr d -> (d < 1 \/ 10 <= d) ->
  FileMerger.orderByTrackNumber tracks true = [].
Proof.
  intros Hin Hd Hout. unfold FileMerger.orderByTrackNumber.
  destruct (FileMerger.place_discs 11 1 tracks
              (replicate (length tracks + 1) None) 0)
    as [[chapters' disk']|] eqn:Ep; [|reflexivity].
  apply (place_discs_reaches_the_limit tracks t d Hin Hd Hout) in Ep;
    [|lia|reflexivity|].
  - apply Z.ltb_lt in Ep. now rewrite Ep.
  - clear. induction tracks as [|h rest IH]; [reflexivity|].
    unfold on_discs in *. cbn [List.filter].
    destruct (FileMerger.disc_number h) as [e|d]; [exact IH|].
    replace ((1 <=? d) && (d <? 1)) with false by lia. exact IH.
Qed.

Lemma X8_multi_disc_order_rejects_disc_ten_witness :
  FileMerger.orderByTrackNumber
    [ FileMerger.mkTrack "a.mp3" (Some ["1"%string]) (Some ["10"%string])
        30%float ]
    true = [].
Proof.
  apply (X8_multi_disc_order_rejects_disc_ten _
           (FileMerger.mkTrack "a.mp3" (Some ["1"%string]) (Some ["10"%string])
              30%float) 10).
  - apply list_elem_of_singleton. reflexivity.
  - reflexivity.
  - lia.
Defined.

(** *** Ordering by title, continued *)

Lemma alphanumeric_map_tracks (whichNum : nat) (tracks : list FileMerger.Track)
    (trackMap items : list ((Z * string) * FileMerger.Track)) :
  FileMerger.alphanumeric_map whichNum tracks trackMap = Some items ->
  items.*2 = trackMap.*2 ++ tracks.
Proof.
  revert trackMap. induction tracks as [|h rest IH]; intros trackMap.
  - cbn. intros [= <-]. now rewrite app_nil_r.
  - cbn [FileMerger.alphanumeric_map].
    destruct (FileMerger.findAlphanumericKey _ _) as [key|]; [|easy].
    case_bool_decide; [easy|]. intros Hm. apply IH in Hm.
    rewrite Hm, fmap_app. cbn. now rewrite <- app_assoc.
Qed.

Lemma alphanumeric_attempts_Permutation (positions : list nat)
    (tracks : list FileMerger.Track) :
  FileMerger.alphanumeric_attempts positions tracks = []
  \/ FileMerger.alphanumeric_attempts positions tracks ≡ₚ tracks.
Proof.
  induction positions as [|w later IH]; [now left|].
  cbn [FileMerger.alphanumeric_attempts].
  destruct (FileMerger.alphanumeric_map w tracks []) as [[|item items]|] eqn:Em;
    try exact IH.
  pose proof (sort_Permutation (fun a b => FileMerger.tuple_leb a.1 b.1)
                (item :: items)) as P.
  destruct (StableSort.sort _ (item :: items)) as [|[first v] ordered];
    [exact IH|].
  destruct ((first.1 =? 0) || (first.1 =? 1)); [|exact IH].
  right. apply alphanumeric_map_tracks in Em.
  change (map snd ((first, v) :: ordered)) with (((first, v) :: ordered).*2).
  rewrite P, Em. reflexivity.
Qed.

Lemma set_item_keys (key : Z) (track : FileMerger.Track)
    (trackMap : list (Z * FileMerger.Track)) (k : Z) :
  k ∈ trackMap.*1 \/ k = key ->
  k ∈ (FileMerger.set_item key track trackMap).*1.
Proof.
  induction trackMap as [|[k' v] rest IH]; cbn.
  - intros [H| ->]; [now apply not_elem_of_nil in H|]. apply list_elem_of_here.
  - destruct (k' =? key) eqn:E; cbn.
    + apply Z.eqb_eq in E. subst k'.
      intros [H| ->]; [exact H|apply list_elem_of_here].
    + intros [H| ->].
      * apply elem_of_cons in H as [->|H]; [apply list_elem_of_here|].
        apply list_elem_of_further, IH. now left.
      * apply list_elem_of_further, IH. now right.
Qed.

Lemma set_item_fresh (key : Z) (track : FileMerger.Track)
    (trackMap : list (Z * FileMerger.Track)) :
  key ∉ trackMap.*1 ->
  FileMerger.set_item key track trackMap = trackMap ++ [(key, track)].
Proof.
  induction trackMap as [|[k v] rest IH]; cbn; [reflexivity|].
  intros Hnot. apply not_elem_of_cons in Hnot as [Hne Hnot].
  destruct (k =? key) eqn:E; [apply Z.eqb_eq in E; congruence|].
  now rewrite IH.
Qed.

Lemma numeric_map_keys (whichNum : nat) (tracks : list FileMerger.Track)
    (trackMap items : list (Z * FileMerger.Track)) (k : Z) :
  FileMerger.numeric_map whichNum tracks trackMap = FileMerger.TrackMap items ->
  k ∈ trackMap.*1 -> k ∈ items.*1.
Proof.
  revert trackMap. induction tracks as [|h rest IH]; intros trackMap.
  - cbn. now intros [= <-].
  - cbn [FileMerger.numeric_map]. cbv zeta.
    destruct (bool_decide _ && _); [easy|].
    intros Hm Hk. apply (IH _ Hm). apply set_item_keys. now left.
Qed.

Lemma numeric_map_tracks (whichNum : nat) (tracks : list FileMerger.Track)
    (trackMap items : list (Z * FileMerger.Track)) :
  FileMerger.numeric_map whichNum tracks trackMap = FileMerger.TrackMap items ->
  -1 ∉ items.*1 ->
  items.*2 = trackMap.*2 ++ tracks.
Proof.
  revert trackMap. induction tracks as [|h rest IH]; intros trackMap.
  - cbn. intros [= <-] _. now rewrite app_nil_r.
  - cbn [FileMerger.numeric_map]. cbv zeta.
    set (key := FileMerger.findTitleNum _ _).
    destruct (bool_decide (key ∈ trackMap.*1) && negb (key =? -1)) eqn:E;
      [easy|].
    intros Hm Hnot. rewrite (IH _ Hm Hnot).
    assert (key ∉ trackMap.*1) as Hfresh.
    { intros Hin. rewrite bool_decide_eq_true_2 in E by exact Hin.
      cbn in E. apply negb_false_iff, Z.eqb_eq in E.
      apply Hnot. apply (numeric_map_keys _ _ _ _ _ Hm).
      apply set_item_keys. now right. }
    rewrite (set_item_fresh _ _ _ Hfresh), fmap_app. cbn.
    now rewrite <- app_assoc.
Qed.

Lemma numeric_attempts_Permutation (positions : list nat)
    (tracks tracksOut : list FileMerger.Track) :
  FileMerger.numeric_attempts positions tracks
  = FileMerger.NumericOrder tracksOut ->
  tracksOut ≡ₚ tracks.
Proof.
  induction positions as [|w later IH]; [easy|].
  cbn [FileMerger.numeric_attempts].
  destruct (FileMerger.numeric_map w tracks []) as [|items] eqn:Em;
    [exact IH|].
  cbv zeta. case_bool_decide as Hminus; [easy|].
  pose proof (sort_Permutation (fun a b => a.1 <=? b.1) items) as P.
  destruct (StableSort.sort _ items) as [|[first v] ordered]; [easy|].
  destruct ((first =? 0) || (first =? 1)); [|exact IH].
  intros [= <-]. apply numeric_map_tracks in Em; [|exact Hminus].
  change (((first, v) :: ordered).*2 ≡ₚ tracks).
  rewrite P, Em. reflexivity.
Qed.

(** X9: the ordering by title loses no track and invents none: on a
    non-empty list of tracks it returns a permutation of the tracks, by
    whichever of its three strategies it ends with; on the empty list it
    ends with the [IndexError] that nothing catches. *)
Theorem X9_orderByTitle_returns_a_permutation
    (tracks : list FileMerger.Track) :
  match FileMerger.orderByTitle tracks with
  | Some result => tracks <> [] /\ result ≡ₚ tracks
  | None => tracks = []
  end.
Proof.
  destruct tracks as [|t tracks]; [reflexivity|].
  assert (t :: tracks <> []) as Hne by discriminate.
  generalize dependent (t :: tracks). clear t tracks. intros l Hne.
  destruct (orderByTitle_not_nil l Hne) as (pieces & Ho & _).
  rewrite Ho. split; [exact Hne|].
  unfold FileMerger.orderByTitle in Ho.
  destruct (FileMerger.orderByTitleAlphanumeric l) as [|p ps] eqn:Ea.
  - destruct (FileMerger.numeric_attempts FileMerger.positions l)
      as [out| |] eqn:En; [| |discriminate Ho].
    + injection Ho as <-. now apply numeric_attempts_Permutation in En.
    + injection Ho as <-. apply sort_Permutation.
  - injection Ho as <-.
    destruct (alphanumeric_attempts_Permutation FileMerger.positions l)
      as [H|H]; unfold FileMerger.orderByTitleAlphanumeric in Ea;
      rewrite Ea in H; [discriminate H|exact H].
Qed.

(** *** Whitespace *)

Lemma of_to_string (l : Text.chars) : Text.of_string (Text.to_string l) = l.
Proof. apply list_ascii_of_string_of_list_ascii. Qed.

Lemma to_of_string (s : string) : Text.to_string (Text.of_string s) = s.
Proof. apply string_of_list_ascii_of_string. Qed.

Lemma collapse_spaced (b : bool) (l : Text.chars) :
  spaced (Text.collapse_from b l) = true
  /\ (b = true -> starts_solid (Text.collapse_from b l) = true).
Proof.
  revert b. induction l as [|c r IH]; intros b; [easy|].
  cbn [Text.collapse_from]. destruct (Text.is_space c) eqn:Ec.
  - destruct b.
    + apply IH.
    + split; [|discriminate]. cbn [spaced].
      destruct (IH true) as [Hs Hh]. specialize (Hh eq_refl).
      rewrite Hs. unfold starts_solid in Hh.
      destruct (Text.collapse_from true r); [reflexivity|].
      rewrite Hh. reflexivity.
  - split.
    + cbn [spaced]. rewrite Ec. apply (IH false).
    + intros _. cbn. now rewrite Ec.
Qed.

Lemma spaced_tail (c : ascii) (r : Text.chars) :
  spaced (c :: r) = true -> spaced r = true.
Proof. cbn [spaced]. now intros [_ H]%andb_true_iff. Qed.

Lemma lstrip_spaced (l : Text.chars) :
  spaced l = true -> spaced (Text.lstrip l) = true.
Proof.
  induction l as [|c r IH]; [easy|]. intros H. cbn [Text.lstrip].
  destruct (Text.is_space c); [|exact H]. apply IH, (spaced_tail c), H.
Qed.

Lemma lstrip_starts_solid (l : Text.chars) :
  starts_solid (Text.lstrip l) = true.
Proof.
  induction l as [|c r IH]; [reflexivity|]. cbn [Text.lstrip].
  destruct (Text.is_space c) eqn:Ec; [exact IH|]. cbn. now rewrite Ec.
Qed.

Lemma lstrip_app (a b : Text.chars) :
  Text.lstrip (a ++ b)
  = if forallb Text.is_space a then Text.lstrip b else Text.lstrip a ++ b.
Proof.
  induction a as [|c a IH]; [reflexivity|]. cbn.
  destruct (Text.is_space c); [exact IH|reflexivity].
Qed.

Lemma lstrip_all_space (l : Text.chars) :
  forallb Text.is_space l = true -> Text.lstrip l = [].
Proof.
  induction l as [|c l IH]; [reflexivity|]. cbn.
  destruct (Text.is_space c); [exact IH|discriminate].
Qed.

Lemma lstrip_some_solid (l : Text.chars) :
  forallb Text.is_space l = false -> Text.lstrip l <> [].
Proof.
  induction l as [|c l IH]; [discriminate|]. cbn.
  destruct (Text.is_space c); [exact IH|discriminate].
Qed.

Lemma rstrip_cons (c : ascii) (l : Text.chars) :
  Text.rstrip (c :: l)
  = match Text.rstrip l with
    | [] => if Text.is_space c then [] else [c]
    | r => c :: r
    end.
Proof.
  unfold Text.rstrip. cbn [rev]. rewrite lstrip_app.
  destruct (forallb Text.is_space (rev l)) eqn:E.
  - rewrite (lstrip_all_space _ E). cbn.
    now destruct (Text.is_space c).
  - pose proof (lstrip_some_solid _ E) as Hne.
    rewrite rev_app_distr. cbn.
    destruct (rev (Text.lstrip (rev l))) eqn:Er; [|reflexivity].
    apply (f_equal (@rev ascii)) in Er. rewrite rev_involutive in Er.
    now elim Hne.
Qed.

Lemma rstrip_solid_head (c : ascii) (l : Text.chars) :
  Text.is_space c = false -> exists r, Text.rstrip (c :: l) = c :: r.
Proof.
  intros Ec. rewrite rstrip_cons, Ec.
  destruct (Text.rstrip l); eauto.
Qed.

Lemma rstrip_starts_solid (l : Text.chars) :
  starts_solid l = true -> starts_solid (Text.rstrip l) = true.
Proof.
  destruct l as [|c l]; [easy|]. cbn [starts_solid].
  intros Ec%negb_true_iff.
  destruct (rstrip_solid_head c l Ec) as [r ->]. cbn. now rewrite Ec.
Qed.

Lemma rstrip_single_spaced (l : Text.chars) :
  spaced l = true -> single_spaced (Text.rstrip l) = true.
Proof.
  induction l as [|c l IH]; [easy|]. cbn [spaced].
  intros [Hc Hl]%andb_true_iff. specialize (IH Hl). rewrite rstrip_cons.
  destruct (Text.rstrip l) as [|d x] eqn:Er.
  - destruct (Text.is_space c) eqn:Ec; [reflexivity|]. cbn. now rewrite Ec.
  - cbn [single_spaced] in IH |- *. rewrite IH, andb_true_r.
    destruct (Text.is_space c); [|reflexivity].
    apply andb_true_iff in Hc as [Hc Hn]. rewrite Hc. cbn.
    destruct l as [|d0 l0]; [discriminate Er|].
    destruct (rstrip_solid_head d0 l0) as [r Hr];
      [now apply negb_true_iff|].
    rewrite Hr in Er. injection Er as <- _. exact Hn.
Qed.

(** Collapsing and stripping give a tidy text. *)
Lemma strip_collapse_tidy (l : Text.chars) :
  tidy (Text.strip (Text.collapse_ws l)) = true.
Proof.
  unfold tidy, Text.strip, Text.collapse_ws. apply andb_true_iff. split.
  - apply rstrip_starts_solid, lstrip_starts_solid.
  - apply rstrip_single_spaced, lstrip_spaced, collapse_spaced.
Qed.

Lemma starts_solid_lstrip (l : Text.chars) :
  starts_solid l = true -> Text.lstrip l = l.
Proof.
  destruct l as [|c l]; [easy|]. cbn. intros Ec%negb_true_iff. now rewrite Ec.
Qed.

Lemma single_spaced_rstrip (l : Text.chars) :
  single_spaced l = true -> Text.rstrip l = l.
Proof.
  induction l as [|c l IH]; [easy|]. cbn [single_spaced].
  intros [Hc Hl]%andb_true_iff. rewrite rstrip_cons, (IH Hl).
  destruct l as [|d l]; [|reflexivity].
  destruct (Text.is_space c); [|reflexivity].
  now rewrite andb_false_r in Hc.
Qed.

Lemma single_spaced_collapse (l : Text.chars) :
  single_spaced l = true -> Text.collapse_from false l = l.
Proof.
  induction l as [|c l IH]; [easy|]. cbn [single_spaced].
  intros [Hc Hl]%andb_true_iff. cbn [Text.collapse_from].
  specialize (IH Hl).
  destruct (Text.is_space c); [|now rewrite IH].
  apply andb_true_iff in Hc as [Hc Hn]. apply eqb_char_true in Hc. subst c.
  destruct l as [|d l]; [discriminate Hn|].
  cbn [Text.collapse_from] in IH |- *.
  apply negb_true_iff in Hn. rewrite Hn in IH |- *. now rewrite IH.
Qed.

(** A tidy text is a fixed point of collapsing and stripping. *)
Lemma tidy_strip_collapse (l : Text.chars) :
  tidy l = true -> Text.strip (Text.collapse_ws l) = l.
Proof.
  unfold tidy. intros [Hh Hs]%andb_true_iff.
  unfold Text.strip, Text.collapse_ws.
  rewrite (single_spaced_collapse _ Hs), (starts_solid_lstrip _ Hh).
  apply single_spaced_rstrip, Hs.
Qed.

Lemma Forall_lstrip (P : ascii -> Prop) (l : Text.chars) :
  Forall P l -> Forall P (Text.lstrip l).
Proof.
  induction 1 as [|c l Hc Hl IH]; [constructor|]. cbn.
  destruct (Text.is_space c); [exact IH|now constructor].
Qed.

Lemma Forall_strip (P : ascii -> Prop) (l : Text.chars) :
  Forall P l -> Forall P (Text.strip l).
Proof.
  intros H. unfold Text.strip, Text.rstrip.
  apply List.Forall_rev, Forall_lstrip, List.Forall_rev, Forall_lstrip, H.
Qed.

Lemma Forall_collapse (P : ascii -> Prop) (b : bool) (l : Text.chars) :
  P " "%char -> Forall P l -> Forall P (Text.collapse_from b l).
Proof.
  intros Hsp H. revert b. induction H as [|c l Hc Hl IH]; intros b;
    [constructor|].
  cbn. destruct (Text.is_space c); [destruct b|]; try constructor; auto.
Qed.

Lemma Forall_remove_class (cls : ascii -> bool) (l : Text.chars) :
  Forall (fun c => cls c = false) (Text.remove_class cls l).
Proof.
  unfold Text.remove_class. apply List.Forall_forall. intros c Hc.
  apply List.filter_In in Hc as [_ Hc]. now apply negb_true_iff.
Qed.

Lemma remove_class_clean (cls : ascii -> bool) (l : Text.chars) :
  Forall (fun c => cls c = false) l -> Text.remove_class cls l = l.
Proof.
  unfold Text.remove_class. induction 1 as [|c l Hc Hl IH]; [reflexivity|].
  cbn. now rewrite Hc, IH.
Qed.

Lemma solid_lstrip (l : Text.chars) : solid (Text.lstrip l) = solid l.
Proof.
  induction l as [|c l IH]; [reflexivity|]. cbn.
  destruct (Text.is_space c) eqn:Ec; cbn; [exact IH|]. now rewrite Ec.
Qed.

Lemma solid_rev (l : Text.chars) : solid (rev l) = rev (solid l).
Proof.
  unfold solid. induction l as [|c l IH]; [reflexivity|]. cbn.
  rewrite List.filter_app, IH. cbn.
  destruct (negb (Text.is_space c)); cbn; [reflexivity|apply app_nil_r].
Qed.

Lemma solid_strip (l : Text.chars) : solid (Text.strip l) = solid l.
Proof.
  unfold Text.strip, Text.rstrip.
  now rewrite solid_rev, solid_lstrip, solid_rev, rev_involutive, solid_lstrip.
Qed.

Lemma solid_collapse (b : bool) (l : Text.chars) :
  solid (Text.collapse_from b l) = solid l.
Proof.
  revert b. induction l as [|c l IH]; intros b; [reflexivity|]. cbn.
  destruct (Text.is_space c) eqn:Ec; cbn.
  - destruct b; cbn; apply IH.
  - rewrite Ec. cbn. now rewrite IH.
Qed.

Lemma solid_remove_class (cls : ascii -> bool) (l : Text.chars) :
  solid (Text.remove_class cls l)
  = List.filter (fun c => negb (Text.is_space c) && negb (cls c)) l.
Proof.
  unfold solid, Text.remove_class. induction l as [|c l IH]; [reflexivity|].
  cbn. destruct (cls c), (Text.is_space c) eqn:Ec; cbn; rewrite ?Ec; cbn;
    now rewrite IH.
Qed.

(** *** Names for paths *)

(** X10: the title cleaned for a path holds none of the characters of the
    class, has no whitespace but single spaces between other characters,
    keeps every other character of the title in order, and is left
    unchanged by a second cleaning. *)
Theorem X10_cleanTitleForPath_is_clean_and_idempotent (title : string) :
  let cleaned := Text.of_string (PathNames.cleanTitleForPath title) in
  Forall (fun c => PathNames.is_invalid_title_char c = false) cleaned
  /\ tidy cleaned = true
  /\ solid cleaned
     = List.filter (fun c => negb (Text.is_space c)
                             && negb (PathNames.is_invalid_title_char c))
         (Text.of_string title)
  /\ PathNames.cleanTitleForPath (PathNames.cleanTitleForPath title)
     = PathNames.cleanTitleForPath title.
Proof.
  cbv zeta.
  assert (forall t : Text.chars,
            let r := Text.strip (Text.collapse_ws
                       (Text.remove_class PathNames.is_invalid_title_char t)) in
            Forall (fun c => PathNames.is_invalid_title_char c = false) r
            /\ tidy r = true
            /\ solid r
               = List.filter (fun c => negb (Text.is_space c)
                                 && negb (PathNames.is_invalid_title_char c)) t)
    as Hgen.
  { intros t r. split; [|split].
    - apply Forall_strip, Forall_collapse; [reflexivity|].
      apply Forall_remove_class.
    - apply strip_collapse_tidy.
    - unfold r, Text.collapse_ws.
      now rewrite solid_strip, solid_collapse, solid_remove_class. }
  destruct (Text.of_string title) as [|c t] eqn:Et.
  - assert (PathNames.cleanTitleForPath title = title) as ->
      by (unfold PathNames.cleanTitleForPath; now rewrite Et).
    rewrite Et. split; [constructor|]. split; [reflexivity|].
    split; [reflexivity|].
    unfold PathNames.cleanTitleForPath. now rewrite Et.
  - destruct (Hgen (c :: t)) as (Hclean & Htidy & Hsolid).
    set (r := Text.strip _) in *.
    assert (PathNames.cleanTitleForPath title = Text.to_string r) as ->
      by (unfold PathNames.cleanTitleForPath; now rewrite Et).
    rewrite of_to_string. split; [exact Hclean|]. split; [exact Htidy|].
    split; [exact Hsolid|].
    unfold PathNames.cleanTitleForPath. rewrite of_to_string.
    destruct r as [|d r'] eqn:Er; [reflexivity|].
    rewrite (remove_class_clean _ _ Hclean).
    now rewrite (tidy_strip_collapse _ Htidy).
Qed.

(** X11: the author cleaned for a path is either the input, returned as it
    is, or a text that holds none of the characters of the class and has no
    whitespace but single spaces between other characters; the first case
    keeps whatever the input holds. *)
Theorem X11_cleanAuthorForPath_is_unchanged_or_clean (author : string) :
  (PathNames.cleanAuthorForPath author = author
   \/ (Forall (fun c => PathNames.is_invalid_path_char c = false)
         (Text.of_string (PathNames.cleanAuthorForPath author))
       /\ tidy (Text.of_string (PathNames.cleanAuthorForPath author)) = true))
  /\ PathNames.cleanAuthorForPath " , <Bob>" = " , <Bob>"%string.
Proof.
  split; [|vm_compute; reflexivity].
  unfold PathNames.cleanAuthorForPath.
  destruct (Text.of_string author) as [|c a]; [now left|].
  cbv zeta.
  destruct (match PathNames.first_author _ with
            | Some seg => seg
            | None => _
            end) as [|d cleaned]; [now left|].
  right. rewrite of_to_string. split.
  - apply Forall_strip, Forall_collapse; [reflexivity|].
    apply Forall_remove_class.
  - apply strip_collapse_tidy.
Qed.

(** *** The match-confidence scorer, continued *)

Lemma eqb_chars_sym (a b : Text.chars) :
  Text.eqb_chars a b = Text.eqb_chars b a.
Proof.
  destruct (Text.eqb_chars a b) eqn:E.
  - apply eqb_chars_true in E. subst b. symmetry. now apply eqb_chars_true.
  - destruct (Text.eqb_chars b a) eqn:E'; [|reflexivity].
    apply eqb_chars_true in E'. subst b.
    rewrite (proj2 (eqb_chars_true a a) eq_refl) in E. discriminate E.
Qed.

Lemma overlap_score_sym (a b : Text.chars) :
  Confidence.overlap_score a b = Confidence.overlap_score b a.
Proof.
  unfold Confidence.overlap_score. cbv zeta.
  rewrite (andb_comm (bool_decide (Confidence.words a ≠ ∅))).
  assert (Confidence.words a ∩ Confidence.words b
          = Confidence.words b ∩ Confidence.words a) as ->
    by apply intersection_comm_L.
  assert (Confidence.words a ∪ Confidence.words b
          = Confidence.words b ∪ Confidence.words a) as ->
    by apply union_comm_L.
  reflexivity.
Qed.

Lemma titleScore_sym (a b : Text.chars) :
  Confidence.titleScore a b = Confidence.titleScore b a.
Proof.
  unfold Confidence.titleScore.
  rewrite (andb_comm (negb (Confidence.is_empty a))).
  rewrite (eqb_chars_sym a b), (orb_comm (Text.contains a b)).
  now rewrite (overlap_score_sym a b).
Qed.

Lemma authorScore_sym (a b : Text.chars) :
  Confidence.authorScore a b = Confidence.authorScore b a.
Proof.
  unfold Confidence.authorScore. cbv zeta.
  rewrite (andb_comm (negb (Confidence.is_empty a))).
  rewrite (eqb_chars_sym a b), (orb_comm (Text.contains a b)).
  rewrite (eqb_chars_sym (Confidence.last_word a)).
  rewrite (andb_comm (negb (Confidence.is_empty (Confidence.last_word a)))).
  now rewrite (overlap_score_sym a b).
Qed.

(** X12: the title score and the author score do not depend on which side
    is the file and which the catalogue: exchanging the two gives the same
    two scores.  The combined score is not symmetric: an author missing on
    the file side is left out of it, an author missing on the catalogue
    side counts as a mismatch. *)
Theorem X12_part_scores_are_symmetric
    (fileAuthor fileTitle audibleAuthor audibleTitle : string) :
  let there :=
    Confidence.calculateMatchConfidence
      fileAuthor fileTitle audibleAuthor audibleTitle in
  let back :=
    Confidence.calculateMatchConfidence
      audibleAuthor audibleTitle fileAuthor fileTitle in
  Confidence.detailTitle there = Confidence.detailTitle back
  /\ Confidence.detailAuthor there = Confidence.detailAuthor back
  /\ Confidence.combinedScore
       (Confidence.calculateMatchConfidence "" "Dune" "Frank Herbert" "Dune")
     = 100
  /\ Confidence.combinedScore
       (Confidence.calculateMatchConfidence "Frank Herbert" "Dune" "" "Dune")
     = 60.
Proof.
  cbn [Confidence.calculateMatchConfidence Confidence.detailTitle
       Confidence.detailAuthor].
  split; [apply titleScore_sym|]. split; [apply authorScore_sym|].
  split; vm_compute; reflexivity.
Qed.




(** *** The audio files of a folder, continued *)

Lemma getAudioFiles_page (t : AudioFiles.Tree) (batch : Z) (recurse : bool)
    (offset : Z) :
  AudioFiles.candidates recurse t <> [] -> 0 <= offset -> 0 <= batch ->
  AudioFiles.getAudioFiles t batch recurse offset
  = AudioFiles.Files
      (take (Z.to_nat batch)
         (drop (Z.to_nat offset)
            (AudioFiles.sort_by_key (AudioFiles.candidates recurse t)))).
Proof.
  intros Hne Ho Hb. unfold AudioFiles.getAudioFiles. cbv zeta.
  set (sorted := AudioFiles.sort_by_key _).
  destruct (Nat.eqb_spec (length sorted) 0) as [E|E].
  { apply length_zero_iff_nil in E.
    pose proof (sort_by_key_Permutation (AudioFiles.candidates recurse t)) as P.
    fold sorted in P. rewrite E in P. apply Permutation_nil_l in P.
    now elim Hne. }
  assert (AudioFiles.skip offset sorted = drop (Z.to_nat offset) sorted) as ->.
  { unfold AudioFiles.skip. destruct (Z.ltb_spec 0 offset); [reflexivity|].
    replace offset with 0 by lia. now rewrite drop_0. }
  destruct (Z.eqb_spec batch (-1)) as [E1|_]; [lia|]. cbn [orb].
  destruct (Z.leb_spec (Z.of_nat (length (drop (Z.to_nat offset) sorted))) batch).
  - rewrite take_ge; [reflexivity|lia].
  - unfold AudioFiles.slice_to. now replace (0 <=? batch) with true by lia.
Qed.

Lemma getAudioFiles_rest (t : AudioFiles.Tree) (recurse : bool) (offset : Z) :
  AudioFiles.candidates recurse t <> [] -> 0 <= offset ->
  AudioFiles.getAudioFiles t (-1) recurse offset
  = AudioFiles.Files
      (drop (Z.to_nat offset)
         (AudioFiles.sort_by_key (AudioFiles.candidates recurse t))).
Proof.
  intros Hne Ho. unfold AudioFiles.getAudioFiles. cbv zeta.
  set (sorted := AudioFiles.sort_by_key _).
  destruct (Nat.eqb_spec (length sorted) 0) as [E|E].
  { apply length_zero_iff_nil in E.
    pose proof (sort_by_key_Permutation (AudioFiles.candidates recurse t)) as P.
    fold sorted in P. rewrite E in P. apply Permutation_nil_l in P.
    now elim Hne. }
  cbn [Z.eqb orb]. unfold AudioFiles.skip.
  destruct (Z.ltb_spec 0 offset); [reflexivity|].
  replace offset with 0 by lia. now rewrite drop_0.
Qed.

Lemma take_plus {A : Type} (n m : nat) (l : list A) :
  take (n + m) l = take n l ++ take m (drop n l).
Proof.
  revert l. induction n as [|n IH]; intros l; [reflexivity|].
  destruct l as [|x l]; [cbn; now rewrite take_nil|]. cbn. now rewrite IH.
Qed.

(** X14: consecutive batches tile the sorted list of audio files: a batch
    of [batch] files at [offset] followed by the batch of [batch'] files
    at [offset + batch] is the batch of [batch + batch'] files at
    [offset], and followed by everything from [offset + batch] it is
    everything from [offset]; no file is lost or repeated between
    batches. *)
Theorem X14_getAudioFiles_batches_tile
    (t : AudioFiles.Tree) (recurse : bool) (offset batch batch' : Z) :
  AudioFiles.candidates recurse t <> [] ->
  0 <= offset -> 0 <= batch -> 0 <= batch' ->
  files_of (AudioFiles.getAudioFiles t batch recurse offset)
  ++ files_of (AudioFiles.getAudioFiles t batch' recurse (offset + batch))
  = files_of (AudioFiles.getAudioFiles t (batch + batch') recurse offset)
  /\ files_of (AudioFiles.getAudioFiles t batch recurse offset)
     ++ files_of (AudioFiles.getAudioFiles t (-1) recurse (offset + batch))
     = files_of (AudioFiles.getAudioFiles t (-1) recurse offset).
Proof.
  intros Hne Ho Hb Hb'.
  rewrite !getAudioFiles_page by (assumption || lia).
  rewrite !getAudioFiles_rest by (assumption || lia).
  cbn [files_of].
  rewrite !Z2Nat.inj_add by lia.
  rewrite <- !drop_drop. split.
  - symmetry. apply take_plus.
  - apply take_drop.
Qed.

Lemma X14_getAudioFiles_batches_tile_witness :
  let t := AudioFiles.mkTree ["/in/b.mp3"; "/in/A.m4b"; "/in/c.flac"]%string
                             [] in
  files_of (AudioFiles.getAudioFiles t 1 false 0)
  ++ files_of (AudioFiles.getAudioFiles t 1 false (0 + 1))
  = files_of (AudioFiles.getAudioFiles t (1 + 1) false 0).
Proof.
  intros t.
  refine (proj1 (X14_getAudioFiles_batches_tile t false 0 1 1 _ _ _ _));
    try lia.
  vm_compute. discriminate.
Defined.

(** *** Names that are not taken *)

Lemma tried_shift (numbered : nat -> string) (counter : nat)
    (currPath : string) (k : nat) :
  tried numbered (S counter) (numbered counter) k
  = tried numbered counter currPath (S k).
Proof.
  destruct k as [|k]; cbn [tried]; f_equal; lia.
Qed.

Lemma free_path_first_free (exists_ : string -> bool) (fuel : nat)
    (numbered : nat -> string) (counter : nat) (currPath p : string) :
  UniquePath.free_path exists_ fuel numbered counter currPath = Some p
  <-> exists k : nat,
        (k < fuel)%nat
        /\ p = tried numbered counter currPath k
        /\ exists_ p = false
        /\ forall j : nat, (j < k)%nat ->
             exists_ (tried numbered counter currPath j) = true.
Proof.
  revert counter currPath. induction fuel as [|fuel IH]; intros counter currPath.
  - cbn. split; [discriminate|]. intros (k & Hk & _). lia.
  - cbn [UniquePath.free_path]. destruct (exists_ currPath) eqn:E.
    + rewrite IH. split.
      * intros (k & Hk & -> & Hfree & Htaken). exists (S k).
        split; [lia|]. split; [apply tried_shift|].
        split; [exact Hfree|].
        intros [|j] Hj; [exact E|]. rewrite <- (tried_shift numbered counter).
        apply Htaken. lia.
      * intros (k & Hk & -> & Hfree & Htaken).
        destruct k as [|k]; [cbn in Hfree; congruence|].
        exists k. split; [lia|]. split; [symmetry; apply tried_shift|].
        split; [exact Hfree|].
        intros j Hj. rewrite (tried_shift numbered counter currPath).
        apply Htaken. lia.
    + split.
      * intros [= <-]. exists 0%nat. split; [lia|]. split; [reflexivity|].
        split; [exact E|]. intros j Hj. lia.
      * intros (k & Hk & -> & Hfree & Htaken).
        destruct k as [|k]; [reflexivity|].
        specialize (Htaken 0%nat ltac:(lia)). cbn in Htaken. congruence.
Qed.

(** X15: [getUniquePath] returns the first path that does not exist among
    the plain name and then the names numbered 1, 2, ... before the suffix:
    a path it returns does not exist, every path it tried before exists, and
    it returns as soon as one of these paths is free. *)
Theorem X15_getUniquePath_returns_the_first_free_name
    (exists_ : string -> bool) (join : string -> string -> string)
    (fuel : nat) (fileName outpath p : string) :
  let names := tried
    (fun counter =>
       join outpath
         (UniquePath.numbered (PyPath.stem fileName) counter
            (UniquePath.suffix fileName)))
    1%nat (join outpath fileName) in
  UniquePath.getUniquePath exists_ join fuel fileName outpath = Some p
  <-> exists k : nat,
        (k < fuel)%nat /\ p = names k /\ exists_ p = false
        /\ forall j : nat, (j < k)%nat -> exists_ (names j) = true.
Proof. cbv zeta. unfold UniquePath.getUniquePath. apply free_path_first_free. Qed.

(** X16: [_moveItem] overwrites nothing: it moves nothing when the item no
    longer exists, and a destination it chooses does not exist; a file that
    is free under its own name keeps that name. *)
Theorem X16_moveItem_never_overwrites
    (exists_ is_dir : string -> bool) (join : string -> string -> string)
    (fuel : nat) (item destDir : string) :
  (exists_ item = false ->
   UniquePath._moveItem exists_ is_dir join fuel item destDir
   = Some UniquePath.NoLongerExists)
  /\ (forall dest,
        UniquePath._moveItem exists_ is_dir join fuel item destDir
        = Some (UniquePath.MoveTo dest) ->
        exists_ item = true /\ exists_ dest = false)
  /\ (exists_ item = true ->
      exists_ (join destDir (Text.to_string (PyPath.name item))) = false ->
      UniquePath._moveItem exists_ is_dir join (S fuel) item destDir
      = Some (UniquePath.MoveTo
                (join destDir (Text.to_string (PyPath.name item))))).
Proof.
  unfold UniquePath._moveItem. split; [|split].
  - now intros ->.
  - intros dest. destruct (exists_ item); [|discriminate]. cbn [negb].
    cbv zeta.
    destruct (UniquePath.free_path _ _ _ _ _) as [p|] eqn:E; [|discriminate].
    cbn. intros [= <-]. split; [reflexivity|].
    apply free_path_first_free in E as (k & _ & _ & Hfree & _). exact Hfree.
  - intros -> Hfree. cbn [negb]. cbv zeta. cbn [UniquePath.free_path].
    now rewrite Hfree.
Qed.

(** *** The fail marker *)

Lemma universal_plain (a b : Text.chars) :
  has_break a = false ->
  FailMarker.universal_newlines (a ++ b) = a ++ FailMarker.universal_newlines b.
Proof.
  induction a as [|c a IH]; [reflexivity|]. cbn [has_break existsb].
  intros [[Hl Hc]%orb_false_iff Ha]%orb_false_iff.
  cbn [app FailMarker.universal_newlines]. rewrite Hc.
  now rewrite (IH Ha).
Qed.

Lemma universal_line (a b : Text.chars) :
  has_break a = false ->
  FailMarker.universal_newlines (FailMarker.line a ++ b)
  = FailMarker.line a ++ FailMarker.universal_newlines b.
Proof.
  intros Ha. unfold FailMarker.line. rewrite <- !app_assoc.
  rewrite (universal_plain _ _ Ha). reflexivity.
Qed.

Lemma lines_from_plain (a b cur : Text.chars) :
  has_break a = false ->
  FailMarker.lines_from cur (a ++ b) = FailMarker.lines_from (rev a ++ cur) b.
Proof.
  revert cur. induction a as [|c a IH]; intros cur; [reflexivity|].
  cbn [has_break existsb].
  intros [[Hl Hc]%orb_false_iff Ha]%orb_false_iff.
  cbn [app FailMarker.lines_from]. rewrite Hl.
  rewrite (IH _ Ha). cbn [rev]. now rewrite <- app_assoc.
Qed.

Lemma lines_from_line (a b : Text.chars) :
  has_break a = false ->
  FailMarker.lines_from [] (FailMarker.line a ++ b)
  = FailMarker.line a :: FailMarker.lines_from [] b.
Proof.
  intros Ha. unfold FailMarker.line. rewrite <- app_assoc.
  rewrite (lines_from_plain _ _ _ Ha). cbn [app FailMarker.lines_from].
  change (FailMarker.is_LF FailMarker.LF) with true. cbv iota.
  cbn [rev]. now rewrite app_nil_r, rev_involutive.
Qed.

(** A line that is written whole is read back whole. *)
Lemma read_line (a b : Text.chars) :
  has_break a = false ->
  FailMarker.lines_from []
    (FailMarker.universal_newlines (FailMarker.line a ++ b))
  = FailMarker.line a
    :: FailMarker.lines_from [] (FailMarker.universal_newlines b).
Proof.
  intros Ha. now rewrite (universal_line _ _ Ha), (lines_from_line _ _ Ha).
Qed.

Lemma before_break_plain (l : Text.chars) : has_break (before_break l) = false.
Proof.
  induction l as [|c l IH]; [reflexivity|]. cbn [before_break].
  destruct (FailMarker.is_LF c || FailMarker.is_CR c) eqn:E; [reflexivity|].
  cbn [has_break existsb]. now rewrite E.
Qed.

(** Reading a text cuts its first line at its first line break. *)
Lemma read_first_line (a b cur : Text.chars) :
  exists rest,
    FailMarker.lines_from cur
      (FailMarker.universal_newlines (a ++ FailMarker.LF :: b))
    = (rev cur ++ before_break a ++ [FailMarker.LF]) :: rest.
Proof.
  revert cur. induction a as [|c a IH]; intros cur.
  - cbn. eexists. reflexivity.
  - cbn [app FailMarker.universal_newlines before_break].
    destruct (FailMarker.is_CR c) eqn:Ec.
    + rewrite orb_true_r. cbn [FailMarker.lines_from].
      change (FailMarker.is_LF FailMarker.LF) with true. cbv iota.
      eexists. cbn [rev app]. reflexivity.
    + rewrite orb_false_r. cbn [FailMarker.lines_from].
      destruct (FailMarker.is_LF c) eqn:El.
      * apply eqb_char_true in El. subst c. eexists. reflexivity.
      * destruct (IH (c :: cur)) as [rest ->]. exists rest.
        cbn [rev app]. now rewrite <- !app_assoc.
Qed.

Lemma before_break_app (a b : Text.chars) :
  has_break a = false -> before_break (a ++ b) = a ++ before_break b.
Proof.
  induction a as [|c a IH]; [reflexivity|]. cbn [has_break existsb].
  intros [Hc Ha]%orb_false_iff. cbn [app before_break]. rewrite Hc.
  now rewrite (IH Ha).
Qed.

Lemma strip_between (l : Text.chars) :
  Text.strip (" "%char :: l ++ [FailMarker.LF]) = Text.strip l.
Proof.
  unfold Text.strip. cbn [Text.lstrip].
  change (Text.is_space " ") with true. cbv iota.
  rewrite lstrip_app. destruct (forallb Text.is_space l) eqn:E.
  - now rewrite (lstrip_all_space _ E).
  - unfold Text.rstrip. rewrite rev_app_distr. reflexivity.
Qed.

Lemma first_reason_skip (l : Text.chars) (rest : list Text.chars) :
  Text.starts_with (Text.of_string "Reason:") l = false ->
  FailMarker.first_reason (l :: rest) = FailMarker.first_reason rest.
Proof. intros H. cbn [FailMarker.first_reason]. now rewrite H. Qed.

Lemma read_found_files (found : list string) (b : Text.chars) :
  Forall (fun f => has_break (PyPath.name f) = false) found ->
  FailMarker.first_reason
    (FailMarker.lines_from []
       (FailMarker.universal_newlines
          (concat (map (fun file =>
                          FailMarker.line
                            (Text.of_string "  - " ++ PyPath.name file))
                       found) ++ b)))
  = FailMarker.first_reason
      (FailMarker.lines_from [] (FailMarker.universal_newlines b)).
Proof.
  induction 1 as [|f found Hf Hfound IH]; [reflexivity|].
  cbn [map concat]. rewrite <- app_assoc.
  rewrite read_line by (cbn [has_break existsb app Text.of_string
                              list_ascii_of_string] in *; exact Hf).
  rewrite first_reason_skip by reflexivity. exact IH.
Qed.

Section FailMarkerFacts.

Variable is_dir : string -> bool.
Variable parent : string -> string.
Variable join : string -> string -> string.
Variable writable : string -> bool.

Lemma created_marker (disk : FailMarker.Disk) (folderPath : string)
    (reason : option string) (files : option (list string)) (stamp : string) :
  writable (FailMarker.markerPath is_dir parent join folderPath) = true ->
  FailMarker._createFailMarker is_dir parent join writable disk folderPath
    reason files stamp
  !! FailMarker.markerPath is_dir parent join folderPath
  = Some (FailMarker.marker_text reason files stamp).
Proof.
  intros Hw. unfold FailMarker._createFailMarker. rewrite Hw.
  apply lookup_insert_eq.
Qed.

End FailMarkerFacts.

(** X17: a fail marker that can be written is found again, and read back
    it gives the reason it was created with, cut at its first line break
    and stripped; created without a reason, for files whose names hold no
    line break, it reads as the fixed text for an unknown reason. *)
Theorem X17_fail_marker_round_trip
    (is_dir : string -> bool) (parent : string -> string)
    (join : string -> string -> string) (writable : string -> bool)
    (disk : FailMarker.Disk) (folderPath : string)
    (reason : option string) (files : option (list string))
    (stamp : string) :
  writable (FailMarker.markerPath is_dir parent join folderPath) = true ->
  has_break (Text.of_string stamp) = false ->
  let disk' :=
    FailMarker._createFailMarker is_dir parent join writable disk folderPath
      reason files stamp in
  FailMarker.hasFailMarker is_dir parent join disk' folderPath = true
  /\ (forall r,
        FailMarker.stated reason = Some r ->
        FailMarker.getFailMarkerReason is_dir parent join disk' folderPath
        = Some (Text.to_string (Text.strip (before_break r))))
  /\ (FailMarker.stated reason = None ->
      Forall (fun f => has_break (PyPath.name f) = false)
             (default [] files) ->
      FailMarker.getFailMarkerReason is_dir parent join disk' folderPath
      = Some FailMarker.unknown).
Proof.
  intros Hw Hstamp disk'.
  pose proof (created_marker is_dir parent join writable disk folderPath
                reason files stamp Hw) as Hlook.
  fold disk' in Hlook.
  assert (FailMarker.exists_ is_dir disk'
            (FailMarker.markerPath is_dir parent join folderPath) = true)
    as Hex.
  { unfold FailMarker.exists_. rewrite Hlook.
    rewrite bool_decide_eq_true_2 by eauto. reflexivity. }
  split; [exact Hex|]. split.
  - intros r Hr. unfold FailMarker.getFailMarkerReason.
    rewrite Hex, Hlook. cbn [negb]. unfold FailMarker.marker_text.
    rewrite Hr. rewrite !read_line by reflexivity.
    rewrite !first_reason_skip by reflexivity.
    unfold FailMarker.line at 1. rewrite <- !app_assoc.
    cbn [app].
    match goal with
    | |- context [FailMarker.universal_newlines
                    (Text.of_string "Reason: " ++ r ++ FailMarker.LF :: ?b)] =>
        destruct (read_first_line (Text.of_string "Reason: " ++ r) b [])
          as [rest Hrest]
    end.
    rewrite <- app_assoc in Hrest. rewrite Hrest.
    rewrite before_break_app by reflexivity.
    cbn [rev app Text.of_string list_ascii_of_string FailMarker.first_reason].
    change (Text.starts_with _ _) with true. cbv iota. cbn [drop].
    now rewrite strip_between.
  - intros Hnone Hfiles. unfold FailMarker.getFailMarkerReason.
    rewrite Hex, Hlook. cbn [negb]. unfold FailMarker.marker_text.
    rewrite Hnone. rewrite !read_line by reflexivity.
    rewrite !first_reason_skip by reflexivity. cbn [app].
    assert (FailMarker.first_reason
              (FailMarker.lines_from []
                 (FailMarker.universal_newlines
                    (FailMarker.line (Text.of_string "Suggested fix:")
                     ++ FailMarker.line
                          (Text.of_string "  - Review the files in this folder")
                     ++ FailMarker.line
                          (Text.of_string
                             "  - Fix any issues (remove duplicates, rename files, etc.)")
                     ++ FailMarker.line
                          (Text.of_string
                             "  - Delete this .fail file to retry processing")
                     ++ FailMarker.line []
                     ++ FailMarker.line
                          (Text.of_string "Detected: "
                           ++ Text.of_string stamp)))) = None) as Htail.
    { rewrite !read_line by reflexivity.
      rewrite !first_reason_skip by reflexivity.
      rewrite <- (app_nil_r (FailMarker.line _)).
      rewrite read_line by exact Hstamp.
      now rewrite first_reason_skip by reflexivity. }
    destruct files as [[|f found]|]; cbn [default from_option id] in Hfiles;
      [cbn [app]; now rewrite Htail| |cbn [app]; now rewrite Htail].
    rewrite <- !app_assoc. rewrite read_line by reflexivity.
    rewrite first_reason_skip by reflexivity.
    rewrite (read_found_files _ _ Hfiles).
    rewrite read_line by reflexivity.
    rewrite first_reason_skip by reflexivity.
    now rewrite Htail.
Qed.

Lemma X17_fail_marker_round_trip_witness :
  FailMarker.getFailMarkerReason (fun _ => true) (fun p => p)
    (fun d n => d ++ "/" ++ n)%string
    (FailMarker._createFailMarker (fun _ => true) (fun p => p)
       (fun d n => d ++ "/" ++ n)%string (fun _ => true) ∅ "/in/book"
       (Some "  Corrupt or unreadable audio file ") None
       "2024-01-01 00:00:00")
    "/in/book"
  = Some "Corrupt or unreadable audio file"%string.
Proof.
  refine (proj1 (proj2 (X17_fail_marker_round_trip (fun _ => true) (fun p => p)
           (fun d n => d ++ "/" ++ n)%string (fun _ => true) ∅ "/in/book"
           (Some "  Corrupt or unreadable audio file ") None
           "2024-01-01 00:00:00" _ _))
           (Text.of_string "  Corrupt or unreadable audio file ") _);
    reflexivity.
Defined.

(** *** The construction of the settings *)

Lemma existsb_rev {A : Type} (f : A -> bool) (l : list A) :
  existsb f (rev l) = existsb f l.
Proof.
  induction l as [|x l IH]; [reflexivity|]. cbn.
  rewrite existsb_app, IH. cbn. rewrite orb_false_r. apply orb_comm.
Qed.

Lemma split_sep_search (cls : ascii -> bool) (cur l : Text.chars) :
  cls "/"%char = false ->
  existsb (SettingsInit.search cls) (SettingsInit.split_sep cur l)
  = existsb cls cur || existsb cls l.
Proof.
  intros Hsep. revert cur. induction l as [|c l IH]; intros cur.
  - cbn. unfold SettingsInit.search.
    rewrite existsb_rev, !orb_false_r. reflexivity.
  - cbn [SettingsInit.split_sep]. destruct (Text.eqb_char c "/") eqn:E.
    + apply eqb_char_true in E. subst c. cbn [existsb]. rewrite IH, Hsep.
      cbn [existsb orb]. unfold SettingsInit.search.
      now rewrite existsb_rev.
    + rewrite IH. cbn [existsb]. now destruct (cls c), (existsb cls cur).
Qed.

Lemma checkFolders_whole (input output : string) :
  SettingsInit.checkFolders input output
  = if existsb SettingsInit.inputSpecials (Text.of_string input)
       || existsb SettingsInit.outputSpecials (Text.of_string output)
    then Some 1 else None.
Proof.
  unfold SettingsInit.checkFolders. cbv zeta.
  rewrite !split_sep_search by reflexivity. cbn [existsb orb].
  now destruct (existsb SettingsInit.inputSpecials _),
               (existsb SettingsInit.outputSpecials _).
Qed.

(** X18: settings that are constructed are consistent: the in-place flag
    is set exactly when output and input resolve to the same path, the
    in-place argument makes the output the input, the input holds no
    character of the input class and the output none of the output class,
    so no comma. *)
Theorem X18_constructed_settings_are_consistent
    (resolve parent : string -> string) (join : string -> string -> string)
    (args : SettingsInit.Args) (answers : list string)
    (s : SettingsInit.Built) :
  SettingsInit.init resolve parent join args answers
  = SettingsInit.Constructed s ->
  (SettingsInit.built_inPlace s = true
   <-> resolve (SettingsInit.built_output s)
       = resolve (SettingsInit.built_input s))
  /\ SettingsInit.built_input s = SettingsInit.input args
  /\ (SettingsInit.inPlace args = true ->
      SettingsInit.built_output s = SettingsInit.input args)
  /\ Forall (fun c => SettingsInit.inputSpecials c = false)
            (Text.of_string (SettingsInit.built_input s))
  /\ Forall (fun c => SettingsInit.outputSpecials c = false)
            (Text.of_string (SettingsInit.built_output s))
  /\ ","%char ∉ Text.of_string (SettingsInit.built_output s).
Proof.
  unfold SettingsInit.init. cbv zeta.
  destruct (if SettingsInit.quick args then Some true
            else SettingsInit.confirm answers) as [[|]|]; try discriminate.
  rewrite checkFolders_whole.
  destruct (existsb SettingsInit.inputSpecials _) eqn:Ei; [discriminate|].
  destruct (existsb SettingsInit.outputSpecials _) eqn:Eo; [discriminate|].
  cbn [orb]. intros [= <-]. cbn [SettingsInit.built_inPlace
    SettingsInit.built_output SettingsInit.built_input].
  assert (Forall (fun c => SettingsInit.outputSpecials c = false)
            (Text.of_string (SettingsInit.settled_output parent join args)))
    as Hout.
  { apply List.Forall_forall. intros c Hc.
    destruct (SettingsInit.outputSpecials c) eqn:E; [|reflexivity].
    rewrite <- Eo. symmetry. apply existsb_exists. eauto. }
  split; [|split; [reflexivity|split; [|split; [|split; [exact Hout|]]]]].
  - case_bool_decide as Hr; [easy|]. split; [|contradiction].
    intros Hin. unfold SettingsInit.settled_output in Hr.
    rewrite Hin in Hr. now elim Hr.
  - intros Hin. unfold SettingsInit.settled_output. now rewrite Hin.
  - apply List.Forall_forall. intros c Hc.
    destruct (SettingsInit.inputSpecials c) eqn:E; [|reflexivity].
    rewrite <- Ei. symmetry. apply existsb_exists. eauto.
  - intros Hc. rewrite Forall_forall in Hout. apply Hout in Hc.
    discriminate Hc.
Qed.

Lemma X18_constructed_settings_are_consistent_witness :
  SettingsInit.built_inPlace
    (SettingsInit.mkBuilt "/in" "/in" true) = true
  <-> "/in"%string = "/in"%string.
Proof.
  apply (X18_constructed_settings_are_consistent (fun p => p) (fun p => p)
           (fun d n => d ++ "/" ++ n)%string
           (SettingsInit.mkArgs "/in" (Some "/in") false true false) []
           (SettingsInit.mkBuilt "/in" "/in" true)).
  reflexivity.
Defined.

(** X19: how the construction ends.  A run that the user declines exits
    with a bare [sys.exit()] before any path is checked.  A run that is
    confirmed or quick exits with status 1 exactly when the input holds a
    character of the input class or the settled output one of the output
    class, wherever in the path; so an in-place run on an input path with a
    comma exits with status 1, though the input class allows commas. *)
Theorem X19_settings_exits
    (resolve parent : string -> string) (join : string -> string -> string)
    (args : SettingsInit.Args) (answers : list string) :
  let output := SettingsInit.settled_output parent join args in
  let outcome := SettingsInit.init resolve parent join args answers in
  (SettingsInit.quick args = false ->
   SettingsInit.confirm answers = Some false ->
   outcome = SettingsInit.SystemExit None)
  /\ (SettingsInit.quick args = true
      \/ SettingsInit.confirm answers = Some true ->
      (outcome = SettingsInit.SystemExit (Some 1)
       <-> existsb SettingsInit.inputSpecials
             (Text.of_string (SettingsInit.input args))
           || existsb SettingsInit.outputSpecials (Text.of_string output)
           = true)
      /\ (SettingsInit.inPlace args = true ->
          ","%char ∈ Text.of_string (SettingsInit.input args) ->
          outcome = SettingsInit.SystemExit (Some 1))).
Proof.
  cbv zeta. unfold SettingsInit.init. cbv zeta. split.
  - intros -> ->. reflexivity.
  - intros Hgo.
    assert ((if SettingsInit.quick args then Some true
             else SettingsInit.confirm answers) = Some true) as ->.
    { destruct Hgo as [->| ->]; [reflexivity|].
      now destruct (SettingsInit.quick args). }
    rewrite checkFolders_whole.
    destruct (existsb SettingsInit.inputSpecials _
              || existsb SettingsInit.outputSpecials _) eqn:E.
    + split; [easy|]. reflexivity.
    + split; [split; discriminate|].
      intros Hin Hcomma. exfalso.
      apply orb_false_iff in E as [_ E].
      unfold SettingsInit.settled_output in E. rewrite Hin in E.
      assert (existsb SettingsInit.outputSpecials
                (Text.of_string (SettingsInit.input args)) = true) as E';
        [|congruence].
      apply existsb_exists. exists ","%char. split; [|reflexivity].
      now apply list_elem_of_In.
Qed.

(** *** Duplicate versions *)

Section FirstMinimum.

Context {A : Type}.
Variable leb : A -> A -> bool.
Hypothesis leb_total : forall a b, leb a b = true \/ leb b a = true.
Hypothesis leb_trans :
  forall a b c, leb a b = true -> leb b c = true -> leb a c = true.

(** The head of the sorted list is the first of the smallest elements. *)
Lemma sort_head_first_minimum (l : list A) (m : A) (rest : list A) :
  StableSort.sort leb l = m :: rest ->
  exists pre post,
    l = pre ++ m :: post
    /\ (forall g, g ∈ pre -> leb g m = false)
    /\ (forall g, g ∈ post -> leb m g = true).
Proof.
  revert m rest. induction l as [|x l IH]; intros m rest; [discriminate|].
  cbn [StableSort.sort fold_right].
  change (fold_right (StableSort.insert leb) [] l) with (StableSort.sort leb l).
  destruct (StableSort.sort leb l) as [|y r] eqn:Es.
  - cbn. intros [= <- <-].
    pose proof (sort_Permutation leb l) as P. rewrite Es in P.
    apply Permutation_nil_l in P. subst l.
    exists [], []. split; [reflexivity|].
    split; intros g Hg; now apply not_elem_of_nil in Hg.
  - destruct (IH y r eq_refl) as (pre & post & -> & Hpre & Hpost).
    cbn [StableSort.insert]. destruct (leb x y) eqn:E.
    + intros [= <- <-]. exists [], (pre ++ y :: post).
      split; [reflexivity|]. split.
      * intros g Hg. now apply not_elem_of_nil in Hg.
      * intros g Hg. apply elem_of_app in Hg as [Hg|Hg].
        -- apply (leb_trans x y g E).
           destruct (leb_total y g) as [H|H]; [exact H|].
           rewrite (Hpre g Hg) in H. discriminate H.
        -- apply elem_of_cons in Hg as [->|Hg]; [exact E|].
           apply (leb_trans x y g E), Hpost, Hg.
    + intros [= <- <-]. exists (x :: pre), post.
      split; [reflexivity|]. split; [|exact Hpost].
      intros g Hg. apply elem_of_cons in Hg as [->|Hg]; [exact E|].
      now apply Hpre.
Qed.

End FirstMinimum.

Lemma key_leb_total (a b : Z * Z) :
  Versions.key_leb a b = true \/ Versions.key_leb b a = true.
Proof. unfold Versions.key_leb. lia. Qed.

Lemma key_leb_trans (a b c : Z * Z) :
  Versions.key_leb a b = true -> Versions.key_leb b c = true ->
  Versions.key_leb a c = true.
Proof. unfold Versions.key_leb. lia. Qed.

(** X20: [selectBestVersion] returns the first of the best files: the file
    it returns is in the list, it sorts strictly before every file that
    comes earlier in the list (a better extension, or the same extension
    and a larger size), and no later file sorts strictly before it.  On the
    empty list it ends with an [IndexError]. *)
Theorem X20_selectBestVersion_returns_the_first_best
    (files : list Versions.File) :
  match Versions.selectBestVersion files with
  | None => files = []
  | Some best =>
      exists pre post,
        files = pre ++ best :: post
        /\ (forall g, g ∈ pre -> better best g)
        /\ (forall g, g ∈ post -> ~ better g best)
  end.
Proof.
  unfold Versions.selectBestVersion.
  set (leb := fun a b => Versions.key_leb (Versions.sort_key a)
                                          (Versions.sort_key b)).
  destruct (StableSort.sort leb files) as [|m rest] eqn:Es.
  - cbn. pose proof (sort_Permutation leb files) as P. rewrite Es in P.
    now apply Permutation_nil_l in P.
  - cbn [head].
    destruct (sort_head_first_minimum leb
                (fun a b => key_leb_total _ _)
                (fun a b c => key_leb_trans _ _ _) files m rest Es)
      as (pre & post & Hfiles & Hpre & Hpost).
    exists pre, post. split; [exact Hfiles|]. split.
    + intros g Hg. specialize (Hpre g Hg).
      unfold leb, Versions.key_leb, Versions.sort_key in Hpre. cbn in Hpre.
      unfold better. lia.
    + intros g Hg. specialize (Hpost g Hg).
      unfold leb, Versions.key_leb, Versions.sort_key in Hpost. cbn in Hpost.
      unfold better. lia.
Qed.

Lemma filter_sublist {A : Type} (f : A -> bool) (l : list A) :
  List.filter f l `sublist_of` l.
Proof.
  induction l as [|x l IH]; cbn; [constructor|].
  destruct (f x); [now apply sublist_skip|now apply sublist_cons].
Qed.

Lemma filter_split_length {A : Type} (f : A -> bool) (l : list A) :
  (length (List.filter (fun x => negb (f x)) l) + length (List.filter f l)
   = length l)%nat.
Proof.
  induction l as [|x l IH]; [reflexivity|]. cbn.
  destruct (f x); cbn; lia.
Qed.

(** What a filter leaves out is what is not in its result. *)
Lemma not_in_filter (f : string -> bool) (files : list string) :
  Versions.not_in (List.filter f files) files
  = List.filter (fun x => negb (f x)) files.
Proof.
  unfold Versions.not_in. apply List.filter_ext_in. intros x Hx. f_equal.
  destruct (f x) eqn:E.
  - apply bool_decide_eq_true_2, list_elem_of_In, List.filter_In. easy.
  - apply bool_decide_eq_false_2. intros Hin%list_elem_of_In.
    apply List.filter_In in Hin as [_ Hin]. congruence.
Qed.

Lemma add_to_spec (k : Versions.Pattern) (f : string)
    (G : list (Versions.Pattern * list string)) :
  NoDup G.*1 ->
  NoDup (Versions.add_to k f G).*1
  /\ (forall p, p ∈ (Versions.add_to k f G).*1 <-> p ∈ G.*1 \/ p = k)
  /\ (forall p fs, (p, fs) ∈ Versions.add_to k f G ->
        (p <> k /\ (p, fs) ∈ G)
        \/ (p = k /\ ((exists fs0, (k, fs0) ∈ G /\ fs = fs0 ++ [f])
                      \/ ((k ∉ G.*1) /\ fs = [f])))).
Proof.
  induction G as [|[k' fs'] G IH]; intros Hnd.
  - cbn. split; [apply NoDup_singleton|]. split.
    + intros p. rewrite list_elem_of_singleton, elem_of_nil. tauto.
    + intros p fs [= -> ->]%list_elem_of_singleton. right.
      split; [reflexivity|]. right. split; [apply not_elem_of_nil|reflexivity].
  - cbn [fmap list_fmap fst] in Hnd. apply NoDup_cons in Hnd as [Hk' Hnd].
    specialize (IH Hnd) as (IHnd & IHkeys & IHent).
    cbn [Versions.add_to]. destruct (decide (k' = k)) as [->|Hne].
    + cbn [fmap list_fmap fst]. split; [now apply NoDup_cons|]. split.
      * intros p. rewrite elem_of_cons. tauto.
      * intros p fs [[= -> ->]|Hin]%elem_of_cons.
        -- right. split; [reflexivity|]. left. exists fs'.
           split; [apply list_elem_of_here|reflexivity].
        -- left. split; [|now apply list_elem_of_further].
           intros ->. apply Hk'. apply list_elem_of_fmap.
           exists (k, fs). easy.
    + cbn [fmap list_fmap fst]. split; [|split].
      * apply NoDup_cons. split; [|exact IHnd].
        rewrite IHkeys. intros [H|H]; [now apply Hk'|now apply Hne].
      * intros p. rewrite !elem_of_cons, IHkeys. tauto.
      * intros p fs [[= -> ->]|Hin]%elem_of_cons.
        -- left. split; [exact Hne|apply list_elem_of_here].
        -- apply IHent in Hin as [[Hp Hin]|[-> [(fs0 & Hin & ->)|[Hk ->]]]].
           ++ left. split; [exact Hp|now apply list_elem_of_further].
           ++ right. split; [reflexivity|]. left. exists fs0.
              split; [now apply list_elem_of_further|reflexivity].
           ++ right. split; [reflexivity|]. right. split; [|reflexivity].
              cbn. rewrite not_elem_of_cons. split; [congruence|exact Hk].
Qed.

(** The groups of the naming patterns: every group is the files of its
    pattern, in order, and holds a file; every pattern of a file has its
    group; no pattern has two. *)
Lemma group_spec (files : list string) :
  NoDup (Versions.group files).*1
  /\ (forall f, f ∈ files -> Versions.pattern_of f ∈ (Versions.group files).*1)
  /\ (forall p, p ∈ (Versions.group files).*1 ->
        exists f, f ∈ files /\ Versions.pattern_of f = p)
  /\ (forall p fs, (p, fs) ∈ Versions.group files ->
        fs = List.filter (fun f => bool_decide (Versions.pattern_of f = p)) files
        /\ fs <> []).
Proof.
  induction files as [|f files IH] using rev_ind.
  - cbn. split; [constructor|]. split; [intros f Hf|split; [intros p Hp|intros p fs Hp]];
      now apply not_elem_of_nil in Hp || now apply not_elem_of_nil in Hf.
  - destruct IH as (Hnd & Hcover & Hkeys & Hent).
    unfold Versions.group. rewrite fold_left_app. cbn [fold_left].
    fold (Versions.group files).
    destruct (add_to_spec (Versions.pattern_of f) f (Versions.group files) Hnd)
      as (Hnd' & Hkeys' & Hent').
    split; [exact Hnd'|]. split; [|split].
    + intros g Hg. apply Hkeys'. apply elem_of_app in Hg as [Hg|Hg].
      * left. now apply Hcover.
      * apply list_elem_of_singleton in Hg. subst g. now right.
    + intros p Hp. apply Hkeys' in Hp as [Hp| ->].
      * destruct (Hkeys p Hp) as (g & Hg & Hpg). exists g.
        split; [apply elem_of_app; now left|exact Hpg].
      * exists f. split; [|reflexivity]. apply elem_of_app. right.
        now apply list_elem_of_singleton.
    + intros p fs Hin. rewrite List.filter_app. cbn [List.filter].
      apply Hent' in Hin as [[Hp Hin]|[-> [(fs0 & Hin & ->)|[Hk ->]]]].
      * destruct (Hent p fs Hin) as [-> Hne].
        rewrite bool_decide_eq_false_2 by congruence.
        now rewrite app_nil_r.
      * destruct (Hent _ fs0 Hin) as [-> Hne].
        rewrite bool_decide_eq_true_2 by reflexivity.
        split; [reflexivity|]. now destruct (List.filter _ files).
      * rewrite bool_decide_eq_true_2 by reflexivity.
        split; [|discriminate].
        assert (List.filter
                  (fun g => bool_decide (Versions.pattern_of g
                                         = Versions.pattern_of f)) files = [])
          as ->; [|reflexivity].
        destruct (List.filter _ files) as [|g gs] eqn:Eg; [reflexivity|].
        exfalso. assert (In g (g :: gs)) as Hg by now left.
        rewrite <- Eg in Hg. apply List.filter_In in Hg as [Hg Hpg].
        apply bool_decide_eq_true_1 in Hpg. apply Hk. rewrite <- Hpg.
        apply Hcover. now apply list_elem_of_In.
Qed.

Lemma most_files_elem (cur : Versions.Pattern * list string)
    (rest : list (Versions.Pattern * list string)) :
  Versions.most_files cur rest ∈ cur :: rest.
Proof.
  revert cur. induction rest as [|kv rest IH]; intros cur.
  - apply list_elem_of_here.
  - cbn [Versions.most_files fold_left].
    destruct (length cur.2 <? length kv.2)%nat.
    + apply list_elem_of_further, IH.
    + specialize (IH cur). apply elem_of_cons in IH as [IH|IH].
      * unfold Versions.most_files in IH. rewrite IH. apply list_elem_of_here.
      * now do 2 apply list_elem_of_further.
Qed.

(** X21: what [detectDuplicateVersions] selects is a part of the files, in
    their order, and is not empty unless the files are; the skipped count
    that it reports and the files it selects add up to the files; and
    without a second naming pattern nothing is dropped, whatever the
    extensions are. *)
Theorem X21_detectDuplicateVersions_selects_a_part
    (files : list string) :
  let chosen := (Versions.detectDuplicateVersions files).1 in
  let info := (Versions.detectDuplicateVersions files).2 in
  chosen `sublist_of` files
  /\ (files <> [] -> chosen <> [])
  /\ match info with
     | Some i =>
         (Versions.skipped_count i + length chosen = length files)%nat
     | None => chosen = files
     end
  /\ ((forall f g, f ∈ files -> g ∈ files ->
         Versions.pattern_of f = Versions.pattern_of g) ->
      chosen = files /\ info = None).
Proof.
  cbv zeta. unfold Versions.detectDuplicateVersions.
  destruct (length files <=? 1)%nat; [cbn; easy|].
  destruct (group_spec files) as (Hnd & Hcover & Hkeys & Hent).
  destruct (Versions.group files) as [|first [|second later]] eqn:Eg;
    [cbn; easy|cbn; easy|].
  cbv zeta.
  assert (forall f : string -> bool,
            length (List.filter f files) = 1%nat ->
            List.filter f files `sublist_of` files
            /\ (files <> [] -> List.filter f files <> [])
            /\ (length (Versions.not_in (List.filter f files) files)
                + length (List.filter f files) = length files)%nat) as Hone.
  { intros f Hlen. split; [apply filter_sublist|]. split.
    - intros _ E. rewrite E in Hlen. discriminate Hlen.
    - rewrite not_in_filter. apply filter_split_length. }
  assert ((forall f g, f ∈ files -> g ∈ files ->
             Versions.pattern_of f = Versions.pattern_of g) -> False) as Htwo.
  { intros Hsame.
    destruct (Hkeys first.1) as (f & Hf & Hpf);
      [cbn; apply list_elem_of_here|].
    destruct (Hkeys second.1) as (g & Hg & Hpg);
      [cbn; apply list_elem_of_further, list_elem_of_here|].
    cbn [fmap list_fmap] in Hnd. apply NoDup_cons in Hnd as [Hnd _].
    apply Hnd. rewrite <- Hpf, (Hsame f g Hf Hg), Hpg.
    apply list_elem_of_here. }
  destruct (length (List.filter (Versions.has_suffix ".m4b") files) =? 1)%nat
    eqn:E4b.
  { apply Nat.eqb_eq in E4b. destruct (Hone _ E4b) as (H1 & H2 & H3).
    cbn [fst snd Versions.skipped_count]. easy. }
  destruct (length (List.filter (Versions.has_suffix ".m4a") files) =? 1)%nat
    eqn:E4a.
  { apply Nat.eqb_eq in E4a. destruct (Hone _ E4a) as (H1 & H2 & H3).
    cbn [fst snd Versions.skipped_count]. easy. }
  pose proof (most_files_elem first (second :: later)) as Hbest.
  destruct (Versions.most_files first (second :: later))
    as [best_pattern best_files].
  destruct (Hent best_pattern best_files Hbest) as [-> Hne].
  cbn [fst snd Versions.skipped_count].
  split; [apply filter_sublist|]. split; [easy|]. split; [|easy].
  rewrite not_in_filter. apply filter_split_length.
Qed.

(** *** Author separators *)

Lemma replace_comma_no_comma (l : Text.chars) :
  existsb Separators.is_comma (Separators.replace_comma l) = false.
Proof.
  induction l as [|c l IH]; [reflexivity|]. cbn [Separators.replace_comma].
  destruct (Separators.is_comma c) eqn:E; cbn [existsb]; [exact IH|].
  now rewrite E.
Qed.

Lemma new_value_settled (value : Text.chars) :
  Separators.needs_fix (Separators.new_value value) = false.
Proof.
  unfold Separators.needs_fix, Separators.new_value.
  now rewrite replace_comma_no_comma.
Qed.

Lemma fix_tag_settled (st : Separators.Track * bool) (tag : string) :
  settled st.1 tag -> Separators.fix_tag st tag = st.
Proof.
  intros Hs. unfold Separators.fix_tag.
  destruct (st.1 !! tag) as [value|] eqn:E; [|reflexivity].
  cbv zeta. now rewrite (Hs value E).
Qed.

Lemma fix_tag_spec (st : Separators.Track * bool) (tag : string) :
  settled (Separators.fix_tag st tag).1 tag
  /\ (forall other, settled st.1 other ->
        settled (Separators.fix_tag st tag).1 other)
  /\ (forall other, other <> tag ->
        (Separators.fix_tag st tag).1 !! other = st.1 !! other)
  /\ ((Separators.fix_tag st tag).2 = false ->
      Separators.fix_tag st tag = st).
Proof.
  unfold Separators.fix_tag.
  destruct (st.1 !! tag) as [value|] eqn:E.
  - cbv zeta.
    destruct (Separators.needs_fix (Separators.first_value value)) eqn:En.
    + cbn [fst snd]. split; [|split; [|split]].
      * intros v. rewrite lookup_insert_eq. intros [= <-].
        cbn [Separators.first_value]. rewrite of_to_string.
        apply new_value_settled.
      * intros other Ho v. destruct (decide (other = tag)) as [->|Hne].
        -- rewrite lookup_insert_eq. intros [= <-].
           cbn [Separators.first_value]. rewrite of_to_string.
           apply new_value_settled.
        -- rewrite lookup_insert_ne by congruence. apply Ho.
      * intros other Hne. now rewrite lookup_insert_ne by congruence.
      * discriminate.
    + split; [|easy]. intros v Hv. rewrite E in Hv. now injection Hv as <-.
  - split; [|easy]. intros v Hv. rewrite E in Hv. discriminate Hv.
Qed.

Lemma fix_tags_spec (tags : list string) (st : Separators.Track * bool) :
  let st' := fold_left Separators.fix_tag tags st in
  (forall tag, tag ∈ tags -> settled st'.1 tag)
  /\ (forall other, settled st.1 other -> settled st'.1 other)
  /\ (forall other, other ∉ tags -> st'.1 !! other = st.1 !! other)
  /\ (st'.2 = false -> st' = st).
Proof.
  cbv zeta. revert st. induction tags as [|tag tags IH]; intros st.
  - cbn. split; [|easy]. intros tag Hin. now apply not_elem_of_nil in Hin.
  - cbn [fold_left].
    destruct (IH (Separators.fix_tag st tag)) as (H1 & H2 & H3 & H4).
    destruct (fix_tag_spec st tag) as (F1 & F2 & F3 & F4).
    split; [|split; [|split]].
    + intros t [->|Hin]%elem_of_cons; [apply H2, F1|now apply H1].
    + intros other Ho. apply H2, F2, Ho.
    + intros other [Hne Hnot]%not_elem_of_cons.
      rewrite H3 by exact Hnot. now apply F3.
    + intros Hm. specialize (H4 Hm). rewrite H4 in Hm |- *. now apply F4.
Qed.

Lemma fix_tags_settled (tags : list string) (st : Separators.Track * bool) :
  (forall tag, tag ∈ tags -> settled st.1 tag) ->
  fold_left Separators.fix_tag tags st = st.
Proof.
  revert st. induction tags as [|tag tags IH]; intros st Hs; [reflexivity|].
  cbn [fold_left]. rewrite fix_tag_settled by (apply Hs, list_elem_of_here).
  apply IH. intros t Ht. now apply Hs, list_elem_of_further.
Qed.

(** X22: after the separator fix of a track, no tag of the list has a first
    value with a comma and no semicolon; the other tags are as they were;
    the track is unchanged when the fix reports no modification; and a
    second fix of the fixed track modifies nothing.  A value that holds a
    semicolon keeps its commas. *)
Theorem X22_separator_fix_settles_the_tags
    (tags : list string) (track : Separators.Track) :
  let fixed := (Separators.fix_track tags track).1 in
  let modified := (Separators.fix_track tags track).2 in
  (forall tag value, tag ∈ tags -> fixed !! tag = Some value ->
     Separators.needs_fix (Separators.first_value value) = false)
  /\ (forall other, other ∉ tags -> fixed !! other = track !! other)
  /\ (modified = false -> fixed = track)
  /\ Separators.fix_track tags fixed = (fixed, false)
  /\ (forall value, existsb Separators.is_semicolon value = true ->
        Separators.needs_fix value = false).
Proof.
  cbv zeta. unfold Separators.fix_track.
  destruct (fix_tags_spec tags (track, false)) as (H1 & H2 & H3 & H4).
  cbv zeta in *. cbn [fst snd] in *.
  split; [|split; [exact H3|split; [|split]]].
  - intros tag value Hin. now apply H1.
  - intros Hm. now rewrite (H4 Hm).
  - apply (fix_tags_settled tags (_, false)). exact H1.
  - intros value Hv. unfold Separators.needs_fix. rewrite Hv.
    apply andb_false_r.
Qed.

(** *** The dispatch of the modes *)

(** X23: what a run of [main] does besides logging.  In the separator-fix
    mode it only fixes the separators: no output directory, no batch, no
    summary, no library refresh.  Otherwise it first creates the output
    directory, also when the modes conflict; it runs exactly one batch and
    prints the summary unless the modes conflict, in which case it runs none
    and exits; and it refreshes the library exactly when that is enabled
    and the modes do not conflict. *)
Theorem X23_main_dispatch (settings : Main.Settings) :
  let events := (Main.main settings).1 in
  let conflict :=
    (Main.recurseFetch settings && Main.recurseCombine settings)
    || (Main.recurseFetch settings && Main.recursePreserve settings)
    || (Main.recurseCombine settings && Main.recursePreserve settings) in
  (Main.fixSeparators settings = true ->
   List.filter (fun e => match e with Main.Log _ _ => false | _ => true end)
     events
   = [Main.FixAuthorSeparators (Main.input settings)]
   /\ (Main.main settings).2 = Main.Returned)
  /\ (Main.fixSeparators settings = false ->
      Main.MakeOutputDir (Main.output settings) ∈ events
      /\ length (List.filter is_run events) = (if conflict then 0 else 1)%nat
      /\ (Main.PrintSummary ∈ events <-> conflict = false)
      /\ (Main.RefreshLibrary ∈ events
          <-> conflict = false /\ Main.plexRefresh settings = true)
      /\ (Main.main settings).2
         = (if conflict then Main.SystemExit None else Main.Returned)).
Proof.
  cbv zeta. destruct settings as [inp out rf rc rp fs px].
  unfold Main.main, Main.processBooks. cbn [Main.fixSeparators
    Main.recurseFetch Main.recurseCombine Main.recursePreserve
    Main.plexRefresh Main.input Main.output].
  split; intros ->; [easy|].
  split.
  { destruct rf, rc, rp, px; cbn;
      apply list_elem_of_further, list_elem_of_here. }
  split; [now destruct rf, rc, rp, px|].
  split.
  { destruct rf, rc, rp, px; cbn; split; intros H; try easy;
      repeat (apply elem_of_cons in H as [H|H]; try discriminate H);
      try (now apply not_elem_of_nil in H);
      repeat (first [apply list_elem_of_here|apply list_elem_of_further]). }
  split; [|now destruct rf, rc, rp, px].
  destruct rf, rc, rp, px; cbn; split; intros H; try easy;
    try (destruct H as [H1 H2]; discriminate);
    repeat (apply elem_of_cons in H as [H|H]; try discriminate H);
    try (now apply not_elem_of_nil in H);
    repeat (first [apply list_elem_of_here|apply list_elem_of_further]).
Qed.

Lemma X23_main_dispatch_witness :
  (Main.main (Main.mkSettings "/in" "/out" true true false false true)).2
  = Main.SystemExit None.
Proof.
  refine (proj2 (proj2 (proj2 (proj2 (proj2
            (X23_main_dispatch
               (Main.mkSettings "/in" "/out" true true false false true))
            _))))).
  reflexivity.
Defined.

(** *** Tracks that share a disc and a number *)

Lemma insert_elem {A : Type} (l : list A) (k : nat) (x y : A) :
  y ∈ <[k := x]> l -> y = x \/ y ∈ l.
Proof.
  revert k. induction l as [|z l IH]; intros k; [now right|].
  destruct k as [|k]; cbn.
  - intros [->|H]%elem_of_cons; [now left|]. right. now apply list_elem_of_further.
  - intros [->|H]%elem_of_cons; [right; apply list_elem_of_here|].
    apply IH in H as [->|H]; [now left|]. right. now apply list_elem_of_further.
Qed.

Lemma place_disc_app (disk offset : Z) (l1 l2 : list FileMerger.Track)
    (chapters : FileMerger.Chapters) (tracksDone : Z) :
  FileMerger.place_disc disk offset (l1 ++ l2) chapters tracksDone
  = match FileMerger.place_disc disk offset l1 chapters tracksDone with
    | Some (chapters', tracksDone') =>
        FileMerger.place_disc disk offset l2 chapters' tracksDone'
    | None => None
    end.
Proof.
  revert chapters tracksDone. induction l1 as [|t l1 IH];
    intros chapters tracksDone; [reflexivity|].
  cbn [app FileMerger.place_disc].
  destruct (FileMerger.disc_number t) as [e|d]; [reflexivity|].
  destruct (FileMerger.track_number t) as [e|n]; [reflexivity|].
  destruct (d =? disk); [|apply IH].
  destruct (FileMerger.py_index _ _) as [k|]; [apply IH|reflexivity].
Qed.

(** A pass that places no copy of [a] leaves [a] where it is: the slots
    that hold it can only get fewer, and the list keeps its length. *)
Lemma place_disc_others (disk offset : Z) (a : FileMerger.Track)
    (tracks : list FileMerger.Track)
    (chapters chapters' : FileMerger.Chapters) (tracksDone tracksDone' : Z) :
  (forall t, t ∈ tracks -> t <> a) ->
  FileMerger.place_disc disk offset tracks chapters tracksDone
  = Some (chapters', tracksDone') ->
  length chapters' = length chapters
  /\ forall i, chapters' !! i = Some (Some a) -> chapters !! i = Some (Some a).
Proof.
  revert chapters tracksDone. induction tracks as [|t tracks IH];
    intros chapters tracksDone Hne.
  - cbn. intros [= <- _]. easy.
  - cbn [FileMerger.place_disc].
    destruct (FileMerger.disc_number t) as [e|d]; [easy|].
    destruct (FileMerger.track_number t) as [e|n]; [easy|].
    assert (forall t', t' ∈ tracks -> t' <> a) as Hne'
      by (intros t' Ht'; now apply Hne, list_elem_of_further).
    destruct (d =? disk); [|now apply IH].
    destruct (FileMerger.py_index _ _) as [k|]; [|easy].
    intros Hp. apply IH in Hp as [Hlen Hkeep]; [|exact Hne'].
    rewrite length_insert in Hlen. split; [exact Hlen|].
    intros i Hi. apply Hkeep in Hi.
    destruct (decide (k = i)) as [->|Hki].
    + apply list_lookup_insert_Some in Hi as [(_ & Heq & _)|[Hc _]];
        [|now elim Hc].
      injection Heq as Heq. exfalso. apply (Hne t); [apply list_elem_of_here|].
      exact Heq.
    + now rewrite list_lookup_insert_ne in Hi.
Qed.

Section SharedSlot.

Variable a b : FileMerger.Track.
Variable d n : Z.
Hypothesis a_disc : FileMerger.disc_number a = inr d.
Hypothesis b_disc : FileMerger.disc_number b = inr d.
Hypothesis a_number : FileMerger.track_number a = inr n.
Hypothesis b_number : FileMerger.track_number b = inr n.
Hypothesis a_b : a <> b.

(** The pass for the disc of [a] and [b]: [b] takes the slot of [a]. *)
Lemma place_disc_overwrites (offset : Z) (pre mid post : list FileMerger.Track)
    (chapters chapters' : FileMerger.Chapters) (tracksDone tracksDone' : Z) :
  (forall t, t ∈ pre ++ mid ++ post -> t <> a) ->
  Some a ∉ chapters ->
  FileMerger.place_disc d offset (pre ++ a :: mid ++ b :: post)
    chapters tracksDone = Some (chapters', tracksDone') ->
  length chapters' = length chapters /\ Some a ∉ chapters'.
Proof.
  intros Hne Hout. rewrite place_disc_app.
  destruct (FileMerger.place_disc d offset pre chapters tracksDone)
    as [[ch1 done1]|] eqn:E1; [|easy].
  apply place_disc_others with (a := a) in E1 as [Hlen1 Hkeep1];
    [|intros t Ht; apply Hne, elem_of_app; now left].
  cbn [FileMerger.place_disc]. rewrite a_disc, a_number, Z.eqb_refl.
  destruct (FileMerger.py_index (length ch1) (n + offset)) as [k|] eqn:Ek;
    [|easy].
  rewrite place_disc_app.
  destruct (FileMerger.place_disc d offset mid (<[k := Some a]> ch1)
              (done1 + 1)) as [[ch3 done3]|] eqn:E3; [|easy].
  apply place_disc_others with (a := a) in E3 as [Hlen3 Hkeep3];
    [|intros t Ht; apply Hne; rewrite !elem_of_app; tauto].
  rewrite length_insert in Hlen3.
  cbn [FileMerger.place_disc]. rewrite b_disc, b_number, Z.eqb_refl.
  rewrite Hlen3, Ek. intros E5.
  apply place_disc_others with (a := a) in E5 as [Hlen5 Hkeep5];
    [|intros t Ht; apply Hne; rewrite !elem_of_app; tauto].
  rewrite length_insert in Hlen5. split; [congruence|].
  intros Hin. apply list_elem_of_lookup in Hin as [i Hi].
  apply Hkeep5 in Hi.
  assert (k < length ch3)%nat as Hk
    by (rewrite Hlen3; eapply py_index_lt, Ek).
  destruct (decide (k = i)) as [->|Hki].
  - rewrite list_lookup_insert_eq in Hi by exact Hk.
    injection Hi as Hi. now apply a_b.
  - rewrite list_lookup_insert_ne in Hi by exact Hki.
    apply Hkeep3 in Hi. rewrite list_lookup_insert_ne in Hi by exact Hki.
    apply Hkeep1 in Hi. apply Hout. apply list_elem_of_lookup. eauto.
Qed.

(** A pass for another disc does not place [a]. *)
Lemma place_disc_other_disc (disk offset : Z) (l : list FileMerger.Track)
    (chapters chapters' : FileMerger.Chapters) (tracksDone tracksDone' : Z) :
  disk <> d -> Some a ∉ chapters ->
  FileMerger.place_disc disk offset l chapters tracksDone
  = Some (chapters', tracksDone') ->
  Some a ∉ chapters'.
Proof.
  intros Hd. revert chapters tracksDone.
  induction l as [|t l IHl]; intros chapters tracksDone Hout.
  - cbn. now intros [= <- _].
  - cbn [FileMerger.place_disc].
    destruct (FileMerger.disc_number t) as [e|dt] eqn:Edt; [easy|].
    destruct (FileMerger.track_number t) as [e|nt]; [easy|].
    destruct (Z.eqb_spec dt disk) as [->|Hdt]; [|now apply IHl].
    destruct (FileMerger.py_index _ _) as [k|]; [|easy].
    apply IHl. intros Hin. apply insert_elem in Hin as [Heq|Hin];
      [|now apply Hout].
    injection Heq as <-. rewrite a_disc in Edt. injection Edt as ->.
    now apply Hd.
Qed.

Lemma place_discs_overwrites (pre mid post : list FileMerger.Track) :
  (forall t, t ∈ pre ++ mid ++ post -> t <> a) ->
  forall (left : nat) (disk : Z) (chapters chapters' : FileMerger.Chapters)
         (tracksDone disk' : Z),
    Some a ∉ chapters ->
    FileMerger.place_discs left disk (pre ++ a :: mid ++ b :: post)
      chapters tracksDone = Some (chapters', disk') ->
    Some a ∉ chapters'.
Proof.
  intros Hne. induction left as [|left IH];
    intros disk chapters chapters' tracksDone disk' Hout.
  - cbn. now intros [= <- _].
  - cbn [FileMerger.place_discs].
    destruct ((tracksDone <? _) && (disk <=? FileMerger.maxDisk));
      [|now intros [= <- _]].
    destruct (FileMerger.place_disc disk tracksDone _ chapters tracksDone)
      as [[ch1 done1]|] eqn:E1; [|easy].
    apply IH. destruct (Z.eq_dec disk d) as [->|Hd].
    + now apply place_disc_overwrites in E1 as [_ H].
    + now apply (place_disc_other_disc disk _ _ _ _ _ _ Hd Hout) in E1.
Qed.

End SharedSlot.

Lemma trim_elem (chapters pieces : FileMerger.Chapters)
    (x : option FileMerger.Track) :
  FileMerger.trim chapters = Some pieces -> x ∈ pieces -> x ∈ chapters.
Proof.
  unfold FileMerger.trim.
  destruct (chapters !! 0%nat) as [first|]; [|easy].
  set (middle := match first with
                 | None => drop 1 chapters | Some _ => chapters end).
  assert (forall y, y ∈ middle -> y ∈ chapters) as Hm.
  { intros y. subst middle. destruct first; [easy|].
    intros Hy. exact (sublist_subseteq _ _ (sublist_drop _ _) y Hy). }
  destruct (last middle) as [final|]; [|easy].
  intros [= <-] Hx. apply Hm.
  destruct final; [exact Hx|].
  exact (sublist_subseteq _ _ (sublist_take _ _) x Hx).
Qed.

(** X24: the multi-disc ordering does not detect two tracks that share a
    disc number and a track number: the later one takes the slot of the
    earlier one, and the earlier one is in no result.  For three files
    A, B (both disc 1, track 1) and C (disc 2, track 1) the result is B, a
    gap, C. *)
Theorem X24_multi_disc_order_drops_an_overwritten_track
    (tracks : list FileMerger.Track) (i j : nat)
    (a b : FileMerger.Track) (d n : Z) :
  NoDup (map FileMerger.filename tracks) ->
  (i < j)%nat -> tracks !! i = Some a -> tracks !! j = Some b ->
  FileMerger.disc_number a = inr d -> FileMerger.disc_number b = inr d ->
  FileMerger.track_number a = inr n -> FileMerger.track_number b = inr n ->
  (Some a ∉ FileMerger.orderByTrackNumber tracks true)
  /\ FileMerger.orderByTrackNumber
       [ FileMerger.mkTrack "A.mp3" (Some ["1"%string]) (Some ["1"%string])
           1%float;
         FileMerger.mkTrack "B.mp3" (Some ["1"%string]) (Some ["1"%string])
           1%float;
         FileMerger.mkTrack "C.mp3" (Some ["1"%string]) (Some ["2"%string])
           1%float ] true
     = [ Some (FileMerger.mkTrack "B.mp3" (Some ["1"%string])
                 (Some ["1"%string]) 1%float);
         None;
         Some (FileMerger.mkTrack "C.mp3" (Some ["1"%string])
                 (Some ["2"%string]) 1%float) ].
Proof.
  intros Hnd Hij Hi Hj Had Hbd Han Hbn. split; [|vm_compute; reflexivity].
  assert (forall k t, tracks !! k = Some t -> k <> i -> t <> a) as Hother.
  { intros k t Hk Hki ->. apply Hki.
    apply (NoDup_lookup _ k i (FileMerger.filename a) Hnd);
      rewrite list_lookup_fmap; [now rewrite Hk|now rewrite Hi]. }
  assert (a <> b) as Hab by (intros ->; apply (Hother j b Hj); [lia|reflexivity]).
  pose proof (take_drop_middle tracks i a Hi) as Hsplit.
  assert (drop (S i) tracks !! (j - S i)%nat = Some b) as Hj'
    by (rewrite lookup_drop, <- Hj; f_equal; lia).
  pose proof (take_drop_middle _ _ b Hj') as Hsplit'.
  rewrite <- Hsplit' in Hsplit.
  set (pre := take i tracks) in *.
  set (mid := take (j - S i) (drop (S i) tracks)) in *.
  set (post := drop (S (j - S i)) (drop (S i) tracks)) in *.
  assert (forall t, t ∈ pre ++ mid ++ post -> t <> a) as Hne.
  { intros t Ht. rewrite !elem_of_app in Ht.
    destruct Ht as [Ht|[Ht|Ht]]; apply list_elem_of_lookup in Ht as [k Hk].
    - subst pre. apply lookup_take_Some in Hk as [Hk Hlt].
      apply (Hother k t Hk). lia.
    - subst mid. apply lookup_take_Some in Hk as [Hk Hlt].
      rewrite lookup_drop in Hk. apply (Hother _ t Hk). lia.
    - subst post. rewrite !lookup_drop in Hk. apply (Hother _ t Hk). lia. }
  unfold FileMerger.orderByTrackNumber.
  destruct (FileMerger.place_discs 11 1 tracks _ 0)
    as [[chapters' disk']|] eqn:Ep; [|apply not_elem_of_nil].
  destruct (FileMerger.maxDisk <? disk'); [apply not_elem_of_nil|].
  destruct (FileMerger.trim chapters') as [pieces|] eqn:Et;
    [|apply not_elem_of_nil].
  cbn [from_option id]. intros Hin. apply (trim_elem _ _ _ Et) in Hin.
  revert Hin. rewrite <- Hsplit in Ep.
  apply (place_discs_overwrites a b d n Had Hbd Han Hbn Hab pre mid post Hne
           _ _ _ _ _ _) in Ep; [exact Ep|].
  intros Hin. apply elem_of_replicate in Hin as [Hin _]. discriminate Hin.
Qed.

Lemma X24_multi_disc_order_drops_an_overwritten_track_witness :
  Some (FileMerger.mkTrack "A.mp3" (Some ["1"%string]) (Some ["1"%string])
          1%float)
  ∉ FileMerger.orderByTrackNumber
      [ FileMerger.mkTrack "A.mp3" (Some ["1"%string]) (Some ["1"%string])
          1%float;
        FileMerger.mkTrack "B.mp3" (Some ["1"%string]) (Some ["1"%string])
          1%float;
        FileMerger.mkTrack "C.mp3" (Some ["1"%string]) (Some ["2"%string])
          1%float ] true.
Proof.
  refine (proj1 (X24_multi_disc_order_drops_an_overwritten_track
                   _ 0%nat 1%nat _
                   (FileMerger.mkTrack "B.mp3" (Some ["1"%string])
                      (Some ["1"%string]) 1%float)
                   1 1 _ _ _ _ _ _ _ _)); try reflexivity.
  - apply (bool_decide_unpack _). vm_compute. exact I.
  - lia.
Defined.

(** *** Files that match two patterns *)

Lemma count_occ_filter (f : string -> bool) (l : list string) (x : string) :
  count_occ string_dec (List.filter f l) x
  = if f x then count_occ string_dec l x else 0%nat.
Proof.
  induction l as [|y l IH]; cbn; [now destruct (f x)|].
  destruct (f y) eqn:Ey; cbn; destruct (string_dec y x) as [->|Hne].
  - now rewrite IH, Ey.
  - exact IH.
  - now rewrite IH, Ey.
  - exact IH.
Qed.

Lemma count_occ_NoDup (l : list string) (x : string) :
  NoDup l ->
  count_occ string_dec l x = if bool_decide (x ∈ l) then 1%nat else 0%nat.
Proof.
  induction 1 as [|y l Hy Hnd IH]; [reflexivity|]. cbn.
  destruct (string_dec y x) as [->|Hne].
  - rewrite bool_decide_eq_true_2 by apply list_elem_of_here.
    rewrite IH, bool_decide_eq_false_2 by exact Hy. reflexivity.
  - rewrite IH. rewrite (bool_decide_ext (x ∈ y :: l) (x ∈ l)); [reflexivity|].
    rewrite elem_of_cons. split; [intros [->|H]; [congruence|exact H]|now right].
Qed.

Lemma count_occ_candidates (recurse : bool) (t : AudioFiles.Tree)
    (f : string) :
  NoDup (if recurse then AudioFiles.descendants t else AudioFiles.children t) ->
  count_occ string_dec (AudioFiles.candidates recurse t) f
  = if bool_decide
         (f ∈ if recurse then AudioFiles.descendants t
              else AudioFiles.children t)
    then matching_patterns (PyPath.name f) else 0%nat.
Proof.
  intros Hnd. unfold AudioFiles.candidates, AudioFiles.glob.
  rewrite !count_occ_app, !count_occ_filter, (count_occ_NoDup _ _ Hnd).
  unfold matching_patterns.
  destruct (bool_decide _);
    destruct (AudioFiles.is_m4 _), (AudioFiles.is_mp _),
             (AudioFiles.is_flac _), (AudioFiles.is_wav _); reflexivity.
Qed.

(** X25: [getAudioFiles] lists a file once for every pattern that its name
    matches: in a folder whose paths are distinct, a path occurs in the
    full list as many times as its name matches of the four patterns, so a
    name with [.m4] and [.mp] in it is listed, and then processed, twice. *)
Theorem X25_getAudioFiles_lists_a_file_once_per_pattern
    (t : AudioFiles.Tree) (recurse : bool) (f : string) :
  let source :=
    if recurse then AudioFiles.descendants t else AudioFiles.children t in
  NoDup source ->
  occurrences f (files_of (AudioFiles.getAudioFiles t (-1) recurse 0))
  = if bool_decide (f ∈ source) then matching_patterns (PyPath.name f)
    else 0%nat.
Proof.
  cbv zeta. intros Hnd. rewrite <- (count_occ_candidates recurse t f Hnd).
  unfold occurrences.
  destruct (AudioFiles.candidates recurse t) as [|c cs] eqn:Ec.
  - unfold AudioFiles.getAudioFiles. rewrite Ec. reflexivity.
  - rewrite <- Ec. rewrite getAudioFiles_rest by (first [lia|rewrite Ec; discriminate]).
    cbn [files_of Z.to_nat drop].
    apply (Permutation_count_occ string_dec), sort_by_key_Permutation.
Qed.

Lemma X25_getAudioFiles_lists_a_file_once_per_pattern_witness :
  occurrences "/in/x.m4a.mp3"
    (files_of (AudioFiles.getAudioFiles
                 (AudioFiles.mkTree ["/in/y.mp3"; "/in/x.m4a.mp3"]%string [])
                 (-1) false 0))
  = 2%nat.
Proof.
  apply (X25_getAudioFiles_lists_a_file_once_per_pattern
           (AudioFiles.mkTree ["/in/y.mp3"; "/in/x.m4a.mp3"]%string [])
           false "/in/x.m4a.mp3").
  apply (bool_decide_unpack _). vm_compute. exact I.
Defined.

(** *** The conversion queue *)

Lemma run_conversions (steps : list Conversions.Step) (q : Conversions.Queue) :
  Conversions.conversions (Conversions.run steps q)
  = Conversions.conversions q ++ appended steps.
Proof.
  revert q. induction steps as [|s steps IH]; intros q.
  - cbn. now rewrite app_nil_r.
  - cbn [Conversions.run fold_left]. fold (Conversions.run steps).
    rewrite IH. destruct s as [c|]; cbn; [|reflexivity].
    now rewrite <- app_assoc.
Qed.

Lemma isConversionQueued_app (l l' : list Conversions.Conversion)
    (path name : string) :
  Conversions.isConversionQueued l path = Some name ->
  Conversions.isConversionQueued (l ++ l') path = Some name.
Proof.
  induction l as [|c l IH]; [discriminate|]. cbn.
  destruct (String.eqb _ _); [easy|exact IH].
Qed.

(** X26: nothing takes a conversion off the queue.  After any steps the
    list holds every conversion appended so far; each call of
    [processConversions] submits all of them, those submitted by earlier
    calls included; and a book path that is reported as queued stays
    reported as queued. *)
Theorem X26_conversion_queue_is_never_emptied
    (steps : list Conversions.Step) (q : Conversions.Queue) :
  Conversions.conversions (Conversions.run steps q)
  = Conversions.conversions q ++ appended steps
  /\ Conversions.submitted
       (Conversions.run (steps ++ [Conversions.ProcessConversions]) q)
     = Conversions.submitted (Conversions.run steps q)
       ++ Conversions.conversions q ++ appended steps
  /\ (forall path name,
        Conversions.isConversionQueued (Conversions.conversions q) path
        = Some name ->
        Conversions.isConversionQueued
          (Conversions.conversions (Conversions.run steps q)) path
        = Some name).
Proof.
  split; [apply run_conversions|]. split.
  - unfold Conversions.run. rewrite fold_left_app. cbn [fold_left].
    fold (Conversions.run steps q). cbn.
    now rewrite run_conversions.
  - intros path name H. rewrite run_conversions.
    now apply isConversionQueued_app.
Qed.

(** *** Numbers in titles *)

Lemma keyed_runs_digit_runs (cur l : Text.chars) :
  map fst (FileMerger.keyed_runs cur l) = FileMerger.digit_runs cur l.
Proof.
  revert cur. induction l as [|c l IH]; intros cur.
  - cbn. now destruct cur.
  - cbn [FileMerger.keyed_runs FileMerger.digit_runs].
    destruct (Text.is_digit c); [apply IH|].
    destruct cur; [apply IH|]. cbn [map fst]. now rewrite IH.
Qed.

(** X27: the two readers of chapter numbers agree: the number that
    [findAlphanumericKey] returns for a title and a position is the number
    that [findTitleNum] returns, and where the former returns [None] the
    latter returns [-1]. *)
Theorem X27_title_numbers_agree (title : Text.chars) (whichNum : nat) :
  FileMerger.findTitleNum title whichNum
  = match FileMerger.findAlphanumericKey title whichNum with
    | Some (number, _) => number
    | None => -1
    end.
Proof.
  unfold FileMerger.findTitleNum, FileMerger.findAlphanumericKey. cbv zeta.
  rewrite <- keyed_runs_digit_runs, list_lookup_fmap.
  destruct (FileMerger.keyed_runs [] (Text.upper title) !! whichNum)
    as [[num_str letter]|]; cbn [fmap option_fmap option_map fst];
    [reflexivity|].
  destruct (FileMerger.has_any FileMerger.opening_words (Text.upper title));
    [reflexivity|].
  now destruct (FileMerger.has_any FileMerger.closing_words (Text.upper title)).
Qed.

(** *** Duplicate single files *)

Lemma set_group_concat (k : string) (f : Versions.File)
    (groups : SingleFiles.Groups) :
  concat (SingleFiles.set_group k [f] groups).*2 ⊆+ concat groups.*2 ++ [f].
Proof.
  induction groups as [|[k' v'] rest IH]; cbn; [reflexivity|].
  destruct (String.eqb k' k); cbn.
  - rewrite <- app_assoc. apply submseteq_inserts_l.
    rewrite (Permutation_app_comm (concat rest.*2) [f]). reflexivity.
  - rewrite <- app_assoc. now apply submseteq_app.
Qed.

Lemma append_group_concat (k : string) (f : Versions.File)
    (groups : SingleFiles.Groups) :
  concat (SingleFiles.append_group k f groups).*2 ≡ₚ concat groups.*2 ++ [f].
Proof.
  induction groups as [|[k' v'] rest IH]; cbn; [reflexivity|].
  destruct (String.eqb k' k); cbn.
  - rewrite <- !app_assoc. apply Permutation_app_head, Permutation_app_comm.
  - rewrite <- app_assoc. now apply Permutation_app_head.
Qed.

Lemma set_group_not_nil (k : string) (f : Versions.File)
    (groups : SingleFiles.Groups) :
  Forall (fun g => g <> []) groups.*2 ->
  Forall (fun g => g <> []) (SingleFiles.set_group k [f] groups).*2.
Proof.
  induction groups as [|[k' v'] rest IH]; cbn.
  - intros _. constructor; [discriminate|constructor].
  - intros [Hv Hrest]%Forall_cons. destruct (String.eqb k' k); cbn.
    + constructor; [discriminate|exact Hrest].
    + constructor; [exact Hv|now apply IH].
Qed.

Lemma append_group_not_nil (k : string) (f : Versions.File)
    (groups : SingleFiles.Groups) :
  Forall (fun g => g <> []) groups.*2 ->
  Forall (fun g => g <> []) (SingleFiles.append_group k f groups).*2.
Proof.
  induction groups as [|[k' v'] rest IH]; cbn.
  - intros _. constructor; [discriminate|constructor].
  - intros [Hv Hrest]%Forall_cons. destruct (String.eqb k' k); cbn.
    + constructor; [now destruct v'|exact Hrest].
    + constructor; [exact Hv|now apply IH].
Qed.

Lemma set_group_sets (k : string) (v : list Versions.File)
    (groups : SingleFiles.Groups) :
  (k, v) ∈ SingleFiles.set_group k v groups.
Proof.
  induction groups as [|[k' v'] rest IH]; cbn; [apply list_elem_of_here|].
  destruct (String.eqb_spec k' k) as [->|Hne];
    [apply list_elem_of_here|now apply list_elem_of_further].
Qed.

Lemma set_group_other (k p : string) (v w : list Versions.File)
    (groups : SingleFiles.Groups) :
  p <> k -> (p, w) ∈ groups -> (p, w) ∈ SingleFiles.set_group k v groups.
Proof.
  intros Hne. induction groups as [|[k' v'] rest IH]; cbn;
    [now intros H%not_elem_of_nil|].
  intros [[= <- <-]|Hin]%elem_of_cons.
  - destruct (String.eqb_spec p k) as [->|_]; [now elim Hne|].
    apply list_elem_of_here.
  - destruct (String.eqb k' k);
      apply list_elem_of_further; [exact Hin|now apply IH].
Qed.

Lemma append_group_other (k p : string) (f : Versions.File)
    (w : list Versions.File) (groups : SingleFiles.Groups) :
  p <> k -> (p, w) ∈ groups -> (p, w) ∈ SingleFiles.append_group k f groups.
Proof.
  intros Hne. induction groups as [|[k' v'] rest IH]; cbn;
    [now intros H%not_elem_of_nil|].
  intros [[= <- <-]|Hin]%elem_of_cons.
  - destruct (String.eqb_spec p k) as [->|_]; [now elim Hne|].
    apply list_elem_of_here.
  - destruct (String.eqb k' k);
      apply list_elem_of_further; [exact Hin|now apply IH].
Qed.

Lemma group_step_not_nil (groups : SingleFiles.Groups)
    (e : SingleFiles.Entry) :
  SingleFiles.group_step groups e <> [].
Proof.
  unfold SingleFiles.group_step.
  destruct (SingleFiles.read e); destruct groups as [|[k' v'] rest]; cbn;
    try discriminate; now destruct (String.eqb k' _).
Qed.

(** The groups after the grouping loop. *)
Lemma grouping_spec (files : list SingleFiles.Entry) :
  let groups := fold_left SingleFiles.group_step files [] in
  concat groups.*2 ⊆+ map SingleFiles.file files
  /\ Forall (fun g => g <> []) groups.*2
  /\ (files <> [] -> groups <> [])
  /\ (keys_apart files ->
      forall e, e ∈ files -> SingleFiles.read e = SingleFiles.Unreadable ->
        exists f, (Versions.path (SingleFiles.file e), [f]) ∈ groups
                  /\ Versions.path f = Versions.path (SingleFiles.file e)).
Proof.
  cbv zeta. induction files as [|e files IH] using rev_ind.
  - cbn. split; [reflexivity|]. split; [constructor|]. split; [easy|].
    intros _ e He. now apply not_elem_of_nil in He.
  - destruct IH as (Hsub & Hne & _ & Hkeep).
    rewrite fold_left_app. cbn [fold_left].
    set (groups := fold_left SingleFiles.group_step files []) in *.
    split; [|split; [|split]].
    + rewrite map_app. cbn [map]. unfold SingleFiles.group_step.
      destruct (SingleFiles.read e) as [|author title].
      * rewrite set_group_concat. now apply submseteq_app.
      * rewrite append_group_concat. now apply submseteq_app.
    + unfold SingleFiles.group_step.
      destruct (SingleFiles.read e);
        [now apply set_group_not_nil|now apply append_group_not_nil].
    + intros _. apply group_step_not_nil.
    + intros Hapart u Hu Hread.
      assert (keys_apart files) as Hapart'.
      { intros a b author title Ha Hb. apply Hapart; apply elem_of_app; now left. }
      unfold SingleFiles.group_step.
      destruct (SingleFiles.read e) as [|author title] eqn:Ee.
      * destruct (String.eqb_spec (Versions.path (SingleFiles.file u))
                    (Versions.path (SingleFiles.file e))) as [Hp|Hp].
        -- exists (SingleFiles.file e). rewrite Hp.
           split; [apply set_group_sets|reflexivity].
        -- apply elem_of_app in Hu as [Hu|Hu].
           ++ destruct (Hkeep Hapart' u Hu Hread) as (f & Hf & Hpf).
              exists f. split; [|exact Hpf]. now apply set_group_other.
           ++ apply list_elem_of_singleton in Hu. subst u. now elim Hp.
      * apply elem_of_app in Hu as [Hu|Hu].
        -- destruct (Hkeep Hapart' u Hu Hread) as (f & Hf & Hpf).
           exists f. split; [|exact Hpf]. apply append_group_other; [|exact Hf].
           intros Heq. apply (Hapart u e author title);
             [apply elem_of_app; now left| |exact Hread|exact Ee|now symmetry].
           apply elem_of_app. right. now apply list_elem_of_singleton.
        -- apply list_elem_of_singleton in Hu. subst u. congruence.
Qed.

Lemma selectBestVersion_elem (files : list Versions.File) :
  files <> [] ->
  exists best, Versions.selectBestVersion files = Some best /\ best ∈ files.
Proof.
  intros Hne. unfold Versions.selectBestVersion.
  set (leb := fun a b => _).
  pose proof (sort_Permutation leb files) as P.
  destruct (StableSort.sort leb files) as [|m rest].
  - apply Permutation_nil_l in P. now elim Hne.
  - exists m. split; [reflexivity|]. rewrite <- P. apply list_elem_of_here.
Qed.

Lemma select_spec (group_files : list Versions.File) :
  exists chosen,
    SingleFiles.select group_files = Some chosen
    /\ chosen ⊆+ group_files
    /\ (group_files <> [] -> chosen <> [])
    /\ (forall f, group_files = [f] -> chosen = [f]).
Proof.
  destruct group_files as [|f [|g rest]].
  - exists []. split; [vm_compute; reflexivity|]. easy.
  - exists [f]. split; [reflexivity|]. split; [reflexivity|].
    split; [easy|]. now intros f' [= <-].
  - unfold SingleFiles.select. cbv zeta.
    destruct (PyNum.geb _ _).
    + exists (f :: g :: rest). split; [reflexivity|]. split; [reflexivity|].
      split; [easy|]. discriminate.
    + destruct (selectBestVersion_elem (f :: g :: rest)) as (best & -> & Hin);
        [discriminate|].
      exists [best]. split; [reflexivity|].
      split; [now apply singleton_submseteq_l|]. split; [easy|discriminate].
Qed.

Lemma select_all_spec (groups : SingleFiles.Groups) :
  Forall (fun g => g <> []) groups.*2 ->
  exists result,
    SingleFiles.select_all groups = Some result
    /\ result ⊆+ concat groups.*2
    /\ (groups <> [] -> result <> [])
    /\ (forall p f, (p, [f]) ∈ groups -> f ∈ result).
Proof.
  induction groups as [|[k v] rest IH]; cbn [fmap list_fmap snd].
  - intros _. exists []. split; [reflexivity|]. split; [reflexivity|].
    split; [easy|]. intros p f H. now apply not_elem_of_nil in H.
  - intros [Hv Hrest]%Forall_cons.
    destruct (IH Hrest) as (later & Hl & Hsub & _ & Hsingle).
    destruct (select_spec v) as (chosen & Hc & Hcsub & Hcne & Hcone).
    exists (chosen ++ later). cbn [SingleFiles.select_all concat].
    rewrite Hc, Hl. split; [reflexivity|].
    split; [now apply submseteq_app|]. split.
    + intros _ E. apply app_eq_nil in E as [E _]. now apply Hcne.
    + intros p f [[= <- <-]|Hin]%elem_of_cons; apply elem_of_app.
      * left. rewrite (Hcone f eq_refl). apply list_elem_of_here.
      * right. now apply (Hsingle p).
Qed.

(** X28: [detectDuplicateSingleFiles] always returns, and what it returns
    are files of the list, none more often than the list has it; at least
    one file is kept when there is one; a list of at most one file is
    returned as it is; and, when no track has for its key the path of a
    file that cannot be read, every file that cannot be read is kept
    under its path. *)
Theorem X28_detectDuplicateSingleFiles_keeps_files
    (files : list SingleFiles.Entry) :
  exists result,
    SingleFiles.detectDuplicateSingleFiles files = Some result
    /\ result ⊆+ map SingleFiles.file files
    /\ (files <> [] -> result <> [])
    /\ ((length files <= 1)%nat -> result = map SingleFiles.file files)
    /\ (keys_apart files ->
        forall e, e ∈ files -> SingleFiles.read e = SingleFiles.Unreadable ->
          exists f, f ∈ result
                    /\ Versions.path f = Versions.path (SingleFiles.file e)).
Proof.
  unfold SingleFiles.detectDuplicateSingleFiles.
  destruct (Nat.leb_spec (length files) 1) as [Hle|Hgt].
  - exists (map SingleFiles.file files). split; [reflexivity|].
    split; [reflexivity|]. split; [now destruct files|]. split; [easy|].
    intros _ e He _. exists (SingleFiles.file e).
    split; [|reflexivity]. apply list_elem_of_fmap. eauto.
  - destruct (grouping_spec files) as (Hsub & Hne & Hnil & Hkeep).
    cbv zeta in *.
    destruct (select_all_spec _ Hne) as (result & Hr & Hrsub & Hrne & Hsingle).
    exists result. split; [exact Hr|].
    split; [now rewrite Hrsub|]. split; [intros H; now apply Hrne, Hnil|].
    split; [lia|].
    intros Hapart e He Hread.
    destruct (Hkeep Hapart e He Hread) as (f & Hf & Hpf).
    exists f. split; [now apply (Hsingle _ f Hf)|exact Hpf].
Qed.

(** *** The order of the files of a folder *)

Lemma single_disc_Permutation (tracks : list FileMerger.Track) :
  FileMerger.orderByTrackNumber tracks false <> [] ->
  omap id (FileMerger.orderByTrackNumber tracks false) ≡ₚ tracks.
Proof.
  unfold FileMerger.orderByTrackNumber.
  destruct (FileMerger.place_single tracks (replicate (length tracks + 1) None))
    as [final|] eqn:Ep; [|now intros H].
  destruct (FileMerger.trim final) as [pieces|] eqn:Et; [|now intros H].
  cbn [from_option id]. intros _.
  apply place_single_slots in Ep.
  - destruct Ep as (_ & Hperm & Hslot).
    destruct (trim_slots _ _ _ Et Hslot) as (Ho & _).
    rewrite Ho, Hperm, omap_replicate_None. reflexivity.
  - intros i t Hi. apply lookup_replicate in Hi as [Hi _]. discriminate Hi.
Qed.

Lemma orderByTitle_Permutation (tracks result : list FileMerger.Track) :
  FileMerger.orderByTitle tracks = Some result -> result ≡ₚ tracks.
Proof.
  unfold FileMerger.orderByTitle. intros Ho.
  destruct (FileMerger.orderByTitleAlphanumeric tracks) as [|p ps] eqn:Ea.
  - destruct (FileMerger.numeric_attempts FileMerger.positions tracks)
      as [out| |] eqn:En; [| |discriminate Ho].
    + injection Ho as <-. now apply numeric_attempts_Permutation in En.
    + injection Ho as <-. apply sort_Permutation.
  - injection Ho as <-.
    destruct (alphanumeric_attempts_Permutation FileMerger.positions tracks)
      as [H|H]; unfold FileMerger.orderByTitleAlphanumeric in Ea;
      rewrite Ea in H; [discriminate H|exact H].
Qed.

Lemma omap_map_Some {A : Type} (l : list A) : omap id (map Some l) = l.
Proof. induction l as [|x l IH]; [reflexivity|]. cbn. now rewrite IH. Qed.

(** X29: in single-disc mode (every file is read and none declares a disc
    other than 1) [orderFiles] of at least one file always returns an
    order, by track number or else by title, that holds every track
    exactly once, and it does not fail the folder; for no files at all it
    ends with the [IndexError] of the ordering by title. *)
Theorem X29_orderFiles_orders_every_track
    (resolve : string -> string) (move : bool)
    (files : list (string * FileMerger.Read)) (folderPath : string)
    (st : BookStatus.Ledger) (tracks : list FileMerger.Track) :
  FileMerger.read_tracks files [] false = inl (tracks, false) ->
  match tracks with
  | [] =>
      FileMerger.orderFiles resolve move files folderPath st
      = (FileMerger.Uncaught FileMerger.IndexError, st)
  | _ :: _ =>
      exists pieces,
        FileMerger.orderFiles resolve move files folderPath st
        = (FileMerger.Pieces pieces, st)
        /\ pieces <> [] /\ omap id pieces ≡ₚ tracks
  end.
Proof.
  intros Hread. unfold FileMerger.orderFiles. rewrite Hread.
  destruct tracks as [|t tracks]; [reflexivity|].
  pose proof (single_disc_Permutation (t :: tracks)) as Hnum.
  destruct (FileMerger.orderByTrackNumber (t :: tracks) false)
    as [|p pieces].
  - destruct (orderByTitle_not_nil (t :: tracks)) as (ordered & Ho & Hne);
      [discriminate|].
    rewrite Ho. destruct ordered as [|o ordered]; [now elim Hne|].
    exists (map Some (o :: ordered)). split; [reflexivity|].
    split; [discriminate|]. rewrite omap_map_Some.
    now apply orderByTitle_Permutation.
  - exists (p :: pieces). split; [reflexivity|]. split; [discriminate|].
    apply Hnum. discriminate.
Qed.

Lemma X29_orderFiles_orders_every_track_witness :
  exists pieces,
    FileMerger.orderFiles (fun p => p) false
      [ ("b.mp3"%string,
         FileMerger.ReadTrack
           (FileMerger.mkTrack "b.mp3" (Some ["2"%string]) None 60%float));
        ("a.mp3"%string,
         FileMerger.ReadTrack
           (FileMerger.mkTrack "a.mp3" (Some ["1"%string]) None 30%float)) ]
      "/in/book" BookStatus.empty
    = (FileMerger.Pieces pieces, BookStatus.empty)
    /\ pieces <> []
    /\ omap id pieces
       ≡ₚ [ FileMerger.mkTrack "b.mp3" (Some ["2"%string]) None 60%float;
            FileMerger.mkTrack "a.mp3" (Some ["1"%string]) None 30%float ].
Proof.
  apply (X29_orderFiles_orders_every_track (fun p => p) false
           [ ("b.mp3"%string,
              FileMerger.ReadTrack
                (FileMerger.mkTrack "b.mp3" (Some ["2"%string]) None 60%float));
             ("a.mp3"%string,
              FileMerger.ReadTrack
                (FileMerger.mkTrack "a.mp3" (Some ["1"%string]) None 30%float)) ]
           "/in/book" BookStatus.empty
           [ FileMerger.mkTrack "b.mp3" (Some ["2"%string]) None 60%float;
             FileMerger.mkTrack "a.mp3" (Some ["1"%string]) None 30%float ]).
  reflexivity.
Defined.

(** *** The slots of the multi-disc ordering *)

(** The trimmed list is the list without its first or its last place. *)
Lemma trim_part (chapters pieces : FileMerger.Chapters) :
  FileMerger.trim chapters = Some pieces ->
  exists shift : nat,
    (shift <= 1)%nat
    /\ forall i x, pieces !! i = Some x -> chapters !! (shift + i)%nat = Some x.
Proof.
  unfold FileMerger.trim.
  destruct (chapters !! 0%nat) as [first|]; [|easy].
  set (middle := match first with
                 | None => drop 1 chapters | Some _ => chapters end).
  assert (exists shift : nat,
            (shift <= 1)%nat
            /\ forall i x, middle !! i = Some x ->
                 chapters !! (shift + i)%nat = Some x)
    as (shift & Hshift & Hm).
  { subst middle. destruct first.
    - exists 0%nat. split; [lia|easy].
    - exists 1%nat. split; [lia|]. intros i x Hi.
      now rewrite lookup_drop in Hi. }
  destruct (last middle) as [final|]; [|easy].
  intros [= <-]. exists shift. split; [exact Hshift|].
  intros i x Hi. apply Hm. destruct final; [exact Hi|].
  now apply lookup_take_Some in Hi as [Hi _].
Qed.

Section DiscSlots.

Variable tracks : list FileMerger.Track.

Lemma place_disc_slots (disk : Z) (l : list FileMerger.Track)
    (chapters chapters' : FileMerger.Chapters) (tracksDone tracksDone' : Z) :
  (forall t, t ∈ l -> t ∈ tracks) ->
  in_disc_slot tracks (length chapters) 0 chapters ->
  FileMerger.place_disc disk
    (Z.of_nat (length (on_discs 1 disk tracks))) l chapters tracksDone
  = Some (chapters', tracksDone') ->
  length chapters' = length chapters
  /\ in_disc_slot tracks (length chapters) 0 chapters'.
Proof.
  revert chapters tracksDone. induction l as [|t l IH];
    intros chapters tracksDone Hl Hinv.
  - cbn. now intros [= <- _].
  - cbn [FileMerger.place_disc].
    destruct (FileMerger.disc_number t) as [e|d] eqn:Ed; [easy|].
    destruct (FileMerger.track_number t) as [e|n] eqn:En; [easy|].
    assert (forall t', t' ∈ l -> t' ∈ tracks) as Hl'
      by (intros t' Ht'; now apply Hl, list_elem_of_further).
    destruct (Z.eqb_spec d disk) as [->|Hd]; [|now apply IH].
    destruct (FileMerger.py_index _ _) as [k|] eqn:Ek; [|easy].
    intros Hp. apply IH in Hp; [|exact Hl'|].
    + now rewrite length_insert in Hp.
    + rewrite length_insert. intros i t' Hi.
      destruct (decide (k = i)) as [->|Hki].
      * rewrite list_lookup_insert_eq in Hi by (eapply py_index_lt, Ek).
        injection Hi as <-. split; [apply Hl, list_elem_of_here|].
        eexists. split; [|exact Ek].
        unfold multi_disc_slot. now rewrite Ed, En.
      * rewrite list_lookup_insert_ne in Hi by exact Hki. now apply Hinv.
Qed.

Lemma place_discs_slots (left : nat) (disk : Z)
    (chapters chapters' : FileMerger.Chapters) (tracksDone disk' : Z) :
  1 <= disk ->
  tracksDone = Z.of_nat (length (on_discs 1 disk tracks)) ->
  in_disc_slot tracks (length chapters) 0 chapters ->
  FileMerger.place_discs left disk tracks chapters tracksDone
  = Some (chapters', disk') ->
  length chapters' = length chapters
  /\ in_disc_slot tracks (length chapters) 0 chapters'.
Proof.
  revert disk chapters tracksDone. induction left as [|left IH];
    intros disk chapters tracksDone Hdisk Hdone Hinv.
  - cbn. now intros [= <- _].
  - cbn [FileMerger.place_discs].
    destruct ((tracksDone <? _) && (disk <=? FileMerger.maxDisk));
      [|now intros [= <- _]].
    destruct (FileMerger.place_disc disk tracksDone tracks chapters tracksDone)
      as [[ch1 done1]|] eqn:E1; [|easy].
    pose proof (place_disc_count _ _ _ _ _ _ _ E1) as Hcount.
    rewrite Hdone in E1 at 1.
    apply place_disc_slots in E1 as [Hlen Hinv1]; [|easy|exact Hinv].
    intros Hp. apply IH in Hp.
    + rewrite Hlen in Hp. exact Hp.
    + lia.
    + rewrite on_discs_next by exact Hdisk. lia.
    + now rewrite Hlen.
Qed.

End DiscSlots.

(** X30: when the multi-disc ordering returns a non-empty list, every
    track in it is one of the tracks given and sits at the position that
    its track number plus the number of tracks on the discs before its own
    denotes as a list index, positions counted from 0 or from 1. *)
Theorem X30_multi_disc_order_places_tracks_after_earlier_discs
    (tracks : list FileMerger.Track) :
  FileMerger.orderByTrackNumber tracks true <> [] ->
  exists shift : nat,
    (shift <= 1)%nat
    /\ forall (i : nat) (t : FileMerger.Track),
         FileMerger.orderByTrackNumber tracks true !! i = Some (Some t) ->
         t ∈ tracks
         /\ exists d n,
              FileMerger.disc_number t = inr d
              /\ FileMerger.track_number t = inr n
              /\ FileMerger.py_index (length tracks + 1)
                   (n + Z.of_nat (length (on_discs 1 d tracks)))
                 = Some (shift + i)%nat.
Proof.
  unfold FileMerger.orderByTrackNumber.
  destruct (FileMerger.place_discs 11 1 tracks
              (replicate (length tracks + 1) None) 0)
    as [[chapters' disk']|] eqn:Ep; [|now intros H].
  destruct (FileMerger.maxDisk <? disk'); [now intros H|].
  destruct (FileMerger.trim chapters') as [pieces|] eqn:Et; [|now intros H].
  cbn [from_option id]. intros _.
  apply place_discs_slots in Ep as [Hlen Hinv]; [|lia| |].
  - rewrite length_replicate in Hinv.
    destruct (trim_part _ _ Et) as (shift & Hshift & Hpart).
    exists shift. split; [exact Hshift|]. intros i t Hi.
    apply Hpart, Hinv in Hi as (Hin & z & Hz & Hk). split; [exact Hin|].
    unfold multi_disc_slot in Hz.
    destruct (FileMerger.disc_number t) as [e|d]; [discriminate Hz|].
    destruct (FileMerger.track_number t) as [e|n]; [discriminate Hz|].
    injection Hz as <-. exists d, n. rewrite Nat.add_0_l in Hk. easy.
  - clear. induction tracks as [|h rest IH]; [reflexivity|].
    unfold on_discs in *. cbn [List.filter].
    destruct (FileMerger.disc_number h) as [e|d]; [exact IH|].
    replace ((1 <=? d) && (d <? 1)) with false by lia. exact IH.
  - intros i t Hi. apply lookup_replicate in Hi as [Hi _]. discriminate Hi.
Qed.

Lemma X30_multi_disc_order_places_tracks_after_earlier_discs_witness :
  exists shift : nat,
    (shift <= 1)%nat
    /\ forall (i : nat) (t : FileMerger.Track),
         FileMerger.orderByTrackNumber
           [ FileMerger.mkTrack "C.mp3" (Some ["1"%string]) (Some ["2"%string])
               1%float;
             FileMerger.mkTrack "A.mp3" (Some ["1"%string]) (Some ["1"%string])
               1%float ] true !! i = Some (Some t) ->
         t ∈ [ FileMerger.mkTrack "C.mp3" (Some ["1"%string])
                 (Some ["2"%string]) 1%float;
               FileMerger.mkTrack "A.mp3" (Some ["1"%string])
                 (Some ["1"%string]) 1%float ]
         /\ exists d n,
              FileMerger.disc_number t = inr d
              /\ FileMerger.track_number t = inr n
              /\ FileMerger.py_index (2 + 1)
                   (n + Z.of_nat
                          (length
                             (on_discs 1 d
                                [ FileMerger.mkTrack "C.mp3" (Some ["1"%string])
                                    (Some ["2"%string]) 1%float;
                                  FileMerger.mkTrack "A.mp3" (Some ["1"%string])
                                    (Some ["1"%string]) 1%float ])))
                 = Some (shift + i)%nat.
Proof.
  apply (X30_multi_disc_order_places_tracks_after_earlier_discs
           [ FileMerger.mkTrack "C.mp3" (Some ["1"%string]) (Some ["2"%string])
               1%float;
             FileMerger.mkTrack "A.mp3" (Some ["1"%string]) (Some ["1"%string])
               1%float ]).
  vm_compute. discriminate.
Defined.
